(** * ftp_sync.py: change detection and upload reconciliation

    A shallow embedding of the synchronisation core of [ftp_sync.py]
    (class [FolderWatcher]): [should_ignore], [get_file_hash],
    [scan_folder], [connect_ftp], [create_remote_dirs], [upload_file] and
    [sync_changes], followed by the properties of these functions.

    Conventions of the embedding.
    - A Python [str] is a [string]; file content is a [list byte].
    - The dictionaries [self.file_hashes] and [current_files] are
      [gmap string string].
    - The local directory tree is a value of type [entry]; [os.walk] is the
      function [walk].
    - An exception is the [Raise] outcome of the monad [M], which threads the
      state of the FTP connection; [try: .. except: ..] is [try_except].
    - The remote server is a parameter: a state and a reply to each command.
      Every property of a run holds for every server.

    Left out, as they decide nothing here: the progress bar and the listing
    of the changes before the prompt, the advisory message of
    [should_ignore] for a large file, the timeouts.  [os.walk] is taken on
    a tree of directories and regular files, and [save_config] as writing
    the file without error. *)

From Stdlib Require Import NArith Ascii String List Bool Lia.
From Stdlib Require Import Numbers.DecimalString.
From stdpp Require Import base option list strings gmap.

Local Open Scope string_scope.
Local Open Scope list_scope.
#[local] Set Warnings "-register-all".

(** ** Python string operations *)

Module Py.

(** [s.replace('\\', '/')] *)
Fixpoint replace_backslash (s : string) : string :=
  match s with
  | EmptyString => EmptyString
  | String c r =>
      String (if Ascii.eqb c "\"%char then "/"%char else c) (replace_backslash r)
  end.

(** [s.split(c)]: never the empty list; ["".split('/')] is [[""]]. *)
Fixpoint split (c : ascii) (s : string) : list string :=
  match s with
  | EmptyString => [EmptyString]
  | String a r =>
      if Ascii.eqb a c then EmptyString :: split c r
      else match split c r with
           | [] => [String a EmptyString]
           | h :: t => String a h :: t
           end
  end.

(** [sep.join(l)] *)
Fixpoint join (c : ascii) (l : list string) : string :=
  match l with
  | [] => EmptyString
  | [s] => s
  | s :: r => (s ++ String c (join c r))%string
  end.

(** [s.startswith(p)] *)
Definition startswith (s p : string) : bool := String.prefix p s.

(** [s.endswith(p)] *)
Fixpoint endswith (s p : string) : bool :=
  String.eqb s p ||
  match s with
  | EmptyString => false
  | String _ r => endswith r p
  end.

(** [p in s] *)
Fixpoint contains (s p : string) : bool :=
  String.prefix p s ||
  match s with
  | EmptyString => false
  | String _ r => contains r p
  end.

(** [s[1:]] *)
Definition tail (s : string) : string :=
  match s with
  | EmptyString => EmptyString
  | String _ r => r
  end.

(** [str(n)] for a non-negative [int] *)
Definition str_int (n : N) : string := NilEmpty.string_of_uint (N.to_uint n).

(** [s.lower()] on ASCII letters *)
Definition lower_ascii (c : ascii) : ascii :=
  let n := nat_of_ascii c in
  if (65 <=? n)%nat && (n <=? 90)%nat then ascii_of_nat (n + 32) else c.

Fixpoint lower (s : string) : string :=
  match s with
  | EmptyString => EmptyString
  | String c r => String (lower_ascii c) (lower r)
  end.

(** [s.encode()] *)
Definition encode (s : string) : list Byte.byte := list_byte_of_string s.

End Py.

(** ** The ignore rules *)

(** [self.ignore_patterns], set in [__init__] and never changed. *)
Definition ignore_patterns : list string :=
  [".git"; ".svn"; "node_modules"; ".DS_Store"; "Thumbs.db";
   "__pycache__"; ".idea"; ".vscode";
   "*.pyc"; "*.pyo"; ".pytest_cache"].

(** [100 * 1024 * 1024] *)
Definition MAX_SIZE : N := 100 * 1024 * 1024.

(** The test of one pattern on one path segment, the body of the inner loop
    of [should_ignore]. *)
Definition pattern_hits (pattern part : string) : bool :=
  if Py.startswith pattern "*" then Py.endswith part (Py.tail pattern)
  else Py.contains part pattern.

(** The two nested [for] loops of [should_ignore]: [True] is returned at the
    first hit. *)
Definition patterns_hit (patterns parts : list string) : bool :=
  existsb (fun pattern => existsb (pattern_hits pattern) parts) patterns.

(** [should_ignore(filepath)].  [getsize p] is the result of
    [os.path.getsize(os.path.join(self.watch_folder, p))], [None] when it
    raises (the [except: pass]). *)
Definition should_ignore (getsize : string -> option N) (filepath : string) : bool :=
  let parts := Py.split "/" (Py.replace_backslash filepath) in
  if patterns_hit ignore_patterns parts then true
  else match getsize filepath with
       | Some size => if (MAX_SIZE <? size)%N then true else false
       | None => false
       end.

(** ** The interpreter's services *)

(** What the embedding takes from the Python runtime: the float returned by
    [os.path.getmtime] with its [str()], and [hashlib.md5] (the digest of
    all the bytes fed to [update], as [hexdigest] gives it). *)
Class Runtime := {
  Mtime : Type;
  str_float : Mtime -> string;
  md5_hexdigest : list Byte.byte -> string
}.

(** ** The local file system *)

Section LocalFiles.
Context `{RT : Runtime}.

(** What [os.path.getsize] and [os.path.getmtime] read. *)
Record stat := { st_size : N; st_mtime : Mtime }.

(** A regular file: [f_stat] is [None] when [stat] fails on it, [f_data] is
    [None] when [open(.., 'rb')] fails. *)
Record file := { f_stat : option stat; f_data : option (list Byte.byte) }.

(** A directory entry.  The [option N] of a directory is what
    [os.path.getsize] returns for it. *)
Inductive entry :=
| File (name : string) (f : file)
| Dir (name : string) (size : option N) (children : list entry).

Definition entry_name (e : entry) : string :=
  match e with File n _ => n | Dir n _ _ => n end.

Definition entry_size (e : entry) : option N :=
  match e with
  | File _ f => st_size <$> f_stat f
  | Dir _ sz _ => sz
  end.

(** The watched folder: its content and [os.sep]. *)
Record localfs := { fs_sep : ascii; fs_root : list entry }.

(** Resolution of a path, given by its components, below a directory. *)
Fixpoint lookup_entry (es : list entry) (segs : list string) : option entry :=
  match segs with
  | [] => None
  | s :: rest =>
      match List.find (fun e => String.eqb (entry_name e) s) es with
      | None => None
      | Some e =>
          match rest, e with
          | [], _ => Some e
          | _ :: _, Dir _ _ ch => lookup_entry ch rest
          | _ :: _, File _ _ => None
          end
      end
  end.

(** [os.path.getsize(os.path.join(self.watch_folder, p))]; [None] when it
    raises [OSError]. *)
Definition os_getsize (fs : localfs) (p : string) : option N :=
  lookup_entry (fs_root fs) (Py.split (fs_sep fs) p) ≫= entry_size.

(** [open(os.path.join(self.watch_folder, p), 'rb')] followed by reading the
    whole file, as [storbinary] does; [None] when [open] raises. *)
Definition os_open (fs : localfs) (p : string) : option (list Byte.byte) :=
  match lookup_entry (fs_root fs) (Py.split (fs_sep fs) p) with
  | Some (File _ f) => f_data f
  | _ => None
  end.

(** *** File objects and hash objects *)

Fixpoint takeN {A} (n : N) (l : list A) : list A :=
  match l with
  | [] => []
  | x :: r => if (n =? 0)%N then [] else x :: takeN (N.pred n) r
  end.

Fixpoint dropN {A} (n : N) (l : list A) : list A :=
  match l with
  | [] => []
  | x :: r => if (n =? 0)%N then l else dropN (N.pred n) r
  end.

Definition lengthN {A} (l : list A) : N := N.of_nat (length l).

(** An open binary file: its bytes and the position of the next read. *)
Record handle := { h_bytes : list Byte.byte; h_pos : N }.

Definition h_open (data : list Byte.byte) : handle :=
  {| h_bytes := data; h_pos := 0 |}.

(** [f.read(n)] *)
Definition h_read (n : N) (h : handle) : list Byte.byte * handle :=
  let got := takeN n (dropN (h_pos h) (h_bytes h)) in
  (got, {| h_bytes := h_bytes h; h_pos := h_pos h + lengthN got |}).

(** [f.seek(-n, 2)]: [None] is the [OSError] of a position before the start
    of the file. *)
Definition h_seek_end (n : N) (h : handle) : option handle :=
  if (n <=? lengthN (h_bytes h))%N
  then Some {| h_bytes := h_bytes h; h_pos := lengthN (h_bytes h) - n |}
  else None.

(** A [hashlib.md5()] object: the bytes it was fed. *)
Record hasher := { fed : list Byte.byte }.

Definition md5_new : hasher := {| fed := [] |}.
Definition update (hs : hasher) (b : list Byte.byte) : hasher :=
  {| fed := fed hs ++ b |}.
Definition hexdigest (hs : hasher) : string := md5_hexdigest (fed hs).

(** [1024 * 1024] *)
Definition CHUNK : N := 1024 * 1024.

(** [get_file_hash(filepath)] on the file found at [filepath]; [None] when
    an exception leaves the function. *)
Definition get_file_hash (f : file) : option string :=
  let hasher := md5_new in
  st ← f_stat f;
  let file_size := st_size st in
  data ← f_data f;
  let fh := h_open data in
  let '(b, fh) := h_read CHUNK fh in
  let hasher := update hasher b in
  hasher ←
    (if (2 * CHUNK <? file_size)%N then
       fh ← h_seek_end CHUNK fh;
       let '(b, _) := h_read CHUNK fh in
       Some (update hasher b)
     else Some hasher);
  let hasher := update hasher (Py.encode (Py.str_int file_size)) in
  let hasher := update hasher (Py.encode (str_float (st_mtime st))) in
  Some (hexdigest hasher).

(** *** The walk *)

Definition files_of (es : list entry) : list (string * file) :=
  omap (fun e => match e with File n f => Some (n, f) | Dir _ _ _ => None end) es.

(** [os.walk(top)], top down, for a caller that removes from [dirs] the
    names [d] with [prune d]: the list of the pairs (root, files) it yields,
    the root given by the directory names that lead to it from [top].
    [walk_entry] is the recursive call on one name of [dirs]. *)
Fixpoint walk_entry (prune : string -> bool) (root : list string) (e : entry)
  : list (list string * list (string * file)) :=
  match e with
  | File _ _ => []
  | Dir d _ ch =>
      if prune d then []
      else (root ++ [d], files_of ch)
             :: (ch ≫= walk_entry prune (root ++ [d]))
  end.

Definition walk (prune : string -> bool) (root : list string) (es : list entry)
  : list (list string * list (string * file)) :=
  (root, files_of es) :: (es ≫= walk_entry prune root).

(** [os.path.relpath(os.path.join(root, file), self.watch_folder)] *)
Definition relpath (sep : ascii) (root : list string) (file : string) : string :=
  Py.join sep (root ++ [file]).

(** The files the two nested loops of [scan_folder] visit, in order, each
    with its [relative_path]. *)
Definition visited (fs : localfs) : list (string * file) :=
  let prune := should_ignore (os_getsize fs) in
  '(root, files) ← walk prune [] (fs_root fs);
  '(name, f) ← files;
  [(relpath (fs_sep fs) root name, f)].

(** *** scan_folder *)

(** The local variables [current_files], [changes] and [skipped_files]. *)
Record scan_vars := {
  current_files : gmap string string;
  changes_new : list string;
  changes_modified : list string;
  skipped_files : list string
}.

Definition scan_init : scan_vars :=
  {| current_files := ∅; changes_new := []; changes_modified := [];
     skipped_files := [] |}.

(** The body of [for file in files]. *)
Definition scan_file (fs : localfs) (file_hashes : gmap string string)
    (v : scan_vars) (relative_path : string) (f : file) : scan_vars :=
  if should_ignore (os_getsize fs) relative_path then
    {| current_files := current_files v; changes_new := changes_new v;
       changes_modified := changes_modified v;
       skipped_files := skipped_files v ++ [relative_path] |}
  else
    match get_file_hash f with
    | Some file_hash =>
        let cur := <[relative_path := file_hash]> (current_files v) in
        match file_hashes !! relative_path with
        | None =>
            {| current_files := cur;
               changes_new := changes_new v ++ [relative_path];
               changes_modified := changes_modified v;
               skipped_files := skipped_files v |}
        | Some old =>
            if String.eqb old file_hash then
              {| current_files := cur; changes_new := changes_new v;
                 changes_modified := changes_modified v;
                 skipped_files := skipped_files v |}
            else
              {| current_files := cur; changes_new := changes_new v;
                 changes_modified := changes_modified v ++ [relative_path];
                 skipped_files := skipped_files v |}
        end
    | None => v
    end.

Definition scan_loop (fs : localfs) (file_hashes : gmap string string)
    (l : list (string * file)) (v : scan_vars) : scan_vars :=
  fold_left (fun v '(p, f) => scan_file fs file_hashes v p f) l v.

(** The [FolderWatcher] object, as far as the scan and the sync use it:
    [self.file_hashes] and the ['file_hashes'] entry of the configuration
    file that [save_config] writes. *)
Record watcher := {
  file_hashes : gmap string string;
  config_file_hashes : gmap string string
}.

Definition save_config (w : watcher) : watcher :=
  {| file_hashes := file_hashes w; config_file_hashes := file_hashes w |}.

(** [scan_folder(save_changes)]: the new state of the object and the
    variables at the [return] ([changes] is their [changes_new] and
    [changes_modified]). *)
Definition scan_folder (fs : localfs) (save_changes : bool) (w : watcher)
  : watcher * scan_vars :=
  let v := scan_loop fs (file_hashes w) (visited fs) scan_init in
  if save_changes then
    (save_config {| file_hashes := current_files v;
                    config_file_hashes := config_file_hashes w |}, v)
  else (w, v).

End LocalFiles.

(** ** The FTP session *)

(** The commands [ftplib] sends for the calls made by the program:
    [connect], [login], [voidcmd('TYPE I')], [sendcmd('OPTS UTF8 ON')],
    [cwd], [mkd], [storbinary('STOR name', f)] with the bytes of [f], and
    [quit]. *)
Inductive cmd :=
| CONNECT (host : string) (port : N)
| LOGIN (username password : string)
| TYPE_I
| OPTS_UTF8_ON
| CWD (dir : string)
| MKD (dir : string)
| STOR (name : string) (data : list Byte.byte)
| QUIT.

(** The exceptions the program tells apart: [ftplib.error_perm] and any
    other. *)
Inductive exn := error_perm | other_error.

(** The outcome of one call: it returns or it raises. *)
Inductive reply := Done | Failed (e : exn).

(** The remote side: any state, any answer to a command. *)
Class FtpServer := {
  Server : Type;
  respond : Server -> cmd -> reply * Server
}.

(** [self.ftp_config] *)
Record ftp_config := {
  host : string; port : N; username : string; password : string;
  remote_path : string
}.

(** What the program prints, as far as the properties below speak of it
    (the calls of [UI.success], [UI.warning], [UI.error] and [UI.info] in
    [connect_ftp] and [sync_changes]). *)
Inductive message :=
| UpToDate                       (* "Everything is up to date!" *)
| FoundChanges (total : nat)      (* "Found {total} changes" *)
| SyncCancelled                  (* "Sync cancelled." *)
| FtpPermissionError             (* "FTP permission error: {e}" *)
| FtpConnectionError             (* "FTP connection error: {e}" *)
| AllUploaded (total : nat)      (* "All {total} files uploaded successfully!" *)
| UploadedOf (success total : nat) (* "Uploaded {success}/{total} files" *)
| FilesFailed (n : nat)          (* "{len(failed_files)} files failed to upload" *)
| UpdatingDatabase               (* "Updating tracking database..." *)
| SyncError.                     (* "Sync error: {e}" *)

(** The trace of a run: each command with the server's reply, each entry
    into [upload_file] with its [remote_file] argument, each failed
    [open] of a local file, each message. *)
Inductive event :=
| Sent (c : cmd) (r : reply)
| UploadFile (remote_file : string)
| OpenFailed (local_file : string)
| Say (m : message).

(** Results of a computation that may raise. *)
Inductive result (A : Type) := Val (a : A) | Raise (e : exn).
Arguments Val {A} a.
Arguments Raise {A} e.

Section Session.
Context `{RT : Runtime} `{FTP : FtpServer}.

(** The state a run works on: the [FolderWatcher] object, the remote side
    of the [ftp] object, and the trace so far. *)
Record state := { self : watcher; server : Server; log : list event }.

Definition record (e : event) (s : state) : state :=
  {| self := self s; server := server s; log := log s ++ [e] |}.

(** Computations on the state. *)
Definition M (A : Type) : Type := state -> result A * state.

Definition ret {A} (a : A) : M A := fun s => (Val a, s).
Definition raise {A} (e : exn) : M A := fun s => (Raise e, s).
Definition bind {A B} (m : M A) (k : A -> M B) : M B :=
  fun s => match m s with
           | (Val a, s') => k a s'
           | (Raise e, s') => (Raise e, s')
           end.

(** [try: m except: h] *)
Definition try_except {A} (m : M A) (h : exn -> M A) : M A :=
  fun s => match m s with
           | (Val a, s') => (Val a, s')
           | (Raise e, s') => h e s'
           end.

Definition tell (e : event) : M unit := fun s => (Val tt, record e s).

(** One call on the [ftplib.FTP] object. *)
Definition send (c : cmd) : M unit :=
  fun s =>
    let '(r, srv) := respond (server s) c in
    let s' := {| self := self s; server := srv; log := log s ++ [Sent c r] |} in
    match r with
    | Done => (Val tt, s')
    | Failed e => (Raise e, s')
    end.

#[global] Instance M_ret : MRet M := @ret.
#[global] Instance M_bind : MBind M := fun A B k m => bind m k.

(** [for x in l: body x] *)
Fixpoint for_each {A} (l : list A) (body : A -> M unit) : M unit :=
  match l with
  | [] => ret tt
  | x :: r => body x ;; for_each r body
  end.

(** [with open(local_file, 'rb') as f: ftp.storbinary(f'STOR {name}', f)],
    with [local_file] the file of the watched folder at [file]. *)
Definition store (fs : localfs) (file name : string) : M unit :=
  match os_open fs file with
  | Some data => send (STOR name data)
  | None => tell (OpenFailed file) ;; raise other_error
  end.

(** [connect_ftp()]: the [ftp] object is the state's [server]; [false] is the
    [None] it returns. *)
Definition connect_ftp (cfg : ftp_config) : M bool :=
  try_except
    (send (CONNECT (host cfg) (port cfg)) ;;
     send (LOGIN (username cfg) (password cfg)) ;;
     send TYPE_I ;;
     try_except (send OPTS_UTF8_ON) (fun _ => ret tt) ;;
     ret true)
    (fun e =>
       match e with
       | error_perm => tell (Say FtpPermissionError) ;; ret false
       | other_error => tell (Say FtpConnectionError) ;; ret false
       end).

(** [[d for d in remote_path.split('/') if d]] *)
Definition path_dirs (remote_path : string) : list string :=
  List.filter (fun d => negb (String.eqb d EmptyString)) (Py.split "/" remote_path).

(** The [if self.ftp_config['remote_path']: .. else: ..] that enters the
    base directory. *)
Definition cwd_base (cfg : ftp_config) : M unit :=
  if negb (String.eqb (remote_path cfg) EmptyString)
  then send (CWD (remote_path cfg))
  else send (CWD "/").

(** [create_remote_dirs(ftp, remote_path)] *)
Definition create_remote_dirs (cfg : ftp_config) (remote_path : string) : M unit :=
  let dirs := path_dirs remote_path in
  let dirs := match dirs with [] => dirs | _ :: _ => removelast dirs end in
  cwd_base cfg ;;
  for_each dirs (fun dir =>
    try_except (send (CWD dir))
      (fun _ => try_except (send (MKD dir) ;; send (CWD dir)) (fun _ => ret tt))).

(** The first [try] block of [upload_file], after the [replace]. *)
Definition upload_primary (fs : localfs) (cfg : ftp_config)
    (file remote_file : string) : M bool :=
  create_remote_dirs cfg remote_file ;;
  cwd_base cfg ;;
  store fs file remote_file ;;
  ret true.

(** The body of [for dir in dirs] in the [except] clause. *)
Definition fallback_step (dir : string) : M unit :=
  try_except (send (CWD dir)) (fun _ => send (MKD dir) ;; send (CWD dir)).

(** The [try] block of its [except] clause. *)
Definition upload_fallback (fs : localfs) (cfg : ftp_config)
    (file remote_file : string) : M bool :=
  let dirs := path_dirs remote_file in
  let filename := match dirs with [] => remote_file | _ :: _ => List.last dirs EmptyString end in
  let dirs := if (1 <? length dirs)%nat then removelast dirs else [] in
  cwd_base cfg ;;
  for_each dirs fallback_step ;;
  store fs file filename ;;
  ret true.

(** [upload_file(ftp, local_file, remote_file)] with
    [local_file = os.path.join(self.watch_folder, file)]. *)
Definition upload_file (fs : localfs) (cfg : ftp_config)
    (file remote_file : string) : M bool :=
  tell (UploadFile remote_file) ;;
  let remote_file := Py.replace_backslash remote_file in
  try_except (upload_primary fs cfg file remote_file)
    (fun _ => try_except (upload_fallback fs cfg file remote_file)
                (fun _ => ret false)).


(** *** sync_changes *)

Inductive change_type := new | modified.

(** The block that enters the configured remote directory before the
    uploads. *)
Definition enter_base (cfg : ftp_config) : M unit :=
  if negb (String.eqb (remote_path cfg) EmptyString) then
    try_except (send (CWD (remote_path cfg)))
      (fun _ =>
         create_remote_dirs cfg (remote_path cfg ++ "/dummy")%string ;;
         send (CWD (remote_path cfg)))
  else ret tt.

(** The loop [for file, change_type in all_files], from the values
    [success] and [failed_files] have when it is entered to those they have
    when it is left. *)
Fixpoint upload_loop (fs : localfs) (cfg : ftp_config)
    (all_files : list (string * change_type))
    (success : nat) (failed_files : list string) : M (nat * list string) :=
  match all_files with
  | [] => ret (success, failed_files)
  | (file, _) :: rest =>
      ok ← upload_file fs cfg file file;
      if ok : bool then upload_loop fs cfg rest (S success) failed_files
      else upload_loop fs cfg rest success (failed_files ++ [file])
  end.

(** The messages after the loop. *)
Definition report (total success : nat) (failed_files : list string) : M unit :=
  if (success =? total)%nat then tell (Say (AllUploaded total))
  else
    tell (Say (UploadedOf success total)) ;;
    match failed_files with
    | [] => ret tt
    | _ :: _ => tell (Say (FilesFailed (length failed_files)))
    end.

(** [self.scan_folder(save_changes)] as a step of a run. *)
Definition do_scan (fs : localfs) (save_changes : bool) : M scan_vars :=
  fun s =>
    let '(w, v) := scan_folder fs save_changes (self s) in
    (Val v, {| self := w; server := server s; log := log s |}).

(** The statements after the loop: the messages, and the scan that
    records the new state when a file was uploaded. *)
Definition conclude (fs : localfs) (total success : nat)
    (failed_files : list string) : M (nat * list string) :=
  report total success failed_files ;;
  (if (0 <? success)%nat then
     tell (Say UpdatingDatabase) ;;
     do_scan fs true ;;
     ret tt
   else ret tt) ;;
  ret (success, failed_files).

(** [all_files] *)
Definition all_files (changes : scan_vars) : list (string * change_type) :=
  map (fun f => (f, new)) (changes_new changes)
  ++ map (fun f => (f, modified)) (changes_modified changes).

(** The body of the [try] of [sync_changes]; it returns [success] and
    [failed_files]. *)
Definition sync_body (fs : localfs) (cfg : ftp_config) (changes : scan_vars)
  : M (nat * list string) :=
  let total := (length (changes_new changes) + length (changes_modified changes))%nat in
  enter_base cfg ;;
  '(success, failed_files) ← upload_loop fs cfg (all_files changes) 0 [];
  conclude fs total success failed_files.

(** [try: m finally: f]: [f] runs after [m] in either case, and an exception
    of [f] takes the place of the outcome of [m]. *)
Definition try_finally {A} (m : M A) (f : M unit) : M A :=
  fun s => match m s with
           | (Val a, s') =>
               match f s' with
               | (Val _, s'') => (Val a, s'')
               | (Raise e, s'') => (Raise e, s'')
               end
           | (Raise e, s') =>
               match f s' with
               | (Val _, s'') => (Raise e, s'')
               | (Raise e', s'') => (Raise e', s'')
               end
           end.

(** [sync_changes()], for the answer [confirm] given at the prompt.  The
    function returns nothing; the value here is that of [success] and
    [failed_files] when the upload loop was run to its end, [None]
    otherwise. *)
Definition sync_changes (fs : localfs) (cfg : ftp_config) (confirm : string)
  : M (option (nat * list string)) :=
  changes ← do_scan fs false;
  match changes_new changes, changes_modified changes with
  | [], [] => tell (Say UpToDate) ;; ret None
  | _, _ =>
      let total := (length (changes_new changes) + length (changes_modified changes))%nat in
      tell (Say (FoundChanges total)) ;;
      if negb (String.eqb (Py.lower confirm) "y") then
        tell (Say SyncCancelled) ;; ret None
      else
        ftp ← connect_ftp cfg;
        if negb ftp then ret None
        else
          try_finally
            (try_except (r ← sync_body fs cfg changes; ret (Some r))
               (fun _ => tell (Say SyncError) ;; ret None))
            (send QUIT)
  end.

End Session.

(** ** Closed instances for examples *)

(** A runtime with whole-second timestamps, written [<seconds>.0] as Python
    writes such a float, and the fed bytes themselves for a digest. *)
Definition plain_runtime : Runtime :=
  {| Mtime := N;
     str_float := fun t => (Py.str_int t ++ ".0")%string;
     md5_hexdigest := string_of_list_byte |}.

(** A server without state that refuses the commands of [refused] and
    accepts the others. *)
Definition refusing (refused : cmd -> bool) : FtpServer :=
  {| Server := unit;
     respond := fun _ c =>
       (if refused c then Failed other_error else Done, tt) |}.

Definition accepting : FtpServer := refusing (fun _ => false).

(** [STOR name] for one of the [names] *)
Definition stor_of (names : list string) (c : cmd) : bool :=
  match c with
  | STOR name _ => existsb (String.eqb name) names
  | _ => false
  end.

Definition is_connect (c : cmd) : bool :=
  match c with CONNECT _ _ => true | _ => false end.

Definition text (s : string) : list Byte.byte := Py.encode s.

(** A file of [size] bytes [data] with modification time [mtime]. *)
Definition regular `{RT : Runtime} (data : list Byte.byte) (mtime : Mtime) : file :=
  {| f_stat := Some {| st_size := lengthN data; st_mtime := mtime |};
     f_data := Some data |}.

(** ** Notions used in the statements *)

(** The segments of a path, as [should_ignore] cuts it. *)
Definition path_parts (filepath : string) : list string :=
  Py.split "/" (Py.replace_backslash filepath).

(** An ignore rule matches a segment: a rule [*suffix] matches the segments
    that end with [suffix], any other rule matches the segments that
    contain it. *)
Inductive rule_matches : string -> string -> Prop :=
| glob_rule (suffix a : string) :
    rule_matches (String "*" suffix) (a ++ suffix)%string
| substring_rule (rule a b : string) :
    Py.startswith rule "*" = false ->
    rule_matches rule (a ++ rule ++ b)%string.

Section ScanNotions.
Context `{RT : Runtime}.

(** The fingerprint a scan computes for a visited file: none when its path
    is ignored or when reading it fails. *)
Definition recorded (fs : localfs) (pf : string * file) : option string :=
  if should_ignore (os_getsize fs) pf.1 then None else get_file_hash pf.2.

(** A visited file counts as new, as modified. *)
Definition found_new (fs : localfs) (prior : gmap string string)
    (pf : string * file) : bool :=
  match recorded fs pf, prior !! pf.1 with
  | Some _, None => true
  | _, _ => false
  end.

Definition found_modified (fs : localfs) (prior : gmap string string)
    (pf : string * file) : bool :=
  match recorded fs pf, prior !! pf.1 with
  | Some h, Some old => negb (String.eqb old h)
  | _, _ => false
  end.

(** The effect of one visited file on [current_files]. *)
Definition record_into (fs : localfs) (m : gmap string string)
    (pf : string * file) : gmap string string :=
  match recorded fs pf with
  | Some h => <[pf.1 := h]> m
  | None => m
  end.

(** No two visited files have the same relative path. *)
Definition distinct_paths (fs : localfs) : Prop := NoDup (visited fs).*1.

End ScanNotions.

Section TreeNotions.
Context `{RT : Runtime}.

(** The names that occur in a tree. *)
Fixpoint entry_names (e : entry) : list string :=
  match e with
  | File n _ => [n]
  | Dir n _ ch => n :: (ch ≫= entry_names)
  end.

Definition fs_names (fs : localfs) : list string := fs_root fs ≫= entry_names.

(** Induction on a tree, with the hypothesis for every child of a
    directory. *)
Fixpoint entry_tree_ind (P : entry -> Prop)
    (HFile : forall n f, P (File n f))
    (HDir : forall n sz ch, Forall P ch -> P (Dir n sz ch))
    (e : entry) : P e :=
  match e with
  | File n f => HFile n f
  | Dir n sz ch =>
      HDir n sz ch
        ((fix children (l : list entry) : Forall P l :=
            match l with
            | [] => @List.Forall_nil _ P
            | x :: r =>
                @List.Forall_cons _ P x r (entry_tree_ind P HFile HDir x) (children r)
            end) ch)
  end.

(** A well-formed tree, as a file system keeps it: no name contains the
    separator, and the names in a directory are distinct. *)
Fixpoint wf_entry (sep : ascii) (e : entry) : bool :=
  negb (Py.contains (entry_name e) (String sep EmptyString))
  && match e with
     | File _ _ => true
     | Dir _ _ ch =>
         bool_decide (NoDup (entry_name <$> ch)) && forallb (wf_entry sep) ch
     end.

Definition wf_fs (fs : localfs) : bool :=
  bool_decide (NoDup (entry_name <$> fs_root fs))
  && forallb (wf_entry (fs_sep fs)) (fs_root fs).

(** The visited files of a walk, each given by the names on its path. *)
Definition walked_paths (w : list (list string * list (string * file)))
  : list (list string) :=
  '(root, files) ← w; '(name, _) ← files; [root ++ [name]].

End TreeNotions.

Section FingerprintNotions.
Context `{RT : Runtime}.

(** The first and the last MiB of a content. *)
Definition first_MiB (data : list Byte.byte) : list Byte.byte :=
  take (N.to_nat (1024 * 1024)) data.

Definition last_MiB (data : list Byte.byte) : list Byte.byte :=
  drop (length data - N.to_nat (1024 * 1024)) data.

(** The fingerprint in the words of the specification: the digest of the
    first MiB, then the last MiB when the size is above 2 MiB, then the
    size in decimal, then the modification time as [str] writes it. *)
Definition fingerprint_of (st : stat) (data : list Byte.byte) : string :=
  md5_hexdigest
    (first_MiB data
     ++ (if (2 * 1024 * 1024 <? st_size st)%N then last_MiB data else [])
     ++ Py.encode (Py.str_int (st_size st))
     ++ Py.encode (str_float (st_mtime st))).

(** The bytes [get_file_hash] feeds to the hash object. *)
Definition fed_bytes (st : stat) (data : list Byte.byte) : option (list Byte.byte) :=
  let tail := Py.encode (Py.str_int (st_size st))
              ++ Py.encode (str_float (st_mtime st)) in
  if (2 * CHUNK <? st_size st)%N then
    if (CHUNK <=? lengthN data)%N then
      Some (takeN CHUNK data
            ++ takeN CHUNK (dropN (lengthN data - CHUNK) data) ++ tail)
    else None
  else Some (takeN CHUNK data ++ tail).

End FingerprintNotions.

(** *** Traces *)

(** The files whose upload was begun, in order. *)
Definition uploads (tr : list event) : list string :=
  omap (fun e => match e with UploadFile f => Some f | _ => None end) tr.

(** The commands of [connect_ftp]. *)
Definition handshake (c : cmd) : bool :=
  match c with
  | CONNECT _ _ | LOGIN _ _ | TYPE_I | OPTS_UTF8_ON => true
  | _ => false
  end.

(** An event of the upload of a file: the entry into [upload_file], a
    failed [open], or a [STOR]. *)
Definition upload_event (e : event) : bool :=
  match e with
  | UploadFile _ | OpenFailed _ | Sent (STOR _ _) _ => true
  | _ => false
  end.

(** A [STOR] that the server accepted. *)
Definition stored (e : event) : bool :=
  match e with
  | Sent (STOR _ _) Done => true
  | _ => false
  end.

(** An event of [connect_ftp]: a command of the handshake or one of its two
    error messages. *)
Definition connecting (e : event) : bool :=
  match e with
  | Sent c _ => handshake c
  | Say FtpPermissionError | Say FtpConnectionError => true
  | _ => false
  end.

(** A command that moves between or makes remote directories. *)
Definition navigating (e : event) : bool :=
  match e with
  | Sent (CWD _) _ | Sent (MKD _) _ => true
  | _ => false
  end.

(** A [STOR], accepted or not. *)
Definition is_stor (e : event) : bool :=
  match e with
  | Sent (STOR _ _) _ => true
  | _ => false
  end.

(** An event of a failed attempt: a command other than an accepted [STOR],
    or a failed [open]. *)
Definition calm (e : event) : bool :=
  match e with
  | Sent (STOR _ _) Done => false
  | Sent _ _ | OpenFailed _ => true
  | _ => false
  end.

(** A message of [report]. *)
Definition reporting (e : event) : bool :=
  match e with
  | Say (AllUploaded _) | Say (UploadedOf _ _) | Say (FilesFailed _) => true
  | _ => false
  end.

(** An event that neither begins an upload, nor stores a file, nor reports
    on the uploads. *)
Definition quiet (e : event) : bool :=
  match e with
  | UploadFile _ | Sent (STOR _ _) Done => false
  | e => negb (reporting e)
  end.

(** A message, or a command of the handshake. *)
Definition idle (e : event) : bool :=
  match e with
  | Say _ => true
  | Sent c _ => handshake c
  | _ => false
  end.

(** The directory the uploads start from. *)
Definition base_dir (cfg : ftp_config) : string :=
  if String.eqb (remote_path cfg) EmptyString then "/" else remote_path cfg.

(** The directory segments of a remote path, and its bare file name. *)
Definition remote_dirs (remote : string) : list string :=
  removelast (path_dirs remote).

Definition bare_name (remote : string) : string :=
  List.last (path_dirs remote) remote.

(** The final step of an upload attempt: the file is stored under [name],
    the store is refused, or the local file cannot be opened. *)
Inductive store_script (file name : string) (data : option (list Byte.byte))
  : list event -> bool -> Prop :=
| store_done d :
    data = Some d ->
    store_script file name data [Sent (STOR name d) Done] true
| store_refused d e :
    data = Some d ->
    store_script file name data [Sent (STOR name d) (Failed e)] false
| store_unopened :
    data = None ->
    store_script file name data [OpenFailed file] false.

(** Provisioning of the directories in the fallback: [cwd], and [mkd] then
    [cwd] where the first [cwd] fails; it stops where [mkd] or the second
    [cwd] fails.  The boolean tells whether it went through. *)
Inductive provision_script : list string -> list event -> bool -> Prop :=
| prov_end : provision_script [] [] true
| prov_cwd d ds tr b :
    provision_script ds tr b ->
    provision_script (d :: ds) (Sent (CWD d) Done :: tr) b
| prov_mkd d ds e tr b :
    provision_script ds tr b ->
    provision_script (d :: ds)
      (Sent (CWD d) (Failed e) :: Sent (MKD d) Done :: Sent (CWD d) Done :: tr) b
| prov_mkd_failed d ds e e' :
    provision_script (d :: ds)
      [Sent (CWD d) (Failed e); Sent (MKD d) (Failed e')] false
| prov_cwd_failed d ds e e' :
    provision_script (d :: ds)
      [Sent (CWD d) (Failed e); Sent (MKD d) Done; Sent (CWD d) (Failed e')]
      false.

(** The fallback of an upload: back to the base directory, the directory
    segments provisioned, the file stored under its bare name.  The boolean
    is the success of the whole. *)
Inductive fallback_script (base : string) (dirs : list string)
    (file name : string) (data : option (list Byte.byte))
  : list event -> bool -> Prop :=
| fallback_no_base e :
    fallback_script base dirs file name data [Sent (CWD base) (Failed e)] false
| fallback_no_dirs tr :
    provision_script dirs tr false ->
    fallback_script base dirs file name data (Sent (CWD base) Done :: tr) false
| fallback_store tr tr' b :
    provision_script dirs tr true ->
    store_script file name data tr' b ->
    fallback_script base dirs file name data
      (Sent (CWD base) Done :: tr ++ tr') b.

Section TraceNotions.
Context `{RT : Runtime} `{FTP : FtpServer}.

(** The events a run added to the trace. *)
Definition events_since (s s' : state) : list event :=
  drop (length (log s)) (log s').

(** [s'] is [s] after some more events; the [FolderWatcher] object may have
    changed. *)
Definition grows (s s' : state) : Prop :=
  log s' = log s ++ events_since s s'.

(** A computation that adds events of a kind to the trace and leaves the
    [FolderWatcher] object alone. *)
Definition emits {A} (P : event -> Prop) (m : M A) : Prop :=
  forall s, self (m s).2 = self s /\ grows s (m s).2
            /\ Forall P (events_since s (m s).2).

(** The server lets the session be established: [connect], [login] and
    [TYPE I] are accepted, one after the other. *)
Definition established (cfg : ftp_config) (srv : Server) : bool :=
  match respond srv (CONNECT (host cfg) (port cfg)) with
  | (Done, srv1) =>
      match respond srv1 (LOGIN (username cfg) (password cfg)) with
      | (Done, srv2) =>
          match respond srv2 TYPE_I with
          | (Done, _) => true
          | _ => false
          end
      | _ => false
      end
  | _ => false
  end.

(** What each call of [upload_file] returned, for the files in order, from
    the state [s] on; and the state after the last. *)
Fixpoint upload_outcomes (fs : localfs) (cfg : ftp_config)
    (files : list string) (s : state) : list (string * bool) * state :=
  match files with
  | [] => ([], s)
  | file :: rest =>
      match upload_file fs cfg file file s with
      | (Val ok, s') =>
          let '(out, s'') := upload_outcomes fs cfg rest s' in
          ((file, ok) :: out, s'')
      | (Raise _, s') => ([], s')
      end
  end.

(** The files that failed, and how many succeeded. *)
Definition failures (out : list (string * bool)) : list string :=
  (List.filter (fun o => negb o.2) out).*1.

Definition successes (out : list (string * bool)) : nat :=
  length (List.filter (fun o => o.2) out).

(** The messages of [report]. *)
Definition report_messages (total success : nat) (failed_files : list string)
  : list event :=
  if (success =? total)%nat then [Say (AllUploaded total)]
  else Say (UploadedOf success total)
         :: match failed_files with
            | [] => []
            | _ :: _ => [Say (FilesFailed (length failed_files))]
            end.

(** The [finally] clause after a [try] that ended with the value [res]. *)
Definition quit_after {A} (res : A) (s : state) : result A * state :=
  match send QUIT s with
  | (Val _, s') => (Val res, s')
  | (Raise e, s') => (Raise e, s')
  end.

(** The state after the statements that follow the loop. *)
Definition concluded (fs : localfs) (total success : nat)
    (failed_files : list string) (s : state) : state :=
  {| self := if (0 <? success)%nat then (scan_folder fs true (self s)).1
             else self s;
     server := server s;
     log := log s ++ report_messages total success failed_files
                  ++ (if (0 <? success)%nat then [Say UpdatingDatabase] else []) |}.

(** The run of [sync_changes] from the connection on, given the changes the
    first scan found. *)
Definition sync_session (fs : localfs) (cfg : ftp_config) (changes : scan_vars)
    (s1 : state) : result (option (nat * list string)) * state :=
  let total := (length (changes_new changes) + length (changes_modified changes))%nat in
  match connect_ftp cfg s1 with
  | (Val true, s2) =>
      match enter_base cfg s2 with
      | (Val _, s3) =>
          match upload_loop fs cfg (all_files changes) 0 [] s3 with
          | (Val (success, failed_files), s4) =>
              quit_after (Some (success, failed_files))
                (concluded fs total success failed_files s4)
          | (Raise _, s4) => quit_after None (record (Say SyncError) s4)
          end
      | (Raise _, s3) => quit_after None (record (Say SyncError) s3)
      end
  | (Val false, s2) => (Val None, s2)
  | (Raise e, s2) => (Raise e, s2)
  end.

(** The state before a run: a [FolderWatcher] object, a server, no trace. *)
Definition start (w : watcher) (srv : Server) : state :=
  {| self := w; server := srv; log := [] |}.

(** The changes the first scan of a run finds, the changed paths in the
    order of [all_files], and their number [total]. *)
Definition found (fs : localfs) (s : state) : scan_vars :=
  (scan_folder fs false (self s)).2.

Definition changed (v : scan_vars) : list string :=
  changes_new v ++ changes_modified v.

Definition total_of (v : scan_vars) : nat :=
  (length (changes_new v) + length (changes_modified v))%nat.

(** The state when [connect_ftp] is called, when it has returned, and when
    the block that enters the remote directory is left. *)
Definition announced (fs : localfs) (s : state) : state :=
  record (Say (FoundChanges (total_of (found fs s)))) s.

Definition connected (fs : localfs) (cfg : ftp_config) (s : state) : state :=
  (connect_ftp cfg (announced fs s)).2.

Definition entered (fs : localfs) (cfg : ftp_config) (s : state) : state :=
  (enter_base cfg (connected fs cfg s)).2.

(** The run gets to the upload loop: there are changes, the user answers
    [y], the session is established and the remote directory entered. *)
Definition reaches_uploads (fs : localfs) (cfg : ftp_config)
    (confirm : string) (s : state) : Prop :=
  changed (found fs s) <> []
  /\ Py.lower confirm = "y"
  /\ established cfg (server s) = true
  /\ (enter_base cfg (connected fs cfg s)).1 = Val tt.

(** What the calls of [upload_file] in the loop of a run returned. *)
Definition outcomes (fs : localfs) (cfg : ftp_config) (s : state)
  : list (string * bool) :=
  (upload_outcomes fs cfg (changed (found fs s)) (entered fs cfg s)).1.

(** The changed paths in the order in which the walk visits them. *)
Definition walk_order (fs : localfs) (v : scan_vars) : list string :=
  List.filter (fun p => bool_decide (p ∈ changed v)) (visited fs).*1.

End TraceNotions.

(** ** Closed examples *)

Module Ex.
#[local] Existing Instance plain_runtime.

Definition hello : file := regular (text "hello") 5%N.
Definition notes : file := regular (text "bb") 7%N.
Definition unreadable : file := {| f_stat := None; f_data := None |}.

(** A folder on a system whose separator is the backslash. *)
Definition windows_folder : localfs :=
  {| fs_sep := "\";
     fs_root := [Dir "sub" (Some 0%N) [File "a.txt" hello]] |}.

(** A folder on a system whose separator is the slash. *)
Definition posix_folder : localfs :=
  {| fs_sep := "/";
     fs_root :=
       [File "a.txt" hello;
        Dir "sub" (Some 4096%N) [File "b.txt" notes; File "x.pyc" notes];
        Dir ".git" (Some 4096%N) [File "config" notes];
        File "z" unreadable] |}.

(** A folder with two files, listed in this order. *)
Definition two_files : localfs :=
  {| fs_sep := "/";
     fs_root := [File "a.txt" hello; File "b.txt" notes] |}.

(** A watcher that has recorded nothing. *)
Definition fresh : watcher := {| file_hashes := ∅; config_file_hashes := ∅ |}.

(** A watcher that knows [a.txt] with another fingerprint. *)
Definition stale : watcher :=
  {| file_hashes := {[ "a.txt" := "old" ]};
     config_file_hashes := {[ "a.txt" := "old" ]} |}.

(** A MiB of zero bytes, and a file of 2 MiB + 1 bytes that has the byte
    [mid] between two such blocks. *)
Definition block : list Byte.byte := repeat Byte.x00 (N.to_nat (1024 * 1024)).

Definition large (mid : Byte.byte) : file :=
  {| f_stat := Some {| st_size := 2 * (1024 * 1024) + 1; st_mtime := 9%N |};
     f_data := Some (block ++ mid :: block) |}.

Definition site : ftp_config :=
  {| host := "ftp.example.org"; port := 21; username := "u"; password := "p";
     remote_path := "/www" |}.

(** The start of a run against a server that refuses the connection. *)
Definition offline (w : watcher) : state (FTP := refusing is_connect) :=
  start (FTP := refusing is_connect) w tt.

(** The start of a run against a server that accepts every command. *)
Definition online (w : watcher) : state (FTP := accepting) :=
  start (FTP := accepting) w tt.

(** The start of a run against a server that accepts every command but the
    [STOR] of the [names]. *)
Definition flaky (names : list string) (w : watcher)
  : state (FTP := refusing (stor_of names)) :=
  start (FTP := refusing (stor_of names)) w tt.

End Ex.

(** ** Further notions and examples *)

Section PathNotions.
Context `{RT : Runtime}.

(** The content of the directory reached from [es] by the directory names
    [ds], one after the other. *)
Fixpoint descend (es : list entry) (ds : list string) : option (list entry) :=
  match ds with
  | [] => Some es
  | d :: rest =>
      match List.find (fun e => String.eqb (entry_name e) d) es with
      | Some (Dir _ _ ch) => descend ch rest
      | _ => None
      end
  end.

(** The walk yields the file [f] under the name [name] in the directory
    that the names [root] lead to from the watched folder. *)
Definition scanned (fs : localfs) (root : list string) (name : string)
    (f : file) : Prop :=
  exists files,
    (root, files) ∈ walk (should_ignore (os_getsize fs)) [] (fs_root fs)
    /\ (name, f) ∈ files.

(** The file itself is above the size limit. *)
Definition oversized (f : file) : Prop :=
  exists st, f_stat f = Some st /\ (MAX_SIZE < st_size st)%N.

End PathNotions.

(** A rule and a segment as the specification's sentence on the ignore
    rules reads: any rule matches the segments that contain it, and a rule
    [*suffix] also those that end with [suffix]. *)
Inductive claimed_match : string -> string -> Prop :=
| claimed_substring (rule a b : string) :
    claimed_match rule (a ++ rule ++ b)%string
| claimed_suffix (suffix a : string) :
    claimed_match (String "*" suffix) (a ++ suffix)%string.

Definition is_sent (e : event) : bool :=
  match e with Sent _ _ => true | _ => false end.

(** [test_connection()], and what the statements on the FTP session speak
    of. *)
Section SessionNotions.
Context `{RT : Runtime} `{FTP : FtpServer}.

(** The commands of a trace were sent to the server, one after the other
    from the state [srv] on, and each reply in the trace is the server's:
    [answered srv tr srv'], with [srv'] the state of the server after the
    last of them. *)
Inductive answered : Server -> list event -> Server -> Prop :=
| answered_end srv : answered srv [] srv
| answered_sent srv c tr srv' :
    answered (respond srv c).2 tr srv' ->
    answered srv (Sent c (respond srv c).1 :: tr) srv'
| answered_other srv e tr srv' :
    is_sent e = false ->
    answered srv tr srv' ->
    answered srv (e :: tr) srv'.

(** A computation whose trace is answered by the server. *)
Definition honest {A} (m : M A) : Prop :=
  forall s, exists tr,
    log (m s).2 = log s ++ tr /\ answered (server s) tr (server (m s).2).

(** [test_connection()]: a connection of its own, closed at once. *)
Definition test_connection (cfg : ftp_config) : M bool :=
  try_except
    (send (CONNECT (host cfg) (port cfg)) ;;
     send (LOGIN (username cfg) (password cfg)) ;;
     send QUIT ;;
     ret true)
    (fun _ => ret false).

(** The server accepts [connect], [login] and [quit], one after the
    other. *)
Definition reachable (cfg : ftp_config) (srv : Server) : bool :=
  match respond srv (CONNECT (host cfg) (port cfg)) with
  | (Done, srv1) =>
      match respond srv1 (LOGIN (username cfg) (password cfg)) with
      | (Done, srv2) =>
          match respond srv2 QUIT with
          | (Done, _) => true
          | _ => false
          end
      | _ => false
      end
  | _ => false
  end.

(** The first failure among the replies to [connect], [login] and
    [TYPE I]. *)
Definition handshake_failure (cfg : ftp_config) (srv : Server) : option exn :=
  match respond srv (CONNECT (host cfg) (port cfg)) with
  | (Failed e, _) => Some e
  | (Done, srv1) =>
      match respond srv1 (LOGIN (username cfg) (password cfg)) with
      | (Failed e, _) => Some e
      | (Done, srv2) =>
          match respond srv2 TYPE_I with
          | (Failed e, _) => Some e
          | (Done, _) => None
          end
      end
  end.

(** A property of the server's state that makes it accept every command
    and that every command keeps. *)
Definition obliging (good : Server -> Prop) : Prop :=
  forall srv c, good srv ->
    (respond srv c).1 = Done /\ good (respond srv c).2.

(** On a server in such a state the computation returns [a] after the
    events [tr], and leaves the server in such a state. *)
Definition smooth {A} (good : Server -> Prop) (m : M A) (a : A)
    (tr : list event) : Prop :=
  forall s, good (server s) ->
    (m s).1 = Val a /\ good (server (m s).2) /\ log (m s).2 = log s ++ tr.

(** A command that the server accepted. *)
Definition accepted (c : cmd) : event := Sent c Done.

End SessionNotions.

(** The message of [connect_ftp] for an exception. *)
Definition failure_message (e : exn) : message :=
  match e with
  | error_perm => FtpPermissionError
  | other_error => FtpConnectionError
  end.

(** The messages of a trace. *)
Definition messages (tr : list event) : list message :=
  omap (fun e => match e with Say m => Some m | _ => None end) tr.

(** A command of [test_connection]. *)
Definition probing (e : event) : bool :=
  match e with
  | Sent (CONNECT _ _) _ | Sent (LOGIN _ _) _ | Sent QUIT _ => true
  | _ => false
  end.

Definition is_quit (e : event) : bool :=
  match e with Sent QUIT _ => true | _ => false end.


(** What a [STOR] sent for the local file at [file] carries: the content
    of that file, under the remote path or its bare name. *)
Definition carries `{RT : Runtime} (fs : localfs) (file : string) (e : event)
  : Prop :=
  match e with
  | Sent (STOR name data) _ =>
      os_open fs file = Some data
      /\ (name = Py.replace_backslash file
          \/ name = bare_name (Py.replace_backslash file))
  | _ => True
  end.

Module Ex2.
#[local] Existing Instance plain_runtime.

(** A file that [stat] reports as larger than 100 MiB. *)
Definition huge : file :=
  {| f_stat := Some {| st_size := 200 * 1024 * 1024; st_mtime := 3%N |};
     f_data := Some (text "x") |}.

(** A folder with a large file [data] at the top and a directory of the
    same name further down. *)
Definition shadowed : localfs :=
  {| fs_sep := "/";
     fs_root :=
       [File "data" huge;
        Dir "src" (Some 4096%N)
          [Dir "data" (Some 4096%N) [File "x.txt" Ex.notes];
           File "main.py" Ex.hello]] |}.

(** A folder with a large file next to a small one. *)
Definition with_huge : localfs :=
  {| fs_sep := "/";
     fs_root := [File "a.txt" Ex.hello; File "movie.bin" huge] |}.

(** [CWD d] *)
Definition is_cwd_to (d : string) (c : cmd) : bool :=
  match c with CWD x => String.eqb x d | _ => false end.

(** A server that answers [530] to [LOGIN]. *)
Definition denying_login : FtpServer :=
  {| Server := unit;
     respond := fun _ c =>
       (match c with LOGIN _ _ => Failed error_perm | _ => Done end, tt) |}.

(** The start of a run against a server without the directory [/www]. *)
Definition no_base (w : watcher) : state (FTP := refusing (is_cwd_to "/www")) :=
  start (FTP := refusing (is_cwd_to "/www")) w tt.

(** The start of a run against a server that refuses [MKD]. *)
Definition read_only (w : watcher)
  : state (FTP := refusing (fun c => match c with
                                     | MKD _ | CWD "sub" => true
                                     | _ => false
                                     end)) :=
  start (FTP := refusing (fun c => match c with
                                   | MKD _ | CWD "sub" => true
                                   | _ => false
                                   end)) w tt.

End Ex2.

(** * Properties *)

(** ** Strings *)

Lemma append_String (c : ascii) (a b : string) :
  (String c a ++ b)%string = String c (a ++ b)%string.
Proof. reflexivity. Qed.

Lemma append_Empty (b : string) : (EmptyString ++ b)%string = b.
Proof. reflexivity. Qed.

Create Rewrite HintDb pystr.
#[local] Hint Rewrite append_String append_Empty : pystr.

Ltac str_simpl := autorewrite with pystr in *.

Lemma prefix_app (p s : string) :
  String.prefix p s = true <-> exists b, s = (p ++ b)%string.
Proof.
  revert s. induction p as [|a p IH]; intros s; simpl.
  - split; [eauto | by destruct s].
  - destruct s as [|c s]; simpl.
    + split; [done | by intros [b Hb]].
    + destruct (ascii_dec a c) as [->|Hne].
      * rewrite IH. split; intros [b Hb]; exists b; str_simpl; congruence.
      * split; [done | intros [b Hb]; str_simpl; congruence].
Qed.

Lemma contains_app (s p : string) :
  Py.contains s p = true <-> exists a b, s = (a ++ p ++ b)%string.
Proof.
  induction s as [|c s IH].
  - change (Py.contains EmptyString p) with (String.prefix p EmptyString || false).
    rewrite orb_false_r, prefix_app. split.
    + intros [b Hb]. by exists EmptyString, b.
    + intros [a [b Hb]]. destruct a; [by exists b | done].
  - change (Py.contains (String c s) p)
      with (String.prefix p (String c s) || Py.contains s p).
    rewrite orb_true_iff, prefix_app, IH. split.
    + intros [[b Hb] | [a [b Hb]]].
      * by exists EmptyString, b.
      * exists (String c a), b. str_simpl. by rewrite Hb.
    + intros [a [b Hb]]. destruct a as [|c' a]; str_simpl.
      * left. by exists b.
      * right. exists a, b. congruence.
Qed.

Lemma endswith_app (s p : string) :
  Py.endswith s p = true <-> exists a, s = (a ++ p)%string.
Proof.
  induction s as [|c s IH].
  - change (Py.endswith EmptyString p) with (String.eqb EmptyString p || false).
    rewrite orb_false_r, String.eqb_eq. split.
    + intros <-. by exists EmptyString.
    + intros [a Ha]. destruct a; [done | done].
  - change (Py.endswith (String c s) p)
      with (String.eqb (String c s) p || Py.endswith s p).
    rewrite orb_true_iff, String.eqb_eq, IH. split.
    + intros [<- | [a Ha]].
      * by exists EmptyString.
      * exists (String c a). str_simpl. by rewrite Ha.
    + intros [a Ha]. destruct a as [|c' a]; str_simpl.
      * by left.
      * right. exists a. congruence.
Qed.

Lemma startswith_star (pattern : string) :
  Py.startswith pattern "*" = true <-> exists suffix, pattern = String "*" suffix.
Proof.
  unfold Py.startswith. rewrite prefix_app. simpl. done.
Qed.

Lemma startswith_star_cons (suffix : string) :
  Py.startswith (String "*" suffix) "*" = true.
Proof. apply startswith_star. by exists suffix. Qed.

Lemma pattern_hits_matches (pattern part : string) :
  pattern_hits pattern part = true <-> rule_matches pattern part.
Proof.
  unfold pattern_hits. destruct (Py.startswith pattern "*") eqn:Hstar.
  - apply startswith_star in Hstar as [suffix ->]. simpl.
    rewrite endswith_app. split.
    + intros [a ->]. constructor.
    + inversion 1 as [? a|? a b Hno]; subst; [by exists a |].
      by rewrite startswith_star_cons in Hno.
  - rewrite contains_app. split.
    + intros [a [b ->]]. by constructor.
    + inversion 1 as [suffix a|? a b Hno]; subst; [| by exists a, b].
      by rewrite startswith_star_cons in Hstar.
Qed.

Lemma patterns_hit_matches (patterns parts : list string) :
  patterns_hit patterns parts = true <->
  exists pattern part,
    pattern ∈ patterns /\ part ∈ parts /\ rule_matches pattern part.
Proof.
  unfold patterns_hit. rewrite existsb_exists. split.
  - intros [pattern [Hin Hex]]. apply existsb_exists in Hex as [part [Hin' Hhit]].
    exists pattern, part. rewrite !list_elem_of_In.
    by rewrite <- pattern_hits_matches.
  - intros [pattern [part [Hin [Hin' Hm]]]]. exists pattern.
    rewrite <- list_elem_of_In. split; [done|].
    apply existsb_exists. exists part.
    by rewrite <- list_elem_of_In, pattern_hits_matches.
Qed.

(** ** The scan *)

Section ScanFacts.
Context `{RT : Runtime}.
Implicit Types (fs : localfs) (prior : gmap string string) (v : scan_vars).
Implicit Types (l : list (string * file)) (p : string) (f : file).

Lemma scan_file_new fs prior v p f :
  changes_new (scan_file fs prior v p f)
  = changes_new v ++ (if found_new fs prior (p, f) then [p] else []).
Proof.
  unfold scan_file, found_new, recorded. simpl.
  destruct (should_ignore _ p); simpl; [by rewrite app_nil_r|].
  destruct (get_file_hash f) as [h|]; simpl; [|by rewrite app_nil_r].
  destruct (prior !! p) as [old|]; simpl; [|done].
  destruct (String.eqb old h); simpl; by rewrite app_nil_r.
Qed.

Lemma scan_file_modified fs prior v p f :
  changes_modified (scan_file fs prior v p f)
  = changes_modified v ++ (if found_modified fs prior (p, f) then [p] else []).
Proof.
  unfold scan_file, found_modified, recorded. simpl.
  destruct (should_ignore _ p); simpl; [by rewrite app_nil_r|].
  destruct (get_file_hash f) as [h|]; simpl; [|by rewrite app_nil_r].
  destruct (prior !! p) as [old|]; simpl; [|by rewrite app_nil_r].
  destruct (String.eqb old h); simpl; [by rewrite app_nil_r | done].
Qed.

Lemma scan_file_current fs prior v p f :
  current_files (scan_file fs prior v p f)
  = record_into fs (current_files v) (p, f).
Proof.
  unfold scan_file, record_into, recorded. simpl.
  destruct (should_ignore _ p); simpl; [done|].
  destruct (get_file_hash f) as [h|]; simpl; [|done].
  destruct (prior !! p) as [old|]; simpl; [|done].
  by destruct (String.eqb old h).
Qed.

Lemma filter_cons_if {A} (g : A -> bool) (x : A) (l : list A) :
  List.filter g (x :: l) = (if g x then [x] else []) ++ List.filter g l.
Proof. simpl. by destruct (g x). Qed.

Lemma scan_loop_new fs prior l v :
  changes_new (scan_loop fs prior l v)
  = changes_new v ++ (List.filter (found_new fs prior) l).*1.
Proof.
  revert v. induction l as [|[p f] l IH]; intros v.
  - simpl. by rewrite app_nil_r.
  - unfold scan_loop in *. simpl fold_left. rewrite IH, scan_file_new.
    rewrite filter_cons_if, fmap_app, <- app_assoc. f_equal. f_equal.
    by destruct (found_new fs prior (p, f)).
Qed.

Lemma scan_loop_modified fs prior l v :
  changes_modified (scan_loop fs prior l v)
  = changes_modified v ++ (List.filter (found_modified fs prior) l).*1.
Proof.
  revert v. induction l as [|[p f] l IH]; intros v.
  - simpl. by rewrite app_nil_r.
  - unfold scan_loop in *. simpl fold_left. rewrite IH, scan_file_modified.
    rewrite filter_cons_if, fmap_app, <- app_assoc. f_equal. f_equal.
    by destruct (found_modified fs prior (p, f)).
Qed.

Lemma scan_loop_current fs prior l v :
  current_files (scan_loop fs prior l v)
  = fold_left (record_into fs) l (current_files v).
Proof.
  revert v. induction l as [|[p f] l IH]; intros v; [done|].
  unfold scan_loop in *. simpl fold_left. by rewrite IH, scan_file_current.
Qed.

(** A key of the map built from the visited files comes from one of them,
    or was there before. *)
Lemma record_into_lookup_Some fs l (m : gmap string string) p h :
  fold_left (record_into fs) l m !! p = Some h ->
  (exists f, (p, f) ∈ l /\ recorded fs (p, f) = Some h) \/ m !! p = Some h.
Proof.
  revert m. induction l as [|[q f] l IH]; intros m; simpl; [by right|].
  intros H. apply IH in H as [[f' [Hin Hrec]] | H].
  - left. exists f'. split; [by right | done].
  - unfold record_into in H. destruct (recorded fs (q, f)) as [h'|] eqn:Hrec.
    + simpl in H. destruct (decide (q = p)) as [->|Hne].
      * rewrite lookup_insert_eq in H. left. exists f. split; [by left | congruence].
      * rewrite lookup_insert_ne in H by done. by right.
    + by right.
Qed.

Lemma record_into_lookup_other fs l (m : gmap string string) p :
  p ∉ l.*1 -> fold_left (record_into fs) l m !! p = m !! p.
Proof.
  revert m. induction l as [|[q f] l IH]; intros m Hnot; [done|].
  simpl in *. apply not_elem_of_cons in Hnot as [Hne Hnot].
  rewrite IH by done. unfold record_into.
  destruct (recorded fs (q, f)); [|done]. simpl. by rewrite lookup_insert_ne.
Qed.

(** With distinct paths, the entry of a visited file is its own
    fingerprint. *)
Lemma record_into_lookup_visited fs l (m : gmap string string) p f :
  NoDup l.*1 -> (p, f) ∈ l ->
  fold_left (record_into fs) l m !! p
  = match recorded fs (p, f) with Some h => Some h | None => m !! p end.
Proof.
  revert m. induction l as [|[q g] l IH]; intros m Hnd Hin.
  - by apply elem_of_nil in Hin.
  - simpl in *. apply NoDup_cons in Hnd as [Hq Hnd].
    apply elem_of_cons in Hin as [Heq | Hin].
    + inversion Heq; subst q g. rewrite record_into_lookup_other by done.
      unfold record_into. destruct (recorded fs (p, f)); [|done].
      simpl. by rewrite lookup_insert_eq.
    + rewrite IH by done. destruct (recorded fs (p, f)); [done|].
      assert (q <> p) as Hne.
      { intros ->. apply Hq. apply list_elem_of_fmap. by exists (p, f). }
      unfold record_into. destruct (recorded fs (q, g)); [|done].
      simpl. by rewrite lookup_insert_ne.
Qed.

Lemma scan_folder_vars fs save (w : watcher) :
  (scan_folder fs save w).2
  = scan_loop fs (file_hashes w) (visited fs) scan_init.
Proof. unfold scan_folder. by destruct save. Qed.

Lemma elem_of_filter_fst (g : string * file -> bool) l p :
  p ∈ (List.filter g l).*1 <-> exists f, (p, f) ∈ l /\ g (p, f) = true.
Proof.
  rewrite list_elem_of_fmap. split.
  - intros [[q f] [-> Hin]]. apply list_elem_of_In, filter_In in Hin as [Hin Hg].
    exists f. by rewrite list_elem_of_In.
  - intros [f [Hin Hg]]. exists (p, f). split; [done|].
    apply list_elem_of_In, filter_In. by rewrite <- list_elem_of_In.
Qed.

Lemma scan_new_elem fs save (w : watcher) p :
  p ∈ changes_new (scan_folder fs save w).2 <->
  exists f, (p, f) ∈ visited fs /\ found_new fs (file_hashes w) (p, f) = true.
Proof.
  rewrite scan_folder_vars, scan_loop_new. simpl. apply elem_of_filter_fst.
Qed.

Lemma scan_modified_elem fs save (w : watcher) p :
  p ∈ changes_modified (scan_folder fs save w).2 <->
  exists f, (p, f) ∈ visited fs /\ found_modified fs (file_hashes w) (p, f) = true.
Proof.
  rewrite scan_folder_vars, scan_loop_modified. simpl. apply elem_of_filter_fst.
Qed.

Lemma scan_current_Some fs save (w : watcher) p h :
  current_files (scan_folder fs save w).2 !! p = Some h ->
  exists f, (p, f) ∈ visited fs /\ recorded fs (p, f) = Some h.
Proof.
  rewrite scan_folder_vars, scan_loop_current. simpl.
  intros H. apply record_into_lookup_Some in H as [H | H]; [done|].
  by rewrite lookup_empty in H.
Qed.

Lemma scan_current_visited fs save (w : watcher) p f :
  distinct_paths fs -> (p, f) ∈ visited fs ->
  current_files (scan_folder fs save w).2 !! p = recorded fs (p, f).
Proof.
  intros Hnd Hin. rewrite scan_folder_vars, scan_loop_current. simpl.
  rewrite (record_into_lookup_visited fs _ _ p f) by done.
  destruct (recorded fs (p, f)); [done | apply lookup_empty].
Qed.

Lemma recorded_not_ignored fs p f h :
  recorded fs (p, f) = Some h ->
  should_ignore (os_getsize fs) p = false /\ get_file_hash f = Some h.
Proof.
  unfold recorded. simpl. by destruct (should_ignore _ p).
Qed.

Lemma found_new_recorded fs prior p f :
  found_new fs prior (p, f) = true <->
  (exists h, recorded fs (p, f) = Some h) /\ prior !! p = None.
Proof.
  unfold found_new. simpl. destruct (recorded fs (p, f)) as [h|].
  - destruct (prior !! p); split; try done; [by intros [_ ?] | by eauto].
  - split; [done | by intros [[h ?] _]].
Qed.

Lemma found_modified_recorded fs prior p f :
  found_modified fs prior (p, f) = true <->
  exists h old, recorded fs (p, f) = Some h /\ prior !! p = Some old /\ old <> h.
Proof.
  unfold found_modified. simpl. destruct (recorded fs (p, f)) as [h|].
  - destruct (prior !! p) as [old|].
    + rewrite negb_true_iff, String.eqb_neq. split.
      * intros Hne. by exists h, old.
      * intros [h' [old' [? [? ?]]]]. congruence.
    + split; [done | by intros [h' [old' [? [? ?]]]]].
  - split; [done | by intros [h' [old' [? [? ?]]]]].
Qed.

End ScanFacts.

(** ** Paths *)

Lemma replace_backslash_app (a b : string) :
  Py.replace_backslash (a ++ b)
  = (Py.replace_backslash a ++ Py.replace_backslash b)%string.
Proof.
  induction a as [|c a IH]; str_simpl; [done|].
  simpl. str_simpl. by rewrite IH.
Qed.

Lemma replace_backslash_String (c : ascii) (s : string) :
  Py.replace_backslash (String c s)
  = String (if Ascii.eqb c "\"%char then "/"%char else c) (Py.replace_backslash s).
Proof. reflexivity. Qed.

Lemma join_cons_cons (c : ascii) (a b : string) (l : list string) :
  Py.join c (a :: b :: l) = (a ++ String c (Py.join c (b :: l)))%string.
Proof. reflexivity. Qed.

Lemma replace_backslash_join (sep : ascii) (l : list string) :
  sep = "/"%char \/ sep = "\"%char ->
  Py.replace_backslash (Py.join sep l) = Py.join "/" (Py.replace_backslash <$> l).
Proof.
  intros Hsep. induction l as [|a l IH]; [done|].
  destruct l as [|b l]; [done|].
  rewrite join_cons_cons, replace_backslash_app, replace_backslash_String, IH.
  rewrite !fmap_cons, join_cons_cons. by destruct Hsep as [-> | ->].
Qed.

Lemma split_not_nil (c : ascii) (s : string) : Py.split c s <> [].
Proof.
  destruct s as [|x s]; simpl; [done|].
  destruct (Ascii.eqb x c); [done|]. by destruct (Py.split c s).
Qed.

Lemma split_app_sep (c : ascii) (a b : string) :
  Py.split c (a ++ String c b) = Py.split c a ++ Py.split c b.
Proof.
  induction a as [|x a IH]; str_simpl.
  - simpl. by rewrite Ascii.eqb_refl.
  - simpl. rewrite IH. destruct (Ascii.eqb x c); [done|].
    pose proof (split_not_nil c a). by destruct (Py.split c a).
Qed.

Lemma split_join (c : ascii) (l : list string) :
  l <> [] -> Py.split c (Py.join c l) = l ≫= Py.split c.
Proof.
  induction l as [|a l IH]; [done|]. intros _.
  destruct l as [|b l].
  - simpl. by rewrite app_nil_r.
  - rewrite join_cons_cons, split_app_sep, IH by done.
    by rewrite (bind_cons _ a).
Qed.

(** The segments of a relative path are those of the names on it. *)
Lemma path_parts_relpath (sep : ascii) (root : list string) (name : string) :
  sep = "/"%char \/ sep = "\"%char ->
  path_parts (relpath sep root name) = (root ++ [name]) ≫= path_parts.
Proof.
  intros Hsep. unfold path_parts, relpath.
  rewrite replace_backslash_join by done.
  rewrite split_join by (by destruct root).
  induction (root ++ [name]) as [|a l IH]; [done|].
  rewrite fmap_cons, !bind_cons. by rewrite IH.
Qed.

(** ** The walk *)

Section WalkFacts.
Context `{RT : Runtime}.

Lemma files_of_elem (es : list entry) (n : string) (f : file) :
  (n, f) ∈ files_of es <-> File n f ∈ es.
Proof.
  unfold files_of. rewrite list_elem_of_omap. split.
  - intros [e [Hin He]]. destruct e; by simplify_eq.
  - intros Hin. by exists (File n f).
Qed.

(** What [os.walk] yields below an entry: the directories on the way are not
    pruned, and every name comes from the tree. *)
Lemma walk_entry_inv (prune : string -> bool) (e : entry) :
  forall root r files,
    (r, files) ∈ walk_entry prune root e ->
    exists ds, r = root ++ ds
      /\ Forall (fun d => prune d = false /\ d ∈ entry_names e) ds
      /\ Forall (fun nf => nf.1 ∈ entry_names e) files.
Proof.
  induction e as [n f | n sz ch IH] using entry_tree_ind; intros root r files Hin.
  - by apply elem_of_nil in Hin.
  - simpl in Hin. destruct (prune n) eqn:Hn; [by apply elem_of_nil in Hin|].
    apply elem_of_cons in Hin as [Heq | Hin].
    + inversion Heq; subst r files. exists [n]. split; [done|]. split.
      * constructor; [|done]. split; [done | by left].
      * apply Forall_forall. intros [m g] Hm. apply files_of_elem in Hm.
        simpl. right. apply list_elem_of_bind. exists (File m g).
        split; [by left | done].
    + apply list_elem_of_bind in Hin as [e [Hin He]].
      rewrite Forall_forall in IH.
      destruct (IH e He _ _ _ Hin) as [ds [-> [Hds Hfiles]]].
      exists (n :: ds). split; [by rewrite <- app_assoc|]. split.
      * constructor; [split; [done | by left]|].
        eapply Forall_impl; [exact Hds|]. intros d [? Hd]. split; [done|].
        simpl. right. apply list_elem_of_bind. by exists e.
      * eapply Forall_impl; [exact Hfiles|]. intros nf Hnf.
        simpl. right. apply list_elem_of_bind. by exists e.
Qed.

Lemma walk_inv (prune : string -> bool) (es : list entry) root r files :
  (r, files) ∈ walk prune root es ->
  exists ds, r = root ++ ds
    /\ Forall (fun d => prune d = false /\ d ∈ es ≫= entry_names) ds
    /\ Forall (fun nf => nf.1 ∈ es ≫= entry_names) files.
Proof.
  unfold walk. intros Hin. apply elem_of_cons in Hin as [Heq | Hin].
  - inversion Heq; subst r files. exists []. split; [by rewrite app_nil_r|].
    split; [done|]. apply Forall_forall. intros [m g] Hm.
    apply files_of_elem in Hm. simpl. apply list_elem_of_bind.
    exists (File m g). split; [by left | done].
  - apply list_elem_of_bind in Hin as [e [Hin He]].
    destruct (walk_entry_inv _ _ _ _ _ Hin) as [ds [-> [Hds Hfiles]]].
    exists ds. split; [done|]. split.
    + eapply Forall_impl; [exact Hds|]. intros d [? Hd]. split; [done|].
      apply list_elem_of_bind. by exists e.
    + eapply Forall_impl; [exact Hfiles|]. intros nf Hnf.
      apply list_elem_of_bind. by exists e.
Qed.

(** A visited file lies below directories that were not pruned. *)
Lemma visited_inv (fs : localfs) (p : string) (f : file) :
  (p, f) ∈ visited fs ->
  exists root name,
    p = relpath (fs_sep fs) root name
    /\ Forall (fun d => should_ignore (os_getsize fs) d = false
                        /\ d ∈ fs_names fs) root
    /\ name ∈ fs_names fs.
Proof.
  unfold visited. intros Hin.
  apply list_elem_of_bind in Hin as [[root files] [Hin Hw]].
  apply list_elem_of_bind in Hin as [[name g] [Hin Hfile]].
  apply list_elem_of_singleton in Hin. inversion Hin; subst p g.
  apply walk_inv in Hw as [ds [Hroot [Hds Hfiles]]]. simpl in Hroot. subst ds.
  exists root, name. split; [done|]. split; [done|].
  rewrite Forall_forall in Hfiles. by apply (Hfiles (name, f)).
Qed.

End WalkFacts.

(** ** Ignored paths *)

Section Ignore.
Context `{RT : Runtime}.

Lemma should_ignore_true (getsize : string -> option N) (p : string) :
  should_ignore getsize p = true <->
  patterns_hit ignore_patterns (path_parts p) = true
  \/ exists size, getsize p = Some size /\ (MAX_SIZE < size)%N.
Proof.
  unfold should_ignore. fold (path_parts p).
  destruct (patterns_hit ignore_patterns (path_parts p)); [by split; auto|].
  destruct (getsize p) as [size|].
  - destruct (MAX_SIZE <? size)%N eqn:Hlt.
    + apply N.ltb_lt in Hlt. split; [|done]. intros _. right. by exists size.
    + apply N.ltb_ge in Hlt. split; [done|].
      intros [? | [size' [? ?]]]; [done|]. simplify_eq. lia.
  - split; [done|]. by intros [? | [size' [? ?]]].
Qed.

(** A path below a directory whose name a rule matches is itself ignored. *)
Lemma should_ignore_below (getsize : string -> option N) (sep : ascii)
    (root : list string) (name d : string) :
  sep = "/"%char \/ sep = "\"%char ->
  d ∈ root ->
  patterns_hit ignore_patterns (path_parts d) = true ->
  should_ignore getsize (relpath sep root name) = true.
Proof.
  intros Hsep Hd Hhit. apply should_ignore_true. left.
  apply patterns_hit_matches in Hhit as [pattern [part [Hpat [Hpart Hm]]]].
  apply patterns_hit_matches. exists pattern, part. split; [done|].
  split; [|done]. rewrite path_parts_relpath by done.
  apply list_elem_of_bind. exists d. split; [done|].
  apply elem_of_app. by left.
Qed.

(** C6, amended.  [should_ignore] returns [True] exactly when a rule
    matches a segment of the path (a rule that starts with [*] the segments
    that end with what follows the [*], and only those; any other rule the
    segments that contain it) or the size of the file is above 100 MiB.
    A path for which it returns [True] is no key of [current_files] and is in neither list of the change set; [os.walk]
    yields no directory below a directory for whose name it returns [True];
    and every path below a directory whose name a rule matches is a path
    for which it returns [True]. *)
Theorem should_ignore_excludes :
  (forall (getsize : string -> option N) (p : string),
     should_ignore getsize p = true <->
     (exists pattern part,
        pattern ∈ ignore_patterns /\ part ∈ path_parts p
        /\ rule_matches pattern part)
     \/ (exists size, getsize p = Some size /\ (100 * 1024 * 1024 < size)%N))
  /\ (forall (fs : localfs) (save : bool) (w : watcher) (p : string),
        should_ignore (os_getsize fs) p = true ->
        current_files (scan_folder fs save w).2 !! p = None
        /\ (p ∉ changes_new (scan_folder fs save w).2)
        /\ (p ∉ changes_modified (scan_folder fs save w).2))
  /\ (forall (fs : localfs) root files d,
        (root, files) ∈ walk (should_ignore (os_getsize fs)) [] (fs_root fs) ->
        d ∈ root ->
        should_ignore (os_getsize fs) d = false)
  /\ (forall (getsize : string -> option N) (sep : ascii) root name d,
        sep = "/"%char \/ sep = "\"%char ->
        d ∈ root ->
        (exists pattern part,
           pattern ∈ ignore_patterns /\ part ∈ path_parts d
           /\ rule_matches pattern part) ->
        should_ignore getsize (relpath sep root name) = true).
Proof.
  split; [|split; [|split]].
  - intros getsize p. rewrite should_ignore_true, patterns_hit_matches. done.
  - intros fs save w p Hig. split; [|split].
    + destruct (current_files _ !! p) as [h|] eqn:Hcur; [|done].
      apply scan_current_Some in Hcur as [f [_ Hrec]].
      apply recorded_not_ignored in Hrec as [Hno _]. congruence.
    + intros Hin. apply scan_new_elem in Hin as [f [_ Hnew]].
      apply found_new_recorded in Hnew as [[h Hrec] _].
      apply recorded_not_ignored in Hrec as [Hno _]. congruence.
    + intros Hin. apply scan_modified_elem in Hin as [f [_ Hmod]].
      apply found_modified_recorded in Hmod as [h [old [Hrec _]]].
      apply recorded_not_ignored in Hrec as [Hno _]. congruence.
  - intros fs root files d Hw Hd.
    apply walk_inv in Hw as [ds [Hroot [Hds _]]]. simpl in Hroot. subst ds.
    rewrite Forall_forall in Hds. by apply Hds.
  - intros getsize sep root name d Hsep Hd Hm.
    apply (should_ignore_below getsize sep root name d); [done | done |].
    by apply patterns_hit_matches.
Qed.

(** Some paths: a compiled file, a file below a dependency directory, a
    plain file, a large file, and a name that holds [*.pyc] without ending
    with [.pyc]. *)
Example should_ignore_samples :
  should_ignore (fun _ => None) "pkg/mod.pyc" = true
  /\ should_ignore (fun _ => None) "node_modules\left-pad\index.js" = true
  /\ should_ignore (fun _ => Some 5%N) "src/main.py" = false
  /\ should_ignore (fun _ => Some (100 * 1024 * 1024 + 1)%N) "movie.bin" = true
  /\ should_ignore (fun _ => Some (100 * 1024 * 1024)%N) "movie.bin" = false
  /\ should_ignore (fun _ => None) "a*.pycb" = false.
Proof. repeat split; reflexivity. Qed.

(** C6, as the specification states it, fails for the file [a*.pycb] of 5
    bytes: its one segment contains the rule [*.pyc], which is what the
    specification asks of a rule, and [should_ignore] returns [False] for
    it, as a rule that starts with [*] is tested on the end of a segment
    only. *)
Lemma ignore_rule_counterexample :
  let getsize : string -> option N := fun _ => Some 5%N in
  let p := "a*.pycb" in
  should_ignore getsize p = false
  /\ "*.pyc" ∈ ignore_patterns
  /\ p ∈ path_parts p
  /\ claimed_match "*.pyc" p
  /\ ~ (should_ignore getsize p = true <->
        (exists pattern part,
           pattern ∈ ignore_patterns /\ part ∈ path_parts p
           /\ claimed_match pattern part)
        \/ (exists size, getsize p = Some size /\ (100 * 1024 * 1024 < size)%N)).
Proof.
  intros getsize p.
  assert ("*.pyc" ∈ ignore_patterns) as Hrule
    by (apply list_elem_of_In; vm_compute; tauto).
  assert (p ∈ path_parts p) as Hpart
    by (apply list_elem_of_In; vm_compute; tauto).
  assert (claimed_match "*.pyc" p) as Hmatch
    by exact (claimed_substring "*.pyc" "a" "b").
  split; [by vm_compute|]. split; [done|]. split; [done|]. split; [done|].
  intros [_ H].
  assert (should_ignore getsize p = true) as Hyes.
  { apply H. left. by exists "*.pyc", p. }
  vm_compute in Hyes. discriminate.
Qed.

End Ignore.

(** ** The keys of the fingerprint map *)

Section Keys.
Context `{RT : Runtime}.

Lemma contains_char_String (x c : ascii) (s : string) :
  Py.contains (String x s) (String c EmptyString)
  = (if ascii_dec c x then true else false) || Py.contains s (String c EmptyString).
Proof.
  change (Py.contains (String x s) (String c EmptyString))
    with (String.prefix (String c EmptyString) (String x s)
          || Py.contains s (String c EmptyString)).
  f_equal. simpl. destruct (ascii_dec c x); [|done]. by destruct s.
Qed.

Lemma contains_char_app (c : ascii) (a b : string) :
  Py.contains (a ++ b) (String c EmptyString)
  = Py.contains a (String c EmptyString) || Py.contains b (String c EmptyString).
Proof.
  induction a as [|x a IH]; str_simpl; [done|].
  rewrite !contains_char_String, IH. by rewrite orb_assoc.
Qed.

Lemma contains_char_join (c sep : ascii) (l : list string) :
  sep <> c ->
  Forall (fun n => Py.contains n (String c EmptyString) = false) l ->
  Py.contains (Py.join sep l) (String c EmptyString) = false.
Proof.
  intros Hsep Hl. induction Hl as [|a l Ha Hl IH]; [done|].
  destruct l as [|b l]; [done|].
  rewrite join_cons_cons, contains_char_app, contains_char_String, Ha, IH.
  by destruct (ascii_dec c sep) as [->|].
Qed.

(** A visited file is a file that the walk yields, under its relative
    path. *)
Lemma visited_scanned (fs : localfs) (k : string) (f : file) :
  (k, f) ∈ visited fs ->
  exists root name,
    scanned fs root name f
    /\ k = relpath (fs_sep fs) root name
    /\ Forall (fun n => n ∈ fs_names fs) (root ++ [name]).
Proof.
  unfold visited. intros Hin.
  apply list_elem_of_bind in Hin as [[root files] [Hin Hw]].
  apply list_elem_of_bind in Hin as [[name g] [Hin Hfile]].
  apply list_elem_of_singleton in Hin. inversion Hin; subst k g.
  exists root, name. split; [by exists files|]. split; [done|].
  apply walk_inv in Hw as [ds [Hroot [Hds Hfiles]]]. simpl in Hroot. subst ds.
  apply Forall_app. split.
  - eapply Forall_impl; [exact Hds|]. by intros d [_ ?].
  - constructor; [|done]. rewrite Forall_forall in Hfiles.
    by apply (Hfiles (name, f)).
Qed.

(** C9, amended.  Every key of [current_files] is the relative path of a
    file that the walk yields: the names of the directories that lead to it
    and its own name, joined by [os.sep] as [os.path.relpath] returns them,
    without normalisation; its entry is the fingerprint of such a file.
    The key contains no backslash when [os.sep] is not the backslash and
    no name on that path contains one.  The map that
    [scan_folder(save_changes=True)] persists is [current_files] itself. *)
Theorem scan_keys_relative
    (fs : localfs) (save : bool) (w : watcher) (k : string) :
  is_Some (current_files (scan_folder fs save w).2 !! k) ->
  (exists root name f,
     scanned fs root name f
     /\ k = Py.join (fs_sep fs) (root ++ [name])
     /\ (k, f) ∈ visited fs
     /\ current_files (scan_folder fs save w).2 !! k = recorded fs (k, f)
     /\ Forall (fun n => n ∈ fs_names fs) (root ++ [name])
     /\ (fs_sep fs <> "\"%char ->
         Forall (fun n => Py.contains n "\" = false) (root ++ [name]) ->
         Py.contains k "\" = false))
  /\ config_file_hashes (scan_folder fs true w).1
     = current_files (scan_folder fs true w).2.
Proof.
  intros [h Hk]. split; [|done]. rewrite Hk.
  apply scan_current_Some in Hk as [f [Hin Hrec]].
  destruct (visited_scanned fs k f Hin) as [root [name [Hscan [Hrel Hnames]]]].
  exists root, name, f. unfold relpath in Hrel.
  split; [done|]. split; [done|]. split; [done|]. split; [done|].
  split; [done|]. intros Hsep Hfree. rewrite Hrel.
  by apply contains_char_join.
Qed.

End Keys.

Section KeysExamples.
#[local] Existing Instance plain_runtime.

(** C9, as the specification states it, fails: on a system whose separator
    is the backslash, the file [a.txt] of the directory [sub] is recorded
    under a key with a backslash, in [current_files] and in the map that
    [scan_folder(save_changes=True)] persists. *)
Lemma keys_backslash_counterexample :
  ~ (forall (fs : localfs) (save : bool) (w : watcher) (k : string),
       is_Some (current_files (scan_folder fs save w).2 !! k) ->
       Py.contains k "\" = false)
  /\ config_file_hashes (scan_folder Ex.windows_folder true Ex.fresh).1
       !! "sub\a.txt" = Some "hello55.0".
Proof.
  split; [|by vm_compute].
  intros H.
  specialize (H Ex.windows_folder false Ex.fresh "sub\a.txt").
  assert (Py.contains "sub\a.txt" "\" = false) as Hno.
  { apply H. exists "hello55.0". by vm_compute. }
  vm_compute in Hno. discriminate.
Qed.

Lemma scan_keys_relative_witness :
  is_Some (current_files (scan_folder Ex.posix_folder false Ex.fresh).2
             !! "sub/b.txt")
  /\ (exists root name f,
        scanned Ex.posix_folder root name f
        /\ "sub/b.txt" = Py.join "/" (root ++ [name])
        /\ recorded Ex.posix_folder ("sub/b.txt", f) = Some "bb27.0")
  /\ Py.contains "sub/b.txt" "\" = false.
Proof.
  assert (is_Some (current_files (scan_folder Ex.posix_folder false Ex.fresh).2
                     !! "sub/b.txt")) as Hk.
  { exists "bb27.0". by vm_compute. }
  split; [exact Hk|].
  destruct (scan_keys_relative Ex.posix_folder false Ex.fresh "sub/b.txt" Hk)
    as [[root [name [f [Hscan [Hrel [_ [Hcur [Hnames Hfree]]]]]]]] _].
  split.
  - exists root, name, f. split; [exact Hscan|]. split; [exact Hrel|].
    rewrite <- Hcur. by vm_compute.
  - apply Hfree; [by vm_compute|].
    eapply Forall_impl; [exact Hnames|]. intros n Hn.
    apply list_elem_of_In in Hn. vm_compute in Hn.
    repeat (destruct Hn as [<- | Hn]; [reflexivity|]). destruct Hn.
Defined.

End KeysExamples.

(** ** Lists of pairs *)

Lemma NoDup_fst_agree {A B} (l : list (A * B)) (x : A) (y1 y2 : B) :
  NoDup l.*1 -> (x, y1) ∈ l -> (x, y2) ∈ l -> y1 = y2.
Proof.
  induction l as [|[a b] l IH]; intros Hnd H1 H2.
  - by apply elem_of_nil in H1.
  - simpl in Hnd. apply NoDup_cons in Hnd as [Ha Hnd].
    apply elem_of_cons in H1 as [H1 | H1], H2 as [H2 | H2]; simplify_eq.
    + done.
    + exfalso. apply Ha. apply list_elem_of_fmap. by exists (a, y2).
    + exfalso. apply Ha. apply list_elem_of_fmap. by exists (a, y1).
    + by apply IH.
Qed.

Lemma NoDup_filter_fst {B} (g : string * B -> bool) (l : list (string * B)) :
  NoDup l.*1 -> NoDup (List.filter g l).*1.
Proof.
  induction l as [|[a b] l IH]; intros Hnd; [done|].
  simpl in Hnd. apply NoDup_cons in Hnd as [Ha Hnd]. simpl.
  destruct (g (a, b)); [|by apply IH].
  simpl. apply NoDup_cons. split; [|by apply IH].
  intros Hin. apply Ha. apply list_elem_of_fmap in Hin as [[a' b'] [-> Hin]].
  apply list_elem_of_In, filter_In in Hin as [Hin _].
  apply list_elem_of_fmap. exists (a', b'). by rewrite list_elem_of_In.
Qed.

(** ** Distinct paths in a well-formed tree *)

Lemma split_free (c : ascii) (s : string) :
  Py.contains s (String c EmptyString) = false -> Py.split c s = [s].
Proof.
  induction s as [|x s IH]; [done|].
  rewrite contains_char_String. intros H.
  apply orb_false_iff in H as [Hx Hs]. simpl.
  destruct (Ascii.eqb_spec x c) as [->|Hne].
  - by destruct (ascii_dec c c).
  - by rewrite (IH Hs).
Qed.

Lemma split_join_free (c : ascii) (l : list string) :
  l <> [] ->
  Forall (fun n => Py.contains n (String c EmptyString) = false) l ->
  Py.split c (Py.join c l) = l.
Proof.
  intros Hne Hfree. rewrite split_join by done. clear Hne.
  induction Hfree as [|a l Ha _ IH]; [done|].
  by rewrite bind_cons, IH, split_free.
Qed.

Lemma join_inj (c : ascii) (l1 l2 : list string) :
  l1 <> [] -> l2 <> [] ->
  Forall (fun n => Py.contains n (String c EmptyString) = false) l1 ->
  Forall (fun n => Py.contains n (String c EmptyString) = false) l2 ->
  Py.join c l1 = Py.join c l2 -> l1 = l2.
Proof.
  intros H1 H2 F1 F2 Heq.
  rewrite <- (split_join_free c l1), <- (split_join_free c l2) by done.
  by rewrite Heq.
Qed.

Section Distinct.
Context `{RT : Runtime}.

Lemma wf_entry_names (sep : ascii) (e : entry) :
  wf_entry sep e = true ->
  Forall (fun n => Py.contains n (String sep EmptyString) = false)
    (entry_names e).
Proof.
  induction e as [n f | n sz ch IH] using entry_tree_ind; simpl; intros Hwf.
  - apply andb_true_iff in Hwf as [Hn _]. apply negb_true_iff in Hn.
    by constructor.
  - apply andb_true_iff in Hwf as [Hn Hch]. apply negb_true_iff in Hn.
    apply andb_true_iff in Hch as [_ Hch]. constructor; [done|].
    rewrite forallb_forall in Hch. rewrite Forall_forall in IH.
    apply Forall_forall. intros m Hm.
    apply list_elem_of_bind in Hm as [e [Hm He]].
    assert (wf_entry sep e = true) as Hwe by by apply Hch, list_elem_of_In.
    specialize (IH e He Hwe). rewrite Forall_forall in IH. by apply IH.
Qed.

Lemma wf_fs_names (fs : localfs) :
  wf_fs fs = true ->
  Forall (fun n => Py.contains n (String (fs_sep fs) EmptyString) = false)
    (fs_names fs).
Proof.
  unfold wf_fs, fs_names. intros Hwf.
  apply andb_true_iff in Hwf as [_ Hch]. rewrite forallb_forall in Hch.
  apply Forall_forall. intros m Hm.
  apply list_elem_of_bind in Hm as [e [Hm He]].
  assert (wf_entry (fs_sep fs) e = true) as Hwe by by apply Hch, list_elem_of_In.
  pose proof (wf_entry_names _ _ Hwe) as Hall.
  rewrite Forall_forall in Hall. by apply Hall.
Qed.

Lemma walked_paths_cons root files w :
  walked_paths ((root, files) :: w)
  = ((fun nf : string * file => root ++ [nf.1]) <$> files) ++ walked_paths w.
Proof.
  unfold walked_paths. rewrite bind_cons. f_equal.
  induction files as [|[n f] files IH]; [done|].
  by rewrite bind_cons, fmap_cons, IH.
Qed.

Lemma walked_paths_bind {A} (l : list A)
    (g : A -> list (list string * list (string * file))) :
  walked_paths (l ≫= g) = l ≫= (fun x => walked_paths (g x)).
Proof.
  unfold walked_paths. induction l as [|x l IH]; [done|].
  by rewrite !bind_cons, bind_app, IH.
Qed.

Lemma entry_name_inj_on (es : list entry) (e1 e2 : entry) :
  NoDup (entry_name <$> es) -> e1 ∈ es -> e2 ∈ es ->
  entry_name e1 = entry_name e2 -> e1 = e2.
Proof.
  induction es as [|e es IH]; intros Hnd H1 H2 Heq.
  - by apply elem_of_nil in H1.
  - rewrite fmap_cons in Hnd. apply NoDup_cons in Hnd as [He Hnd].
    apply elem_of_cons in H1 as [-> | H1], H2 as [-> | H2].
    + done.
    + exfalso. apply He. rewrite Heq. by apply list_elem_of_fmap_2.
    + exfalso. apply He. rewrite <- Heq. by apply list_elem_of_fmap_2.
    + by apply IH.
Qed.

Lemma files_of_names_NoDup (es : list entry) :
  NoDup (entry_name <$> es) -> NoDup (files_of es).*1.
Proof.
  induction es as [|e es IH]; [done|].
  rewrite fmap_cons. intros Hnd. apply NoDup_cons in Hnd as [He Hnd].
  unfold files_of in *. destruct e as [n f | n sz ch]; simpl; [|by apply IH].
  apply NoDup_cons. split; [|by apply IH].
  intros Hin. apply He. simpl.
  apply list_elem_of_fmap in Hin as [[m g] [-> Hin]].
  apply list_elem_of_omap in Hin as [e' [Hin He']].
  apply list_elem_of_fmap. exists e'. split; [|done].
  destruct e'; by simplify_eq.
Qed.

(** The paths that the walk yields below one entry: they begin with the
    name of the entry and go on, and no two are the same. *)
Lemma walk_entry_paths (prune : string -> bool) (sep : ascii) (e : entry) :
  forall root,
    wf_entry sep e = true ->
    NoDup (walked_paths (walk_entry prune root e))
    /\ forall x, x ∈ walked_paths (walk_entry prune root e) ->
         exists rest, x = root ++ entry_name e :: rest /\ rest <> [].
Proof.
  induction e as [n f | n sz ch IH] using entry_tree_ind; intros root Hwf.
  - split; [by apply NoDup_nil | intros x Hx; by apply elem_of_nil in Hx].
  - cbn [walk_entry]. destruct (prune n); cbn [entry_name].
    { split; [by apply NoDup_nil | intros x Hx; by apply elem_of_nil in Hx]. }
    cbn [wf_entry] in Hwf. apply andb_true_iff in Hwf as [_ Hwf].
    apply andb_true_iff in Hwf as [Hnd Hch].
    apply bool_decide_eq_true in Hnd. rewrite forallb_forall in Hch.
    rewrite Forall_forall in IH.
    assert (forall e, e ∈ ch -> wf_entry sep e = true) as Hwe
      by (intros e He; by apply Hch, list_elem_of_In).
    rewrite walked_paths_cons, walked_paths_bind.
    split.
    + apply NoDup_app. split; [|split].
      * apply NoDup_fmap_2_strong.
        -- intros [m1 g1] [m2 g2] H1 H2 Heq. apply app_inv_head in Heq.
           simpl in Heq. simplify_eq.
           f_equal. by apply (NoDup_fst_agree (files_of ch) m2);
             [apply files_of_names_NoDup|..].
        -- eapply NoDup_fmap_1. by apply files_of_names_NoDup.
      * intros x Hx Hx'.
        apply list_elem_of_fmap in Hx as [[m g] [-> _]].
        apply list_elem_of_bind in Hx' as [e [Hx' He]].
        destruct (IH e He (root ++ [n]) (Hwe e He)) as [_ Hshape].
        apply Hshape in Hx' as [rest [Heq Hrest]].
        rewrite <- !app_assoc in Heq. apply app_inv_head in Heq.
        simpl in Heq. by simplify_eq.
      * apply NoDup_bind.
        -- intros e1 e2 x H1 H2 Hx1 Hx2.
           destruct (IH e1 H1 (root ++ [n]) (Hwe e1 H1)) as [_ Hs1].
           destruct (IH e2 H2 (root ++ [n]) (Hwe e2 H2)) as [_ Hs2].
           apply Hs1 in Hx1 as [r1 [-> _]]. apply Hs2 in Hx2 as [r2 [Heq _]].
           apply app_inv_head in Heq. simplify_eq.
           by apply (entry_name_inj_on ch).
        -- intros e He. by apply (IH e He (root ++ [n]) (Hwe e He)).
        -- by eapply NoDup_fmap_1.
    + intros x Hx. apply elem_of_app in Hx as [Hx | Hx].
      * apply list_elem_of_fmap in Hx as [[m g] [-> _]].
        exists [m]. by rewrite <- app_assoc.
      * apply list_elem_of_bind in Hx as [e [Hx He]].
        destruct (IH e He (root ++ [n]) (Hwe e He)) as [_ Hshape].
        apply Hshape in Hx as [rest [-> Hrest]].
        exists (entry_name e :: rest). by rewrite <- app_assoc.
Qed.

Lemma walk_paths_NoDup (prune : string -> bool) (sep : ascii)
    (es : list entry) (root : list string) :
  NoDup (entry_name <$> es) ->
  forallb (wf_entry sep) es = true ->
  NoDup (walked_paths (walk prune root es)).
Proof.
  intros Hnd Hch. rewrite forallb_forall in Hch.
  assert (forall e, e ∈ es -> wf_entry sep e = true) as Hwe
    by (intros e He; by apply Hch, list_elem_of_In).
  unfold walk. rewrite walked_paths_cons, walked_paths_bind.
  apply NoDup_app. split; [|split].
  - apply NoDup_fmap_2_strong.
    + intros [m1 g1] [m2 g2] H1 H2 Heq. apply app_inv_head in Heq.
      simpl in Heq. simplify_eq.
      f_equal. by apply (NoDup_fst_agree (files_of es) m2);
        [apply files_of_names_NoDup|..].
    + eapply NoDup_fmap_1. by apply files_of_names_NoDup.
  - intros x Hx Hx'.
    apply list_elem_of_fmap in Hx as [[m g] [-> _]].
    apply list_elem_of_bind in Hx' as [e [Hx' He]].
    destruct (walk_entry_paths prune sep e root (Hwe e He)) as [_ Hshape].
    apply Hshape in Hx' as [rest [Heq Hrest]].
    apply app_inv_head in Heq. simpl in Heq. simplify_eq.
  - apply NoDup_bind.
    + intros e1 e2 x H1 H2 Hx1 Hx2.
      destruct (walk_entry_paths prune sep e1 root (Hwe e1 H1)) as [_ Hs1].
      destruct (walk_entry_paths prune sep e2 root (Hwe e2 H2)) as [_ Hs2].
      apply Hs1 in Hx1 as [r1 [-> _]]. apply Hs2 in Hx2 as [r2 [Heq _]].
      apply app_inv_head in Heq. simplify_eq.
      by apply (entry_name_inj_on es).
    + intros e He. by apply (walk_entry_paths prune sep e root (Hwe e He)).
    + by eapply NoDup_fmap_1.
Qed.

Lemma visited_paths (fs : localfs) :
  (visited fs).*1
  = Py.join (fs_sep fs)
      <$> walked_paths (walk (should_ignore (os_getsize fs)) [] (fs_root fs)).
Proof.
  unfold visited, walked_paths, relpath.
  induction (walk _ [] (fs_root fs)) as [|[root files] w IH]; [done|].
  rewrite !bind_cons, !fmap_app, IH. f_equal.
  induction files as [|[n f] files IHf]; [done|].
  by rewrite !bind_cons, !fmap_app, IHf.
Qed.

(** In a well-formed tree no two visited files have the same relative
    path. *)
Lemma wf_distinct_paths (fs : localfs) : wf_fs fs = true -> distinct_paths fs.
Proof.
  intros Hwf. unfold distinct_paths. rewrite visited_paths.
  pose proof (wf_fs_names fs Hwf) as Hnames. rewrite Forall_forall in Hnames.
  unfold wf_fs in Hwf. apply andb_true_iff in Hwf as [Hnd Hch].
  apply bool_decide_eq_true in Hnd.
  assert (forall x,
            x ∈ walked_paths (walk (should_ignore (os_getsize fs)) [] (fs_root fs)) ->
            x <> [] /\ Forall (fun n => Py.contains n (String (fs_sep fs) EmptyString)
                                        = false) x) as Hsegs.
  { intros x Hx. unfold walked_paths in Hx.
    apply list_elem_of_bind in Hx as [[root files] [Hx Hw]].
    apply list_elem_of_bind in Hx as [[n f] [Hx Hf]].
    apply list_elem_of_singleton in Hx. subst x.
    apply walk_inv in Hw as [ds [Hroot [Hds Hfiles]]]. simpl in Hroot. subst ds.
    split; [by destruct root|].
    apply Forall_app. split.
    - eapply Forall_impl; [exact Hds|]. intros d [_ Hd]. by apply Hnames.
    - constructor; [|done]. apply Hnames.
      rewrite Forall_forall in Hfiles. by apply (Hfiles (n, f)). }
  apply NoDup_fmap_2_strong.
  - intros x y Hx Hy Heq.
    destruct (Hsegs x Hx) as [? ?]. destruct (Hsegs y Hy) as [? ?].
    by apply (join_inj (fs_sep fs)).
  - by apply (walk_paths_NoDup _ (fs_sep fs)).
Qed.

End Distinct.

(** ** Classification of the visited files *)

Section Classify.
Context `{RT : Runtime}.
Implicit Types (fs : localfs) (w : watcher) (p : string) (f : file).

Lemma recorded_of_hash fs p f :
  should_ignore (os_getsize fs) p = false ->
  recorded fs (p, f) = get_file_hash f.
Proof. unfold recorded. simpl. by intros ->. Qed.

(** C5. In a well-formed tree, for a visited file that is not ignored: when
    its fingerprint is computed and its path is not in the prior map, the
    path is in [changes['new']]; when the prior map has another fingerprint
    for it, the path is in [changes['modified']]; when the prior map has the
    same fingerprint, the path is in neither list; and when reading the file
    fails, the path is no key of [current_files] and is in neither list.
    This holds for each visited file, whatever happens to the others: a
    failure on one file does not stop the scan. *)
Theorem scan_classifies fs (save : bool) w p f :
  wf_fs fs = true ->
  (p, f) ∈ visited fs ->
  should_ignore (os_getsize fs) p = false ->
  let v := (scan_folder fs save w).2 in
  (forall h, get_file_hash f = Some h -> file_hashes w !! p = None ->
     (p ∈ changes_new v) /\ (p ∉ changes_modified v)
     /\ (current_files v !! p = Some h))
  /\ (forall h old, get_file_hash f = Some h ->
        file_hashes w !! p = Some old -> old <> h ->
        (p ∈ changes_modified v) /\ (p ∉ changes_new v)
        /\ current_files v !! p = Some h)
  /\ (forall h, get_file_hash f = Some h -> file_hashes w !! p = Some h ->
        (p ∉ changes_new v) /\ (p ∉ changes_modified v)
        /\ current_files v !! p = Some h)
  /\ (get_file_hash f = None ->
        current_files v !! p = None
        /\ (p ∉ changes_new v) /\ (p ∉ changes_modified v)).
Proof.
  intros Hwf Hin Hig v. subst v.
  pose proof (wf_distinct_paths fs Hwf) as Hnd.
  pose proof (recorded_of_hash fs p f Hig) as Hrec.
  assert (forall f', (p, f') ∈ visited fs -> f' = f) as Hsame.
  { intros f' Hin'. by apply (NoDup_fst_agree (visited fs) p). }
  rewrite (scan_current_visited fs save w p f Hnd Hin), Hrec.
  repeat split; try done.
  - apply scan_new_elem. exists f. split; [done|].
    apply found_new_recorded. split; [|done]. exists h. congruence.
  - intros Hm. apply scan_modified_elem in Hm as [f' [Hin' Hm]].
    apply found_modified_recorded in Hm as [? [? [_ [? _]]]]. congruence.
  - apply scan_modified_elem. exists f. split; [done|].
    apply found_modified_recorded. exists h, old. by rewrite Hrec.
  - intros Hn. apply scan_new_elem in Hn as [f' [Hin' Hn]].
    apply found_new_recorded in Hn as [_ ?]. congruence.
  - intros Hn. apply scan_new_elem in Hn as [f' [Hin' Hn]].
    apply found_new_recorded in Hn as [_ ?]. congruence.
  - intros Hm. apply scan_modified_elem in Hm as [f' [Hin' Hm]].
    apply found_modified_recorded in Hm as [h' [old [Hr [Hp Hne]]]].
    apply Hsame in Hin'. subst f'. congruence.
  - intros Hn. apply scan_new_elem in Hn as [f' [Hin' Hn]].
    apply found_new_recorded in Hn as [[h' Hr] _].
    apply Hsame in Hin'. subst f'. congruence.
  - intros Hm. apply scan_modified_elem in Hm as [f' [Hin' Hm]].
    apply found_modified_recorded in Hm as [h' [old [Hr _]]].
    apply Hsame in Hin'. subst f'. congruence.
Qed.

Lemma scan_changed_NoDup fs (save : bool) w :
  distinct_paths fs ->
  NoDup (changes_new (scan_folder fs save w).2
         ++ changes_modified (scan_folder fs save w).2).
Proof.
  intros Hnd. apply NoDup_app. split; [|split].
  - rewrite scan_folder_vars, scan_loop_new. simpl. by apply NoDup_filter_fst.
  - intros p Hn Hm.
    apply scan_new_elem in Hn as [f [_ Hn]].
    apply scan_modified_elem in Hm as [f' [_ Hm]].
    apply found_new_recorded in Hn as [_ ?].
    apply found_modified_recorded in Hm as [? [? [_ [? _]]]]. congruence.
  - rewrite scan_folder_vars, scan_loop_modified. simpl.
    by apply NoDup_filter_fst.
Qed.

(** C10. In a well-formed tree, the two lists of a scan have no path in
    common and neither repeats a path; every path of either list is a key of [current_files], with the
    fingerprint just computed for the file at that path; so the number of
    changed paths is the sum of the two lengths. *)
Theorem scan_changes_distinct fs (save : bool) w :
  wf_fs fs = true ->
  let v := (scan_folder fs save w).2 in
  (forall p, p ∈ changes_new v -> p ∉ changes_modified v)
  /\ NoDup (changes_new v)
  /\ NoDup (changes_modified v)
  /\ (forall p, p ∈ changes_new v ++ changes_modified v ->
        exists f h, (p, f) ∈ visited fs /\ get_file_hash f = Some h
                    /\ current_files v !! p = Some h)
  /\ size (list_to_set (changes_new v ++ changes_modified v) : gset string)
     = (length (changes_new v) + length (changes_modified v))%nat.
Proof.
  intros Hwf v. pose proof (wf_distinct_paths fs Hwf) as Hnd.
  assert (forall p, p ∈ changes_new v -> p ∉ changes_modified v) as Hdisj.
  { intros p Hn Hm. subst v.
    apply scan_new_elem in Hn as [f [_ Hn]].
    apply scan_modified_elem in Hm as [f' [_ Hm]].
    apply found_new_recorded in Hn as [_ ?].
    apply found_modified_recorded in Hm as [? [? [_ [? _]]]]. congruence. }
  assert (NoDup (changes_new v)) as Hn.
  { subst v. rewrite scan_folder_vars, scan_loop_new. simpl.
    by apply NoDup_filter_fst. }
  assert (NoDup (changes_modified v)) as Hm.
  { subst v. rewrite scan_folder_vars, scan_loop_modified. simpl.
    by apply NoDup_filter_fst. }
  split; [done|]. split; [done|]. split; [done|]. split.
  - intros p Hp. subst v. apply elem_of_app in Hp as [Hp | Hp].
    + apply scan_new_elem in Hp as [f [Hin Hp]].
      apply found_new_recorded in Hp as [[h Hr] _].
      exists f, h. split; [done|].
      rewrite (scan_current_visited fs save w p f Hnd Hin).
      by apply recorded_not_ignored in Hr as Hr'; destruct Hr'.
    + apply scan_modified_elem in Hp as [f [Hin Hp]].
      apply found_modified_recorded in Hp as [h [old [Hr _]]].
      exists f, h. split; [done|].
      rewrite (scan_current_visited fs save w p f Hnd Hin).
      by apply recorded_not_ignored in Hr as Hr'; destruct Hr'.
  - rewrite size_list_to_set, length_app; [done|].
    apply NoDup_app. done.
Qed.

End Classify.

Section ClassifyExamples.
#[local] Existing Instance plain_runtime.

Ltac by_listing := apply list_elem_of_In; vm_compute; auto 10.

Lemma posix_folder_distinct : distinct_paths Ex.posix_folder.
Proof. apply wf_distinct_paths. by vm_compute. Qed.

Lemma scan_classifies_witness :
  "b.txt" ∈ changes_new (scan_folder Ex.two_files false Ex.stale).2
  /\ "a.txt" ∈ changes_modified (scan_folder Ex.two_files false Ex.stale).2.
Proof.
  assert (wf_fs Ex.two_files = true) as Hnd by by vm_compute.
  assert (("b.txt", Ex.notes) ∈ visited Ex.two_files) as Hb by by_listing.
  assert (("a.txt", Ex.hello) ∈ visited Ex.two_files) as Ha by by_listing.
  assert (should_ignore (os_getsize Ex.two_files) "b.txt" = false) as Hib
    by by vm_compute.
  assert (should_ignore (os_getsize Ex.two_files) "a.txt" = false) as Hia
    by by vm_compute.
  destruct (scan_classifies Ex.two_files false Ex.stale "b.txt" Ex.notes
              Hnd Hb Hib) as [Hnew _].
  destruct (scan_classifies Ex.two_files false Ex.stale "a.txt" Ex.hello
              Hnd Ha Hia) as [_ [Hmod _]].
  split.
  - apply (Hnew "bb27.0"); by vm_compute.
  - apply (Hmod "hello55.0" "old"); by vm_compute.
Defined.

Lemma scan_changes_distinct_witness :
  NoDup (changes_new (scan_folder Ex.two_files false Ex.stale).2)
  /\ size (list_to_set
            (changes_new (scan_folder Ex.two_files false Ex.stale).2
             ++ changes_modified (scan_folder Ex.two_files false Ex.stale).2)
          : gset string) = 2%nat.
Proof.
  assert (wf_fs Ex.two_files = true) as Hnd by by vm_compute.
  destruct (scan_changes_distinct Ex.two_files false Ex.stale Hnd)
    as [_ [Hn [_ [_ Hsize]]]].
  split; [exact Hn|]. rewrite Hsize. by vm_compute.
Defined.

End ClassifyExamples.

(** ** Fingerprints *)

Section Fingerprint.
Context `{RT : Runtime}.

Lemma takeN_take {A} (n : N) (l : list A) : takeN n l = take (N.to_nat n) l.
Proof.
  revert n. induction l as [|x l IH]; intros n; simpl.
  - by rewrite take_nil.
  - destruct (N.eqb_spec n 0) as [->|Hn]; [done|].
    rewrite IH. replace (N.to_nat n) with (S (N.to_nat (N.pred n))) by lia.
    done.
Qed.

Lemma dropN_drop {A} (n : N) (l : list A) : dropN n l = drop (N.to_nat n) l.
Proof.
  revert n. induction l as [|x l IH]; intros n; simpl.
  - by rewrite drop_nil.
  - destruct (N.eqb_spec n 0) as [->|Hn]; [done|].
    rewrite IH. replace (N.to_nat n) with (S (N.to_nat (N.pred n))) by lia.
    done.
Qed.

Lemma get_file_hash_fed (f : file) (st : stat) (data : list Byte.byte) :
  f_stat f = Some st -> f_data f = Some data ->
  get_file_hash f = md5_hexdigest <$> fed_bytes st data.
Proof.
  intros Hst Hdata. unfold get_file_hash, fed_bytes. rewrite Hst, Hdata.
  cbn [mbind option_bind]. unfold h_open, h_read, h_seek_end.
  cbn [h_bytes h_pos]. change (dropN 0 data) with (dropN 0%N data).
  rewrite (dropN_drop 0 data). cbn [N.to_nat drop].
  destruct (2 * CHUNK <? st_size st)%N.
  - destruct (CHUNK <=? lengthN data)%N; [|done].
    cbn [mbind option_bind h_bytes h_pos fmap option_map].
    unfold hexdigest, update, md5_new. cbn [fed].
    by rewrite app_nil_l, <- !app_assoc.
  - cbn [mbind option_bind fmap option_map].
    unfold hexdigest, update, md5_new. cbn [fed].
    by rewrite app_nil_l, <- !app_assoc.
Qed.

Lemma CHUNK_eq : CHUNK = (1024 * 1024)%N.
Proof. reflexivity. Qed.

Lemma fed_bytes_sampled (st : stat) (data : list Byte.byte) :
  st_size st = lengthN data ->
  fed_bytes st data
  = Some (first_MiB data
          ++ (if (2 * 1024 * 1024 <? st_size st)%N then last_MiB data else [])
          ++ Py.encode (Py.str_int (st_size st))
          ++ Py.encode (str_float (st_mtime st))).
Proof.
  intros Hsize. unfold fed_bytes, first_MiB, last_MiB.
  rewrite !takeN_take, dropN_drop, CHUNK_eq.
  change (2 * (1024 * 1024))%N with (2 * 1024 * 1024)%N.
  destruct (2 * 1024 * 1024 <? st_size st)%N eqn:Hbig; [|done].
  apply N.ltb_lt in Hbig. rewrite Hsize in Hbig. unfold lengthN in *.
  destruct (N.leb_spec (1024 * 1024) (N.of_nat (length data))) as [Hle|Hgt];
    [|lia].
  f_equal. f_equal. f_equal.
  replace (N.to_nat (N.of_nat (length data) - 1024 * 1024))
    with (length data - N.to_nat (1024 * 1024))%nat by lia.
  apply take_ge. rewrite length_drop. lia.
Qed.

(** Two contents of equal size above 2 MiB that agree on the first and on
    the last MiB are fed to the hash object as the same bytes. *)
Lemma fed_bytes_gap (st st' : stat) (data data' : list Byte.byte) :
  st_size st = lengthN data -> st_size st' = lengthN data' ->
  st_size st' = st_size st -> st_mtime st' = st_mtime st ->
  first_MiB data' = first_MiB data -> last_MiB data' = last_MiB data ->
  fed_bytes st' data' = fed_bytes st data.
Proof.
  intros Hs Hs' Hsize Hmtime Hfirst Hlast.
  rewrite !fed_bytes_sampled by done.
  by rewrite Hsize, Hmtime, Hfirst, Hlast.
Qed.

(** C4. The fingerprint of a file is the digest of the first MiB of its
    content, followed by the last MiB only when the size is above 2 MiB,
    followed by the size in decimal, followed by the modification time as
    [str] writes it.  So a file above 2 MiB whose content changes between
    the first and the last MiB, with size and modification time as before,
    keeps its fingerprint, and a scan whose prior map has that fingerprint
    puts it in neither list. *)
Theorem fingerprint_samples (f : file) (st : stat) (data : list Byte.byte) :
  f_stat f = Some st -> f_data f = Some data -> st_size st = lengthN data ->
  get_file_hash f = Some (fingerprint_of st data)
  /\ (forall (f' : file) (st' : stat) (data' : list Byte.byte),
        f_stat f' = Some st' -> f_data f' = Some data' ->
        st_size st' = lengthN data' ->
        (2 * 1024 * 1024 < st_size st)%N ->
        st_size st' = st_size st -> st_mtime st' = st_mtime st ->
        first_MiB data' = first_MiB data -> last_MiB data' = last_MiB data ->
        get_file_hash f' = get_file_hash f
        /\ (forall (fs : localfs) (save : bool) (w : watcher) (p : string),
              wf_fs fs = true -> (p, f') ∈ visited fs ->
              file_hashes w !! p = get_file_hash f ->
              (p ∉ changes_modified (scan_folder fs save w).2)
              /\ (p ∉ changes_new (scan_folder fs save w).2))).
Proof.
  intros Hst Hdata Hsize.
  assert (get_file_hash f = Some (fingerprint_of st data)) as Hf.
  { rewrite (get_file_hash_fed f st data) by done.
    by rewrite fed_bytes_sampled. }
  split; [done|].
  intros f' st' data' Hst' Hdata' Hsize' Hbig Heq Hmtime Hfirst Hlast.
  assert (get_file_hash f' = get_file_hash f) as Hsame.
  { rewrite (get_file_hash_fed f' st' data'), (get_file_hash_fed f st data)
      by done.
    by rewrite (fed_bytes_gap st st' data data'). }
  split; [done|].
  intros fs save w p Hwf Hin Hprior.
  pose proof (wf_distinct_paths fs Hwf) as Hnd.
  assert (forall g, (p, g) ∈ visited fs -> g = f') as Hone.
  { intros g Hg. by apply (NoDup_fst_agree (visited fs) p). }
  split.
  - intros Hm. apply scan_modified_elem in Hm as [g [Hg Hm]].
    apply Hone in Hg. subst g.
    apply found_modified_recorded in Hm as [h [old [Hr [Hp Hne]]]].
    apply recorded_not_ignored in Hr as [_ Hr]. congruence.
  - intros Hn. apply scan_new_elem in Hn as [g [_ Hn]].
    apply found_new_recorded in Hn as [_ Hp]. congruence.
Qed.

Lemma block_size (b m : Byte.byte) (n : nat) :
  lengthN (repeat b n ++ m :: repeat b n) = (2 * N.of_nat n + 1)%N.
Proof.
  unfold lengthN. rewrite length_app, length_cons, !repeat_length. lia.
Qed.

Lemma block_first (b m : Byte.byte) (n : nat) :
  take n (repeat b n ++ m :: repeat b n) = repeat b n.
Proof. apply take_app_length'. by rewrite repeat_length. Qed.

Lemma block_last (b m : Byte.byte) (n : nat) :
  drop (length (repeat b n ++ m :: repeat b n) - n)
    (repeat b n ++ m :: repeat b n) = repeat b n.
Proof.
  rewrite length_app, length_cons, !repeat_length.
  replace (n + S n - n)%nat with (S n) by lia.
  rewrite cons_middle, app_assoc. apply drop_app_length'.
  rewrite length_app, repeat_length. simpl. lia.
Qed.

Lemma block_middle (l : list Byte.byte) (a b : Byte.byte) :
  Some (l ++ a :: l) = Some (l ++ b :: l) -> a = b.
Proof. intros H. simplify_eq. done. Qed.

End Fingerprint.

Section FingerprintExamples.
#[local] Existing Instance plain_runtime.

Lemma large_size (m : Byte.byte) :
  (2 * (1024 * 1024) + 1)%N = lengthN (Ex.block ++ m :: Ex.block).
Proof.
  unfold Ex.block. rewrite block_size, N2Nat.id. reflexivity.
Qed.

Lemma fingerprint_samples_witness :
  get_file_hash (Ex.large Byte.x01) = get_file_hash (Ex.large Byte.x00)
  /\ f_data (Ex.large Byte.x01) <> f_data (Ex.large Byte.x00).
Proof.
  split.
  - destruct (fingerprint_samples (Ex.large Byte.x00) _ _ eq_refl eq_refl
                (large_size Byte.x00)) as [_ Hgap].
    apply (Hgap (Ex.large Byte.x01) _ _ eq_refl eq_refl (large_size Byte.x01)).
    + reflexivity.
    + reflexivity.
    + reflexivity.
    + unfold first_MiB, Ex.block. by rewrite !block_first.
    + unfold last_MiB, Ex.block. by rewrite !block_last.
  - unfold Ex.large. cbn [f_data]. intros H.
    apply block_middle in H. discriminate H.
Defined.

End FingerprintExamples.

(** ** Runs and their traces *)

Section Runs.
Context `{RT : Runtime} `{FTP : FtpServer}.
Implicit Types (s : state) (tr : list event) (P : event -> Prop).

Lemma events_since_app s s' tr : log s' = log s ++ tr -> events_since s s' = tr.
Proof. unfold events_since. intros ->. by rewrite drop_app_length. Qed.

Lemma grows_app s s' tr : log s' = log s ++ tr -> grows s s'.
Proof. intros H. unfold grows. by rewrite (events_since_app s s' tr). Qed.

Lemma grows_refl s : grows s s.
Proof. apply (grows_app s s []). by rewrite app_nil_r. Qed.

Lemma events_since_refl s : events_since s s = [].
Proof. apply events_since_app. by rewrite app_nil_r. Qed.

Lemma events_since_trans s s1 s2 :
  grows s s1 -> grows s1 s2 ->
  events_since s s2 = events_since s s1 ++ events_since s1 s2.
Proof.
  unfold grows. intros H1 H2. apply events_since_app.
  rewrite H2, H1 at 1. by rewrite <- app_assoc.
Qed.

Lemma grows_trans s s1 s2 : grows s s1 -> grows s1 s2 -> grows s s2.
Proof.
  intros H1 H2. unfold grows. rewrite (events_since_trans s s1 s2) by done.
  unfold grows in H1, H2. rewrite H2, H1 at 1. by rewrite <- app_assoc.
Qed.

Lemma events_since_record s e : events_since s (record e s) = [e].
Proof. by apply events_since_app. Qed.

(** *** The steps *)

Lemma bind_run {A B} (m : M A) (k : A -> M B) s :
  (m ≫= k) s = match m s with
               | (Val a, s') => k a s'
               | (Raise e, s') => (Raise e, s')
               end.
Proof. reflexivity. Qed.

Lemma send_run (c : cmd) s :
  send c s
  = (match (respond (server s) c).1 with
     | Done => Val tt
     | Failed e => Raise e
     end,
     {| self := self s; server := (respond (server s) c).2;
        log := log s ++ [Sent c (respond (server s) c).1] |}).
Proof.
  unfold send. destruct (respond (server s) c) as [r srv]. by destruct r.
Qed.

Lemma emits_ret {A} P (a : A) : emits P (ret a).
Proof.
  intros s. simpl. rewrite events_since_refl.
  split; [done|]. split; [apply grows_refl | done].
Qed.

Lemma emits_mret {A} P (a : A) : emits P (mret a : M A).
Proof. apply emits_ret. Qed.

Lemma emits_raise {A} P (e : exn) : emits P (raise e : M A).
Proof.
  intros s. simpl. rewrite events_since_refl.
  split; [done|]. split; [apply grows_refl | done].
Qed.

Lemma emits_tell P (e : event) : P e -> emits P (tell e).
Proof.
  intros He s. simpl. rewrite events_since_record.
  split; [done|]. split; [by apply (grows_app _ _ [e])|]. by constructor.
Qed.

Lemma emits_send P (c : cmd) : (forall r, P (Sent c r)) -> emits P (send c).
Proof.
  intros Hc s. rewrite send_run. simpl.
  rewrite (events_since_app s _ [Sent c (respond (server s) c).1]) by done.
  split; [done|]. split; [by eapply grows_app|]. by constructor.
Qed.

Lemma emits_bind {A B} P (m : M A) (k : A -> M B) :
  emits P m -> (forall a, emits P (k a)) -> emits P (m ≫= k).
Proof.
  intros Hm Hk s. rewrite bind_run. specialize (Hm s).
  destruct (m s) as [[a|e] s1]; simpl in Hm; [|done].
  destruct Hm as [Hself [Hg HP]]. specialize (Hk a s1).
  destruct (k a s1) as [r s2]. simpl in *. destruct Hk as [Hself' [Hg' HP']].
  split; [congruence|]. split; [by eapply grows_trans|].
  rewrite (events_since_trans s s1 s2) by done. by apply Forall_app.
Qed.

Lemma emits_try_except {A} P (m : M A) (h : exn -> M A) :
  emits P m -> (forall e, emits P (h e)) -> emits P (try_except m h).
Proof.
  intros Hm Hh s. unfold try_except. specialize (Hm s).
  destruct (m s) as [[a|e] s1]; simpl in Hm; [done|].
  destruct Hm as [Hself [Hg HP]]. specialize (Hh e s1).
  destruct (h e s1) as [r s2]. simpl in *. destruct Hh as [Hself' [Hg' HP']].
  split; [congruence|]. split; [by eapply grows_trans|].
  rewrite (events_since_trans s s1 s2) by done. by apply Forall_app.
Qed.

Lemma emits_for_each {A} P (l : list A) (body : A -> M unit) :
  (forall x, emits P (body x)) -> emits P (for_each l body).
Proof.
  intros Hbody. induction l as [|x l IH]; simpl.
  - apply emits_ret.
  - apply emits_bind; [done | by intros _].
Qed.

Lemma emits_weaken {A} P (Q : event -> Prop) (m : M A) :
  (forall e, P e -> Q e) -> emits P m -> emits Q m.
Proof.
  intros HPQ Hm s. destruct (Hm s) as [? [? HP]].
  split; [done|]. split; [done|]. by eapply Forall_impl.
Qed.

(** *** connect_ftp *)

Lemma connect_ftp_emits (cfg : ftp_config) :
  emits (fun e => connecting e = true) (connect_ftp cfg).
Proof.
  unfold connect_ftp. apply emits_try_except.
  - repeat (apply emits_bind; [|intros _]);
      try (apply emits_send; by intros r);
      try apply emits_mret.
    apply emits_try_except; [by apply emits_send | intros _; apply emits_ret].
  - intros [|]; (apply emits_bind; [by apply emits_tell | intros _; apply emits_mret]).
Qed.

Lemma connect_ftp_result (cfg : ftp_config) s :
  (connect_ftp cfg s).1 = Val (established cfg (server s)).
Proof.
  unfold connect_ftp, established, try_except.
  rewrite bind_run, send_run. cbn [fst snd].
  destruct (respond (server s) (CONNECT (host cfg) (port cfg))) as [[|e1] srv1];
    cbn [fst snd]; [|by destruct e1].
  rewrite bind_run, send_run. cbn [fst snd server].
  destruct (respond srv1 (LOGIN (username cfg) (password cfg))) as [[|e2] srv2];
    cbn [fst snd]; [|by destruct e2].
  rewrite bind_run, send_run. cbn [fst snd server].
  destruct (respond srv2 TYPE_I) as [[|e3] srv3];
    cbn [fst snd]; [|by destruct e3].
  rewrite bind_run, send_run. cbn [fst snd server].
  by destruct (respond srv3 OPTS_UTF8_ON) as [[|e4] srv4].
Qed.

(** *** Navigation and store *)

Lemma cwd_base_send (cfg : ftp_config) : cwd_base cfg = send (CWD (base_dir cfg)).
Proof.
  unfold cwd_base, base_dir. by destruct (String.eqb (remote_path cfg) EmptyString).
Qed.

Lemma create_remote_dirs_emits (cfg : ftp_config) (remote : string) :
  emits (fun e => navigating e = true) (create_remote_dirs cfg remote).
Proof.
  unfold create_remote_dirs. rewrite cwd_base_send.
  apply emits_bind; [by apply emits_send | intros _].
  apply emits_for_each. intros d.
  apply emits_try_except; [by apply emits_send | intros _].
  apply emits_try_except; [| intros _; apply emits_ret].
  apply emits_bind; [by apply emits_send | intros _; by apply emits_send].
Qed.

Lemma store_run (fs : localfs) (file name : string) s :
  exists tr b,
    log (store fs file name s).2 = log s ++ tr
    /\ self (store fs file name s).2 = self s
    /\ store_script file name (os_open fs file) tr b
    /\ (if b then (store fs file name s).1 = Val tt
        else exists e, (store fs file name s).1 = Raise e).
Proof.
  unfold store. destruct (os_open fs file) as [d|] eqn:Hopen.
  - rewrite send_run. cbn [fst snd log self].
    destruct (respond (server s) (STOR name d)) as [[|e] srv]; cbn [fst snd].
    + exists [Sent (STOR name d) Done], true. repeat split; by constructor.
    + exists [Sent (STOR name d) (Failed e)], false.
      repeat split; [by econstructor | by exists e].
  - exists [OpenFailed file], false. repeat split; [by constructor|].
    by exists other_error.
Qed.

Lemma store_script_true file name data tr :
  store_script file name data tr true ->
  exists d, data = Some d /\ tr = [Sent (STOR name d) Done].
Proof. inversion 1; subst. by exists d. Qed.

Lemma store_script_false file name data tr :
  store_script file name data tr false -> Forall (fun e => calm e = true) tr.
Proof. inversion 1; subst; by repeat constructor. Qed.

Lemma navigating_calm (e : event) : navigating e = true -> calm e = true.
Proof. by destruct e as [[] []| | |]. Qed.

(** An attempt: some navigation, then the store.  It returns [True] exactly
    when its last event is the accepted [STOR]; otherwise it raises and has
    stored nothing. *)
Lemma attempt_run (fs : localfs) (nav : M unit) (file name : string) s :
  emits (fun e => navigating e = true) nav ->
  let r := (nav ;; store fs file name ;; ret true) s in
  self r.2 = self s /\
  exists tr,
    log r.2 = log s ++ tr
    /\ ((r.1 = Val true
         /\ exists tr0 d, os_open fs file = Some d
              /\ tr = tr0 ++ [Sent (STOR name d) Done]
              /\ Forall (fun e => navigating e = true) tr0)
        \/ ((exists e, r.1 = Raise e) /\ Forall (fun e => calm e = true) tr)).
Proof.
  intros Hnav r. subst r. rewrite bind_run.
  destruct (Hnav s) as [Hself [Hg Hev]]. unfold grows in Hg.
  destruct (nav s) as [[[]|e] s1]; cbn [fst snd] in *.
  - rewrite bind_run.
    destruct (store_run fs file name s1) as [tr [b [Hlog [Hself' [Hscript Hres]]]]].
    destruct (store fs file name s1) as [[[]|e] s2]; unfold ret; cbn [fst snd] in *.
    + destruct b; [|by destruct Hres].
      apply store_script_true in Hscript as [d [Hd ->]].
      split; [congruence|]. exists (events_since s s1 ++ [Sent (STOR name d) Done]).
      split; [by rewrite Hlog, Hg, <- app_assoc|].
      left. split; [done|]. by exists (events_since s s1), d.
    + destruct b; [done|]. apply store_script_false in Hscript.
      split; [congruence|]. exists (events_since s s1 ++ tr).
      split; [by rewrite Hlog, Hg, <- app_assoc|].
      right. split; [by exists e|]. apply Forall_app. split; [|done].
      eapply Forall_impl; [exact Hev|]. apply navigating_calm.
  - split; [done|]. exists (events_since s s1). split; [done|].
    right. split; [by exists e|].
    eapply Forall_impl; [exact Hev|]. apply navigating_calm.
Qed.

(** *** The fallback *)

Lemma removelast_short {A} (l : list A) :
  (if (1 <? length l)%nat then removelast l else []) = removelast l.
Proof. by destruct l as [|x [|y l]]. Qed.

Lemma last_default {A} (l : list A) (d d' : A) :
  l <> [] -> List.last l d = List.last l d'.
Proof.
  induction l as [|x l IH]; [done|]. intros _.
  destruct l as [|y l]; [done|]. by apply IH.
Qed.

Lemma fallback_name (remote : string) :
  match path_dirs remote with
  | [] => remote
  | _ :: _ => List.last (path_dirs remote) EmptyString
  end = bare_name remote.
Proof.
  unfold bare_name. destruct (path_dirs remote) as [|d ds] eqn:Hd; [done|].
  by apply last_default.
Qed.

Lemma provision_run (dirs : list string) s r s' :
  for_each dirs fallback_step s = (r, s') ->
  exists tr b,
    log s' = log s ++ tr
    /\ self s' = self s
    /\ provision_script dirs tr b
    /\ (if b then r = Val tt else exists e, r = Raise e).
Proof.
  revert s. induction dirs as [|d ds IH]; intros s Hrun.
  - inversion Hrun; subst. exists [], true. rewrite app_nil_r.
    split; [done|]. split; [done|]. split; [by constructor | done].
  - cbn [for_each] in Hrun. rewrite bind_run in Hrun.
    unfold fallback_step at 1 in Hrun. unfold try_except in Hrun.
    rewrite send_run in Hrun. cbn [fst snd] in Hrun.
    destruct (respond (server s) (CWD d)) as [[|e] srv1]; cbn [fst snd] in Hrun.
    + apply IH in Hrun as [tr [b [Hlog [Hself [Hscript Hres]]]]].
      exists (Sent (CWD d) Done :: tr), b. cbn [log self] in *.
      rewrite Hlog, <- app_assoc.
      split; [done|]. split; [done|]. split; [by constructor | done].
    + rewrite bind_run, send_run in Hrun. cbn [fst snd server log self] in Hrun.
      destruct (respond srv1 (MKD d)) as [[|e'] srv2]; cbn [fst snd] in Hrun.
      * rewrite send_run in Hrun. cbn [fst snd server log self] in Hrun.
        destruct (respond srv2 (CWD d)) as [[|e''] srv3]; cbn [fst snd] in Hrun.
        -- apply IH in Hrun as [tr [b [Hlog [Hself [Hscript Hres]]]]].
           exists (Sent (CWD d) (Failed e) :: Sent (MKD d) Done
                     :: Sent (CWD d) Done :: tr), b.
           cbn [log self] in *. rewrite Hlog, <- !app_assoc.
           split; [done|]. split; [done|]. split; [by constructor | done].
        -- inversion Hrun; subst.
           exists [Sent (CWD d) (Failed e); Sent (MKD d) Done;
                   Sent (CWD d) (Failed e'')], false.
           cbn [log self]. rewrite <- !app_assoc.
           split; [done|]. split; [done|].
           split; [by constructor | by exists e''].
      * inversion Hrun; subst.
        exists [Sent (CWD d) (Failed e); Sent (MKD d) (Failed e')], false.
        cbn [log self]. rewrite <- !app_assoc.
        split; [done|]. split; [done|].
        split; [by constructor | by exists e'].
Qed.

Lemma bind_assoc_run {A B C} (m : M A) (f : A -> M B) (g : B -> M C) s :
  ((m ≫= f) ≫= g) s = (m ≫= (fun x => f x ≫= g)) s.
Proof. rewrite !bind_run. by destruct (m s) as [[a|e] s1]. Qed.

Lemma fallback_emits (cfg : ftp_config) (dirs : list string) :
  emits (fun e => navigating e = true)
    (cwd_base cfg ;; for_each dirs fallback_step).
Proof.
  rewrite cwd_base_send. apply emits_bind; [by apply emits_send | intros _].
  apply emits_for_each. intros d. unfold fallback_step.
  apply emits_try_except; [by apply emits_send | intros _].
  apply emits_bind; [by apply emits_send | intros _; by apply emits_send].
Qed.

Lemma primary_emits (cfg : ftp_config) (remote : string) :
  emits (fun e => navigating e = true)
    (create_remote_dirs cfg remote ;; cwd_base cfg).
Proof.
  apply emits_bind; [apply create_remote_dirs_emits | intros _].
  rewrite cwd_base_send. by apply emits_send.
Qed.

Lemma upload_primary_attempt fs cfg file remote s :
  upload_primary fs cfg file remote s
  = ((create_remote_dirs cfg remote ;; cwd_base cfg) ;;
     store fs file remote ;; ret true) s.
Proof. unfold upload_primary. by rewrite bind_assoc_run. Qed.

Lemma upload_fallback_attempt fs cfg file remote s :
  upload_fallback fs cfg file remote s
  = ((cwd_base cfg ;; for_each (remote_dirs remote) fallback_step) ;;
     store fs file (bare_name remote) ;; ret true) s.
Proof.
  unfold upload_fallback. rewrite removelast_short, fallback_name.
  by rewrite bind_assoc_run.
Qed.

Lemma provision_script_no_stor dirs tr b :
  provision_script dirs tr b -> List.filter is_stor tr = [].
Proof. induction 1; simpl; done. Qed.

Lemma store_script_one_stor file name data tr b :
  store_script file name data tr b -> length (List.filter is_stor tr) <= 1.
Proof. inversion 1; simpl; lia. Qed.

Lemma fallback_script_one_stor base dirs file name data tr b :
  fallback_script base dirs file name data tr b ->
  length (List.filter is_stor tr) <= 1.
Proof.
  inversion 1 as [e | tr1 Hp | tr1 tr2 b' Hp Hs]; subst; simpl.
  - lia.
  - rewrite (provision_script_no_stor _ _ _ Hp). simpl. lia.
  - rewrite List.filter_app, (provision_script_no_stor _ _ _ Hp). simpl.
    by eapply store_script_one_stor.
Qed.

(** The fallback follows its script. *)
Lemma fallback_run fs cfg file remote s r s' :
  upload_fallback fs cfg file remote s = (r, s') ->
  exists tr b,
    log s' = log s ++ tr
    /\ self s' = self s
    /\ fallback_script (base_dir cfg) (remote_dirs remote) file
         (bare_name remote) (os_open fs file) tr b
    /\ (if b then r = Val true else exists e, r = Raise e).
Proof.
  unfold upload_fallback. rewrite removelast_short, fallback_name, cwd_base_send.
  fold (remote_dirs remote). rewrite bind_run, send_run. cbn [fst snd].
  destruct (respond (server s) (CWD (base_dir cfg))) as [[|e] srv1];
    cbn [fst snd]; intros Hrun.
  - rewrite bind_run in Hrun.
    destruct (for_each (remote_dirs remote) fallback_step _) as [r1 s1] eqn:Hprov.
    apply provision_run in Hprov as [tr [b [Hlog [Hself [Hscript Hres]]]]].
    cbn [log self] in Hlog, Hself.
    destruct b.
    + subst r1. rewrite bind_run in Hrun.
      destruct (store_run fs file (bare_name remote) s1)
        as [tr' [b' [Hlog' [Hself' [Hscript' Hres']]]]].
      destruct (store fs file (bare_name remote) s1) as [r2 s2].
      cbn [fst snd] in *. destruct b'.
      * subst r2. inversion Hrun; subst.
        exists (Sent (CWD (base_dir cfg)) Done :: tr ++ tr'), true.
        rewrite Hlog', Hlog, <- !app_assoc.
        split; [done|]. split; [congruence|].
        split; [by eapply fallback_store | done].
      * destruct Hres' as [e' ->]. inversion Hrun; subst.
        exists (Sent (CWD (base_dir cfg)) Done :: tr ++ tr'), false.
        rewrite Hlog', Hlog, <- !app_assoc.
        split; [done|]. split; [congruence|].
        split; [by eapply fallback_store | by exists e'].
    + destruct Hres as [e' ->]. inversion Hrun; subst.
      exists (Sent (CWD (base_dir cfg)) Done :: tr), false.
      rewrite Hlog, <- !app_assoc.
      split; [done|]. split; [done|].
      split; [by apply fallback_no_dirs | by exists e'].
  - inversion Hrun; subst.
    exists [Sent (CWD (base_dir cfg)) (Failed e)], false. cbn [log self].
    split; [done|]. split; [done|].
    split; [by constructor | by exists e].
Qed.

(** *** The server's answers *)

Lemma answered_app srv1 tr1 srv2 tr2 srv3 :
  answered srv1 tr1 srv2 -> answered srv2 tr2 srv3 ->
  answered srv1 (tr1 ++ tr2) srv3.
Proof.
  induction 1 as [srv | srv c tr srv' _ IH | srv e tr srv' He _ IH];
    intros H2; [done | |].
  - simpl. constructor. by apply IH.
  - simpl. constructor; [done | by apply IH].
Qed.

Lemma honest_ret {A} (a : A) : honest (ret a).
Proof. intros s. exists []. split; [by rewrite app_nil_r | constructor]. Qed.

Lemma honest_raise {A} (e : exn) : honest (raise e : M A).
Proof. intros s. exists []. split; [by rewrite app_nil_r | constructor]. Qed.

Lemma honest_tell (e : event) : is_sent e = false -> honest (tell e).
Proof.
  intros He s. exists [e]. split; [done|]. constructor; [done | constructor].
Qed.

Lemma honest_send (c : cmd) : honest (send c).
Proof.
  intros s. rewrite send_run. cbn [fst snd log server].
  exists [Sent c (respond (server s) c).1]. split; [done|].
  constructor. constructor.
Qed.

Lemma honest_bind {A B} (m : M A) (k : A -> M B) :
  honest m -> (forall a, honest (k a)) -> honest (m ≫= k).
Proof.
  intros Hm Hk s. rewrite bind_run. destruct (Hm s) as [tr1 [Hlog1 Ha1]].
  destruct (m s) as [[a|e] s1]; cbn [fst snd] in *; [|by exists tr1].
  destruct (Hk a s1) as [tr2 [Hlog2 Ha2]]. exists (tr1 ++ tr2).
  split; [by rewrite Hlog2, Hlog1, app_assoc | by eapply answered_app].
Qed.

Lemma honest_try_except {A} (m : M A) (h : exn -> M A) :
  honest m -> (forall e, honest (h e)) -> honest (try_except m h).
Proof.
  intros Hm Hh s. unfold try_except. destruct (Hm s) as [tr1 [Hlog1 Ha1]].
  destruct (m s) as [[a|e] s1]; cbn [fst snd] in *; [by exists tr1|].
  destruct (Hh e s1) as [tr2 [Hlog2 Ha2]]. exists (tr1 ++ tr2).
  split; [by rewrite Hlog2, Hlog1, app_assoc | by eapply answered_app].
Qed.

Lemma honest_for_each {A} (l : list A) (body : A -> M unit) :
  (forall x, honest (body x)) -> honest (for_each l body).
Proof.
  intros Hb. induction l as [|x l IH]; [apply honest_ret|].
  cbn [for_each]. apply honest_bind; [apply Hb | by intros _].
Qed.

Lemma honest_store fs (file name : string) : honest (store fs file name).
Proof.
  unfold store. destruct (os_open fs file); [apply honest_send|].
  apply honest_bind; [by apply honest_tell | intros _; apply honest_raise].
Qed.

Lemma honest_create_remote_dirs cfg (remote : string) :
  honest (create_remote_dirs cfg remote).
Proof.
  unfold create_remote_dirs. rewrite cwd_base_send.
  apply honest_bind; [apply honest_send | intros _].
  apply honest_for_each. intros d.
  apply honest_try_except; [apply honest_send | intros _].
  apply honest_try_except; [|intros _; apply honest_ret].
  apply honest_bind; [apply honest_send | intros _; apply honest_send].
Qed.

Lemma honest_upload_primary fs cfg (file remote : string) :
  honest (upload_primary fs cfg file remote).
Proof.
  unfold upload_primary.
  apply honest_bind; [apply honest_create_remote_dirs | intros _].
  apply honest_bind; [rewrite cwd_base_send; apply honest_send | intros _].
  apply honest_bind; [apply honest_store | intros _; apply honest_ret].
Qed.

Lemma honest_upload_fallback fs cfg (file remote : string) :
  honest (upload_fallback fs cfg file remote).
Proof.
  unfold upload_fallback.
  apply honest_bind; [rewrite cwd_base_send; apply honest_send | intros _].
  apply honest_bind.
  - apply honest_for_each. intros d. unfold fallback_step.
    apply honest_try_except; [apply honest_send | intros _].
    apply honest_bind; [apply honest_send | intros _; apply honest_send].
  - intros _. apply honest_bind; [apply honest_store | intros _; apply honest_ret].
Qed.

Lemma honest_upload_file fs cfg (file remote_file : string) :
  honest (upload_file fs cfg file remote_file).
Proof.
  unfold upload_file.
  apply honest_bind; [by apply honest_tell | intros _].
  apply honest_try_except; [apply honest_upload_primary | intros _].
  apply honest_try_except; [apply honest_upload_fallback | intros _].
  apply honest_ret.
Qed.

(** C2. [upload_file] returns a boolean and never raises, and every reply
    in its trace is the server's answer to a command that was sent.  When
    the first attempt, which ends with the [STOR] of the whole remote path,
    succeeds, the result is [True].  When it fails, at whatever step, the
    session goes through the fallback once, from the state the server is
    then in: [cwd] to the base directory, then for each directory segment
    of the remote path [cwd], with [mkd] and [cwd] where that fails, then
    the [STOR] of the file under its bare name; these commands are sent to
    the server and the script follows its replies; at most one [STOR] is
    sent in it; the result is [True] when that [STOR] is accepted and
    [False] when any step of the fallback fails. *)
Theorem upload_file_fallback fs cfg (file remote_file : string) s :
  let remote := Py.replace_backslash remote_file in
  let s0 := record (UploadFile remote_file) s in
  exists b s',
    upload_file fs cfg file remote_file s = (Val b, s')
    /\ answered (server s) (events_since s s') (server s')
    /\ match upload_primary fs cfg file remote s0 with
       | (Val _, s1) =>
           b = true /\ s' = s1
           /\ exists tr d,
                os_open fs file = Some d
                /\ log s1 = log s0 ++ tr ++ [Sent (STOR remote d) Done]
                /\ Forall (fun e => navigating e = true) tr
       | (Raise _, s1) =>
           exists tr,
             log s' = log s1 ++ tr
             /\ self s' = self s
             /\ fallback_script (base_dir cfg) (remote_dirs remote) file
                  (bare_name remote) (os_open fs file) tr b
             /\ answered (server s1) tr (server s')
             /\ length (List.filter is_stor tr) <= 1
       end.
Proof.
  intros remote s0.
  destruct (honest_upload_file fs cfg file remote_file s) as [trall [Hlogall Hall]].
  unfold upload_file in *. rewrite bind_run in *.
  change (tell (UploadFile remote_file) s) with (Val tt, s0) in *.
  fold remote in Hlogall, Hall |- *.
  unfold try_except at 1. unfold try_except at 1 in Hlogall.
  unfold try_except at 1 in Hall.
  pose proof (attempt_run fs (create_remote_dirs cfg remote ;; cwd_base cfg)
                file remote s0 (primary_emits cfg remote)) as Hprim.
  cbn zeta in Hprim. rewrite <- upload_primary_attempt in Hprim.
  destruct (upload_primary fs cfg file remote s0) as [[b1|e1] s1];
    cbn [fst snd] in Hprim.
  - destruct Hprim as [_ [tr [Hlog [[Hb [tr0 [d [Hopen [-> Hnav]]]]] | [[e He] _]]]]];
      [|done].
    inversion Hb; subst b1. exists true, s1. split; [done|].
    cbn [fst snd] in Hlogall, Hall.
    split; [by rewrite (events_since_app _ _ _ Hlogall)|].
    split; [done|]. split; [done|]. by exists tr0, d.
  - destruct Hprim as [Hself1 _]. unfold try_except in *.
    destruct (honest_upload_fallback fs cfg file remote s1) as [trf [Hlogf Hansf]].
    destruct (upload_fallback fs cfg file remote s1) as [r2 s2] eqn:Hfb.
    apply fallback_run in Hfb as [tr [b [Hlog [Hself [Hscript Hres]]]]].
    cbn [fst snd] in Hlogf, Hansf.
    assert (trf = tr) as -> by (apply (app_inv_head (log s1)); congruence).
    assert (self s2 = self s) as Hself2 by (rewrite Hself, Hself1; done).
    destruct b.
    + subst r2. cbn [fst snd] in Hlogall, Hall. exists true, s2.
      split; [done|]. split; [by rewrite (events_since_app _ _ _ Hlogall)|].
      exists tr. split; [done|]. split; [done|]. split; [done|].
      split; [done|]. by eapply fallback_script_one_stor.
    + destruct Hres as [e ->]. cbn [fst snd ret] in Hlogall, Hall.
      exists false, s2. split; [done|].
      split; [by rewrite (events_since_app _ _ _ Hlogall)|].
      exists tr. split; [done|]. split; [done|]. split; [done|].
      split; [done|]. by eapply fallback_script_one_stor.
Qed.

(** *** upload_file *)

Lemma calm_quiet tr :
  Forall (fun e => calm e = true) tr ->
  uploads tr = [] /\ existsb stored tr = false
  /\ Forall (fun e => reporting e = false) tr.
Proof.
  induction 1 as [|e tr He _ [IH1 [IH2 IH3]]]; [done|].
  unfold uploads in *. simpl. rewrite IH2.
  split; [|split]; [| |constructor; [|done]]; by destruct e as [[] []| | |].
Qed.

Lemma uploads_app tr1 tr2 : uploads (tr1 ++ tr2) = uploads tr1 ++ uploads tr2.
Proof. unfold uploads. by rewrite omap_app. Qed.

(** A call of [upload_file] returns; its trace begins with its own mark and
    has no other; it returns [True] exactly when a [STOR] was accepted. *)
Lemma upload_file_run fs cfg (file remote_file : string) s :
  exists b s' tr,
    upload_file fs cfg file remote_file s = (Val b, s')
    /\ self s' = self s
    /\ log s' = log s ++ UploadFile remote_file :: tr
    /\ uploads tr = []
    /\ existsb stored tr = b
    /\ Forall (fun e => reporting e = false) tr.
Proof.
  unfold upload_file. rewrite bind_run.
  change (tell (UploadFile remote_file) s)
    with (Val tt, record (UploadFile remote_file) s).
  set (s0 := record (UploadFile remote_file) s).
  set (remote := Py.replace_backslash remote_file).
  unfold try_except at 1.
  pose proof (attempt_run fs (create_remote_dirs cfg remote ;; cwd_base cfg)
                file remote s0 (primary_emits cfg remote)) as Hprim.
  cbn zeta in Hprim. rewrite <- upload_primary_attempt in Hprim.
  destruct (upload_primary fs cfg file remote s0) as [r1 s1].
  cbn [fst snd] in Hprim. destruct Hprim as [Hself1 [tr1 [Hlog1 Hcase1]]].
  destruct Hcase1 as [[-> [tr0 [d [_ [-> Hnav]]]]] | [[e1 ->] Hcalm1]].
  - exists true, s1, (tr0 ++ [Sent (STOR remote d) Done]).
    split; [done|]. split; [done|].
    split; [by rewrite Hlog1; unfold s0; simpl; rewrite <- app_assoc|].
    assert (Forall (fun e => calm e = true) tr0) as Hcalm
      by (eapply Forall_impl; [exact Hnav | apply navigating_calm]).
    apply calm_quiet in Hcalm as [Hu [Hs Hr]].
    rewrite uploads_app, Hu, existsb_app, Hs.
    split; [done|]. split; [done|]. apply Forall_app. split; [done|].
    by constructor.
  - unfold try_except.
    pose proof (attempt_run fs
                  (cwd_base cfg ;; for_each (remote_dirs remote) fallback_step)
                  file (bare_name remote) s1
                  (fallback_emits cfg (remote_dirs remote))) as Hfb.
    cbn zeta in Hfb. rewrite <- upload_fallback_attempt in Hfb.
    destruct (upload_fallback fs cfg file remote s1) as [r2 s2].
    cbn [fst snd] in Hfb. destruct Hfb as [Hself2 [tr2 [Hlog2 Hcase2]]].
    apply calm_quiet in Hcalm1 as [Hu1 [Hs1 Hr1]].
    destruct Hcase2 as [[-> [tr0 [d [_ [-> Hnav]]]]] | [[e2 ->] Hcalm2]].
    + exists true, s2, (tr1 ++ tr0 ++ [Sent (STOR (bare_name remote) d) Done]).
      split; [done|]. split; [by rewrite Hself2, Hself1|].
      split; [by rewrite Hlog2, Hlog1; unfold s0; simpl; rewrite <- !app_assoc|].
      assert (Forall (fun e => calm e = true) tr0) as Hcalm
        by (eapply Forall_impl; [exact Hnav | apply navigating_calm]).
      apply calm_quiet in Hcalm as [Hu [Hs Hr]].
      rewrite !uploads_app, Hu1, Hu, !existsb_app, Hs1, Hs.
      split; [done|]. split; [done|]. rewrite !Forall_app.
      split; [done|]. split; [done|]. by constructor.
    + exists false, s2, (tr1 ++ tr2).
      split; [done|]. split; [by rewrite Hself2, Hself1|].
      split; [by rewrite Hlog2, Hlog1; unfold s0; simpl; rewrite <- !app_assoc|].
      apply calm_quiet in Hcalm2 as [Hu2 [Hs2 Hr2]].
      rewrite uploads_app, Hu1, Hu2, existsb_app, Hs1, Hs2.
      split; [done|]. split; [done|]. by apply Forall_app.
Qed.

(** *** The loop *)

Lemma upload_outcomes_run fs cfg (files : list string) s :
  exists tr,
    (upload_outcomes fs cfg files s).1.*1 = files
    /\ self (upload_outcomes fs cfg files s).2 = self s
    /\ log (upload_outcomes fs cfg files s).2 = log s ++ tr
    /\ uploads tr = files
    /\ existsb stored tr = existsb (fun o => o.2) (upload_outcomes fs cfg files s).1
    /\ Forall (fun e => reporting e = false) tr.
Proof.
  revert s. induction files as [|file rest IH]; intros s.
  - exists []. simpl. by rewrite app_nil_r.
  - cbn [upload_outcomes].
    destruct (upload_file_run fs cfg file file s)
      as [b [s1 [tr1 [-> [Hself [Hlog [Hu [Hs Hr]]]]]]]].
    destruct (IH s1) as [tr [Hfiles [Hself' [Hlog' [Hu' [Hs' Hr']]]]]].
    destruct (upload_outcomes fs cfg rest s1) as [out s2]. cbn [fst snd] in *.
    exists (UploadFile file :: tr1 ++ tr).
    split; [by rewrite fmap_cons, Hfiles|]. split; [congruence|].
    split; [by rewrite Hlog', Hlog, <- app_assoc|].
    split; [|split].
    + change (UploadFile file :: tr1 ++ tr) with ([UploadFile file] ++ tr1 ++ tr).
      rewrite !uploads_app, Hu, Hu'. done.
    + cbn [existsb stored]. rewrite existsb_app, Hs, Hs'. done.
    + constructor; [done|]. by apply Forall_app.
Qed.

(** The loop counts the calls that returned [True] and lists the files of
    the others; it does not raise. *)
Lemma upload_loop_run fs cfg (l : list (string * change_type))
    (success : nat) (failed_files : list string) s :
  upload_loop fs cfg l success failed_files s
  = (Val (success + successes (upload_outcomes fs cfg l.*1 s).1,
          failed_files ++ failures (upload_outcomes fs cfg l.*1 s).1),
     (upload_outcomes fs cfg l.*1 s).2).
Proof.
  revert success failed_files s.
  induction l as [|[file ct] rest IH]; intros success failed_files s.
  - unfold successes, failures. simpl. by rewrite Nat.add_0_r, app_nil_r.
  - cbn [upload_loop]. rewrite bind_run, fmap_cons. cbn [fst upload_outcomes].
    destruct (upload_file_run fs cfg file file s)
      as [b [s1 [tr1 [-> _]]]].
    destruct b; rewrite IH;
      destruct (upload_outcomes fs cfg rest.*1 s1) as [out s2];
      unfold successes, failures; cbn [fst snd List.filter negb length fmap list_fmap].
    + by rewrite Nat.add_succ_comm.
    + by rewrite <- app_assoc.
Qed.

(** *** sync_changes, step by step *)

Lemma report_run (total success : nat) (failed_files : list string) s :
  report total success failed_files s
  = (Val tt, {| self := self s; server := server s;
                log := log s ++ report_messages total success failed_files |}).
Proof.
  unfold report, report_messages. destruct (success =? total)%nat; [done|].
  rewrite bind_run. unfold tell, record. cbn [self server log].
  destruct failed_files as [|f l]; [done|].
  cbn [self server log]. by rewrite <- app_assoc.
Qed.

Lemma conclude_run fs (total success : nat) (failed_files : list string) s :
  conclude fs total success failed_files s
  = (Val (success, failed_files), concluded fs total success failed_files s).
Proof.
  unfold conclude, concluded. rewrite bind_run, report_run, bind_run.
  destruct (0 <? success)%nat.
  - rewrite bind_run. unfold tell, record. cbn [self server log].
    rewrite bind_run. unfold do_scan. cbn [self server log].
    destruct (scan_folder fs true (self s)) as [w v]. cbn [fst].
    unfold ret. by rewrite <- app_assoc.
  - unfold ret. by rewrite app_nil_r.
Qed.

Lemma do_scan_false fs s :
  do_scan fs false s = (Val (scan_folder fs false (self s)).2, s).
Proof. destruct s as [w srv lg]. unfold do_scan, scan_folder. done. Qed.

Lemma sync_changes_run fs cfg (confirm : string) s :
  let v := (scan_folder fs false (self s)).2 in
  let total := (length (changes_new v) + length (changes_modified v))%nat in
  sync_changes fs cfg confirm s
  = match changes_new v ++ changes_modified v with
    | [] => (Val None, record (Say UpToDate) s)
    | _ :: _ =>
        if String.eqb (Py.lower confirm) "y"
        then sync_session fs cfg v (record (Say (FoundChanges total)) s)
        else (Val None,
              record (Say SyncCancelled) (record (Say (FoundChanges total)) s))
    end.
Proof.
  intros v total. unfold sync_changes. rewrite bind_run, do_scan_false.
  fold v. fold total.
  assert ((tell (Say (FoundChanges total)) ;;
           if negb (String.eqb (Py.lower confirm) "y")
           then tell (Say SyncCancelled) ;; ret None
           else ftp ← connect_ftp cfg;
                if negb ftp then ret None
                else try_finally
                       (try_except (r ← sync_body fs cfg v; ret (Some r))
                          (fun _ => tell (Say SyncError) ;; ret None))
                       (send QUIT)) s
          = if String.eqb (Py.lower confirm) "y"
            then sync_session fs cfg v (record (Say (FoundChanges total)) s)
            else (Val None,
                  record (Say SyncCancelled)
                    (record (Say (FoundChanges total)) s))) as Hrest.
  { rewrite bind_run. cbn [tell].
    destruct (String.eqb (Py.lower confirm) "y"); cbn [negb]; [|done].
    rewrite bind_run. unfold sync_session. fold total.
    destruct (connect_ftp cfg _) as [[[|]|e] s2]; cbn [negb]; [|done|done].
    unfold try_finally, try_except, sync_body. fold total.
    rewrite bind_run, bind_run.
    destruct (enter_base cfg s2) as [[[]|e] s3].
    - rewrite bind_run, upload_loop_run, conclude_run. done.
    - done. }
  destruct (changes_new v) as [|a l] eqn:Hn.
  - destruct (changes_modified v) as [|b l'] eqn:Hm; [done|].
    cbn [app]. apply Hrest.
  - cbn [app]. destruct (changes_modified v); apply Hrest.
Qed.

(** *** Failure to connect *)

Lemma connecting_idle (e : event) : connecting e = true -> idle e = true.
Proof. by destruct e as [c r| | |[]]. Qed.

Lemma idle_no_upload (e : event) : idle e = true -> upload_event e = false.
Proof. by destruct e as [[] r| | |]. Qed.

(** C7. When the server does not let the session be established,
    [sync_changes] returns at once: the [FolderWatcher] object, with the
    fingerprints it holds and those of its configuration file, is as
    before, and the trace of the run has only messages and commands of the
    handshake, so no upload was begun and no [STOR] sent. *)
Theorem connection_failure_aborts fs cfg (confirm : string) s :
  established cfg (server s) = false ->
  (sync_changes fs cfg confirm s).1 = Val None
  /\ self (sync_changes fs cfg confirm s).2 = self s
  /\ grows s (sync_changes fs cfg confirm s).2
  /\ Forall (fun e => idle e = true /\ upload_event e = false)
       (events_since s (sync_changes fs cfg confirm s).2).
Proof.
  intros Hest.
  assert (forall e, idle e = true -> idle e = true /\ upload_event e = false)
    as Hidle by (intros e He; split; [done | by apply idle_no_upload]).
  rewrite sync_changes_run. cbn zeta.
  set (v := (scan_folder fs false (self s)).2).
  set (total := (length (changes_new v) + length (changes_modified v))%nat).
  destruct (changes_new v ++ changes_modified v) as [|a l].
  - cbn [fst snd]. rewrite events_since_record.
    split; [done|]. split; [done|].
    split; [by apply (grows_app _ _ [Say UpToDate])|].
    constructor; [by apply Hidle | done].
  - destruct (String.eqb (Py.lower confirm) "y").
    + unfold sync_session.
      set (s1 := record (Say (FoundChanges total)) s).
      pose proof (connect_ftp_result cfg s1) as Hres.
      destruct (connect_ftp_emits cfg s1) as [Hself [Hg Hev]].
      change (server s1) with (server s) in Hres. rewrite Hest in Hres.
      destruct (connect_ftp cfg s1) as [r s2]. cbn [fst snd] in *. subst r.
      assert (grows s s1) as Hg1 by by apply (grows_app _ _ [Say (FoundChanges total)]).
      cbn [fst snd].
      split; [done|]. split; [done|]. split; [by eapply grows_trans|].
      rewrite (events_since_trans s s1 s2) by done.
      unfold s1 at 1. rewrite events_since_record.
      constructor; [by apply Hidle|].
      eapply Forall_impl; [exact Hev|]. intros e He.
      by apply Hidle, connecting_idle.
    + cbn [fst snd]. split; [done|]. split; [done|].
      assert (log (record (Say SyncCancelled) (record (Say (FoundChanges total)) s))
              = log s ++ [Say (FoundChanges total); Say SyncCancelled]) as Hlog
        by (simpl; by rewrite <- app_assoc).
      split; [by eapply grows_app|].
      rewrite (events_since_app _ _ _ Hlog).
      repeat constructor.
Qed.

(** *** The two kinds of run *)

Lemma enter_base_emits (cfg : ftp_config) :
  emits (fun e => navigating e = true) (enter_base cfg).
Proof.
  unfold enter_base. destruct (negb _); [|apply emits_ret].
  apply emits_try_except; [by apply emits_send | intros _].
  apply emits_bind; [apply create_remote_dirs_emits | intros _].
  by apply emits_send.
Qed.

Lemma connecting_quiet (e : event) : connecting e = true -> quiet e = true.
Proof. by destruct e as [[] []| | |[]]. Qed.

Lemma navigating_quiet (e : event) : navigating e = true -> quiet e = true.
Proof. by destruct e as [[] []| | |[]]. Qed.

Lemma quiet_facts tr :
  Forall (fun e => quiet e = true) tr ->
  uploads tr = [] /\ existsb stored tr = false
  /\ List.filter reporting tr = [].
Proof.
  induction 1 as [|e tr He _ [IH1 [IH2 IH3]]]; [done|].
  unfold uploads in *. simpl. rewrite IH2, IH3.
  by destruct e as [[] []| | |[]].
Qed.

Lemma report_messages_facts (total success : nat) (failed_files : list string) :
  uploads (report_messages total success failed_files) = []
  /\ existsb stored (report_messages total success failed_files) = false
  /\ List.filter reporting (report_messages total success failed_files)
     = report_messages total success failed_files.
Proof.
  unfold report_messages. destruct (success =? total)%nat; [done|].
  by destruct failed_files.
Qed.

Lemma not_reporting_filter tr :
  Forall (fun e => reporting e = false) tr -> List.filter reporting tr = [].
Proof. induction 1 as [|e tr He _ IH]; [done|]. simpl. by rewrite He. Qed.

Lemma all_files_fst (v : scan_vars) : (all_files v).*1 = changed v.
Proof.
  unfold all_files, changed. rewrite fmap_app. f_equal.
  - induction (changes_new v) as [|a l IH]; [done|].
    cbn [map]. rewrite fmap_cons. cbn [fst]. by rewrite IH.
  - induction (changes_modified v) as [|a l IH]; [done|].
    cbn [map]. rewrite fmap_cons. cbn [fst]. by rewrite IH.
Qed.

Lemma quit_after_run {A} (res : A) s :
  quit_after res s
  = (match (respond (server s) QUIT).1 with
     | Done => Val res
     | Failed e => Raise e
     end,
     {| self := self s; server := (respond (server s) QUIT).2;
        log := log s ++ [Sent QUIT (respond (server s) QUIT).1] |}).
Proof.
  unfold quit_after. rewrite send_run.
  by destruct ((respond (server s) QUIT).1).
Qed.

(** The state in which the loop begins. *)
Lemma entered_facts fs cfg s :
  self (entered fs cfg s) = self s
  /\ grows s (entered fs cfg s)
  /\ Forall (fun e => quiet e = true) (events_since s (entered fs cfg s)).
Proof.
  unfold entered, connected.
  destruct (connect_ftp_emits cfg (announced fs s)) as [Hself2 [Hg2 Hev2]].
  destruct (enter_base_emits cfg (connect_ftp cfg (announced fs s)).2)
    as [Hself3 [Hg3 Hev3]].
  assert (grows s (announced fs s)) as Hg1 by by eapply grows_app.
  assert (grows s (connect_ftp cfg (announced fs s)).2) as Hg12
    by by eapply grows_trans.
  split; [by rewrite Hself3, Hself2|]. split; [by eapply grows_trans|].
  rewrite (events_since_trans s (connect_ftp cfg (announced fs s)).2) by done.
  rewrite (events_since_trans s (announced fs s)) by done.
  unfold announced at 1. rewrite events_since_record.
  rewrite !Forall_app. split; [split|].
  - by repeat constructor.
  - eapply Forall_impl; [exact Hev2 | apply connecting_quiet].
  - eapply Forall_impl; [exact Hev3 | apply navigating_quiet].
Qed.

Lemma successes_positive (out : list (string * bool)) :
  (0 <? successes out)%nat = existsb (fun o => o.2) out.
Proof.
  unfold successes. induction out as [|[f b] out IH]; [done|].
  simpl. destruct b; [done|]. by rewrite <- IH.
Qed.

Lemma successes_failures (out : list (string * bool)) :
  (successes out + length (failures out) = length out)%nat.
Proof.
  unfold successes, failures. rewrite length_fmap.
  induction out as [|[f b] out IH]; [done|].
  simpl. destruct b; simpl; lia.
Qed.

(** A run that gets to the loop. *)
Lemma sync_changes_uploading fs cfg (confirm : string) s :
  reaches_uploads fs cfg confirm s ->
  let out := outcomes fs cfg s in
  let res := sync_changes fs cfg confirm s in
  grows s res.2
  /\ uploads (events_since s res.2) = changed (found fs s)
  /\ existsb stored (events_since s res.2) = (0 <? successes out)%nat
  /\ List.filter reporting (events_since s res.2)
     = report_messages (total_of (found fs s)) (successes out) (failures out)
  /\ self res.2 = (if (0 <? successes out)%nat
                   then (scan_folder fs true (self s)).1 else self s)
  /\ out.*1 = changed (found fs s)
  /\ exists q,
       List.last (events_since s res.2) (Say SyncError) = Sent QUIT q
       /\ res.1 = match q with
                  | Done => Val (Some (successes out, failures out))
                  | Failed e => Raise e
                  end.
Proof.
  intros [Hch [Hyes [Hest Hent]]] out res. subst out res. unfold outcomes.
  rewrite sync_changes_run. cbn zeta. fold (found fs s).
  fold (changed (found fs s)). fold (total_of (found fs s)).
  destruct (changed (found fs s)) as [|a l] eqn:Hchanged; [done|].
  destruct (String.eqb_spec (Py.lower confirm) "y") as [_|Hno]; [|done].
  unfold sync_session. fold (total_of (found fs s)). fold (announced fs s).
  pose proof (connect_ftp_result cfg (announced fs s)) as Hres.
  change (server (announced fs s)) with (server s) in Hres.
  rewrite Hest in Hres.
  destruct (entered_facts fs cfg s) as [Hself3 [Hg3 Hq3]].
  unfold entered, connected in *.
  destruct (connect_ftp cfg (announced fs s)) as [r2 s2].
  cbn [fst snd] in *. subst r2.
  destruct (enter_base cfg s2) as [r3 s3]. cbn [fst snd] in *. subst r3.
  rewrite upload_loop_run, all_files_fst, Hchanged. cbn [Nat.add app].
  destruct (upload_outcomes_run fs cfg (a :: l) s3)
    as [tr [Hfst [Hself4 [Hlog4 [Hup [Hst Hrep]]]]]].
  destruct (upload_outcomes fs cfg (a :: l) s3) as [out s4].
  cbn [fst snd] in *. rewrite quit_after_run. cbn [fst snd].
  set (succ := successes out). set (failed := failures out).
  set (q := (respond (server (concluded fs (total_of (found fs s)) succ failed s4)) QUIT).1).
  set (post := if (0 <? succ)%nat then [Say UpdatingDatabase] else []).
  assert (log (concluded fs (total_of (found fs s)) succ failed s4)
          = log s ++ events_since s s3 ++ tr
              ++ report_messages (total_of (found fs s)) succ failed ++ post)
    as Hlog5.
  { unfold concluded. cbn [log]. rewrite Hlog4. unfold grows in Hg3.
    rewrite Hg3 at 1. by rewrite <- !app_assoc. }
  assert (forall srv,
            log {| self := self (concluded fs (total_of (found fs s)) succ failed s4);
                   server := srv;
                   log := log (concluded fs (total_of (found fs s)) succ failed s4)
                          ++ [Sent QUIT q] |}
            = log s ++ (events_since s s3 ++ tr
                 ++ report_messages (total_of (found fs s)) succ failed
                 ++ post ++ [Sent QUIT q])) as Hlog6.
  { intros srv. cbn [log]. rewrite Hlog5. by rewrite <- !app_assoc. }
  rewrite (events_since_app _ _ _ (Hlog6 _)).
  set (tl := post ++ [Sent QUIT q]).
  destruct (quiet_facts _ Hq3) as [Hu_pre [Hs_pre Hr_pre]].
  destruct (report_messages_facts (total_of (found fs s)) succ failed)
    as [Hu_rep [Hs_rep Hr_rep]].
  assert (uploads tl = [] /\ existsb stored tl = false
          /\ List.filter reporting tl = [])
    as [Hu_post [Hs_post Hr_post]].
  { apply quiet_facts. unfold tl, post.
    destruct (0 <? succ)%nat; by repeat constructor. }
  split; [by eapply grows_app|].
  split; [by rewrite !uploads_app, Hu_pre, Hup, Hu_rep, Hu_post, app_nil_r|].
  split.
  { rewrite !existsb_app, Hs_pre, Hst, Hs_rep, Hs_post.
    unfold succ. rewrite successes_positive. by rewrite orb_false_r. }
  split.
  { rewrite !List.filter_app, Hr_pre, (not_reporting_filter _ Hrep), Hr_rep,
      Hr_post. by rewrite app_nil_r. }
  split.
  { unfold concluded. cbn [self]. by rewrite Hself4, Hself3. }
  split; [done|].
  exists q. split; [|done].
  unfold tl. rewrite !app_assoc. apply last_last.
Qed.

(** A run that does not get to the loop. *)
Lemma sync_changes_idle fs cfg (confirm : string) s :
  ~ reaches_uploads fs cfg confirm s ->
  let res := sync_changes fs cfg confirm s in
  self res.2 = self s
  /\ grows s res.2
  /\ Forall (fun e => quiet e = true) (events_since s res.2).
Proof.
  intros Hnot res. subst res. rewrite sync_changes_run. cbn zeta.
  fold (found fs s). fold (changed (found fs s)). fold (total_of (found fs s)).
  destruct (changed (found fs s)) as [|a l] eqn:Hchanged.
  { cbn [fst snd]. rewrite events_since_record.
    split; [done|]. split; [by eapply grows_app|]. by repeat constructor. }
  destruct (String.eqb_spec (Py.lower confirm) "y") as [Hyes|Hno]; cycle 1.
  { cbn [fst snd].
    assert (log (record (Say SyncCancelled)
                   (record (Say (FoundChanges (total_of (found fs s)))) s))
            = log s ++ [Say (FoundChanges (total_of (found fs s)));
                        Say SyncCancelled]) as Hlog
      by (simpl; by rewrite <- app_assoc).
    split; [done|]. split; [by eapply grows_app|].
    rewrite (events_since_app _ _ _ Hlog). by repeat constructor. }
  unfold sync_session. fold (total_of (found fs s)). fold (announced fs s).
  pose proof (connect_ftp_result cfg (announced fs s)) as Hres.
  change (server (announced fs s)) with (server s) in Hres.
  destruct (entered_facts fs cfg s) as [Hself3 [Hg3 Hq3]].
  destruct (connect_ftp_emits cfg (announced fs s)) as [Hself2 [Hg2 Hev2]].
  assert (grows s (announced fs s)) as Hg1 by by eapply grows_app.
  assert (~ (established cfg (server s) = true
             /\ (enter_base cfg (connected fs cfg s)).1 = Val tt)) as Hnot'.
  { intros [? ?]. apply Hnot. unfold reaches_uploads. by rewrite Hchanged. }
  unfold entered, connected in *.
  destruct (connect_ftp cfg (announced fs s)) as [r2 s2].
  cbn [fst snd] in *. subst r2.
  destruct (established cfg (server s)).
  - destruct (enter_base cfg s2) as [[[]|e] s3]; cbn [fst snd] in *.
    { exfalso. by apply Hnot'. }
    rewrite quit_after_run. cbn [fst snd self].
    set (q := (respond (server (record (Say SyncError) s3)) QUIT).1).
    assert (forall srv,
              log {| self := self (record (Say SyncError) s3); server := srv;
                     log := log (record (Say SyncError) s3) ++ [Sent QUIT q] |}
              = log s ++ (events_since s s3 ++ [Say SyncError; Sent QUIT q]))
      as Hlog.
    { intros srv. cbn [log record]. unfold grows in Hg3. rewrite Hg3 at 1.
      by rewrite <- !app_assoc. }
    split; [done|]. split; [by eapply grows_app|].
    rewrite (events_since_app _ _ _ (Hlog _)).
    apply Forall_app. split; [done|]. by repeat constructor.
  - cbn [fst snd]. split; [done|]. split; [by eapply grows_trans|].
    rewrite (events_since_trans s (announced fs s) s2) by done.
    unfold announced at 1. rewrite events_since_record.
    constructor; [done|].
    eapply Forall_impl; [exact Hev2 | apply connecting_quiet].
Qed.

Lemma sync_changes_cases fs cfg (confirm : string) s :
  reaches_uploads fs cfg confirm s \/ ~ reaches_uploads fs cfg confirm s.
Proof.
  unfold reaches_uploads.
  destruct (changed (found fs s)) as [|a l]; [right; by intros [? _]|].
  destruct (String.eqb_spec (Py.lower confirm) "y") as [Hyes|Hno];
    [|right; by intros [_ [? _]]].
  destruct (established cfg (server s)); [|right; by intros [_ [_ [? _]]]].
  destruct ((enter_base cfg (connected fs cfg s)).1) as [[]|e].
  - by left.
  - right. by intros [_ [_ [_ ?]]].
Qed.

(** *** The claims on a run *)

Lemma scan_folder_saved fs (w : watcher) :
  (scan_folder fs true w).1
  = {| file_hashes := current_files (scan_folder fs true w).2;
       config_file_hashes := current_files (scan_folder fs true w).2 |}.
Proof. reflexivity. Qed.

(** C1. When a [STOR] was accepted in a run of [sync_changes] (so that a
    call of [upload_file] returned [True] and [success] is positive), the
    run ends with [self.file_hashes] and the ['file_hashes'] of the
    configuration file both equal to the whole [current_files] of a scan of
    the tree as it is, so with the fingerprint just computed for every
    visited file, whether its own upload succeeded or failed.  When no
    [STOR] was accepted, the [FolderWatcher] object and its configuration
    file are as before the run. *)
Theorem commit_follows_success fs cfg (confirm : string) s :
  let res := sync_changes fs cfg confirm s in
  let fresh := current_files (scan_folder fs true (self s)).2 in
  (existsb stored (events_since s res.2) = true ->
     file_hashes (self res.2) = fresh
     /\ config_file_hashes (self res.2) = fresh
     /\ (forall p f, wf_fs fs = true -> (p, f) ∈ visited fs ->
           config_file_hashes (self res.2) !! p = recorded fs (p, f)))
  /\ (existsb stored (events_since s res.2) = false -> self res.2 = self s)
  /\ (reaches_uploads fs cfg confirm s ->
        existsb stored (events_since s res.2)
        = (0 <? successes (outcomes fs cfg s))%nat).
Proof.
  intros res fresh.
  destruct (sync_changes_cases fs cfg confirm s) as [Hreach | Hidle].
  - destruct (sync_changes_uploading fs cfg confirm s Hreach)
      as [_ [_ [Hst [_ [Hself _]]]]].
    fold res in Hst, Hself. rewrite Hst, Hself.
    destruct (0 <? successes (outcomes fs cfg s))%nat.
    + split; [|split; [done | done]]. intros _.
      rewrite scan_folder_saved. cbn [file_hashes config_file_hashes].
      split; [done|]. split; [done|]. intros p f Hwf Hin.
      by apply scan_current_visited; [apply wf_distinct_paths|].
    + split; [done|]. split; done.
  - destruct (sync_changes_idle fs cfg confirm s Hidle) as [Hself [_ Hq]].
    fold res in Hself, Hq. apply quiet_facts in Hq as [_ [Hst _]].
    rewrite Hst. split; [done|]. split; [done|]. by intros ?.
Qed.

Lemma total_of_length (v : scan_vars) : total_of v = length (changed v).
Proof. unfold total_of, changed. by rewrite length_app. Qed.

(** C3, amended.  In a run that gets to the upload loop with N changed
    files, of which K calls of [upload_file] return [False]: every changed
    file is tried (no failure stops the loop); the run raises only if the
    final [QUIT] is refused, never for a failed upload; and what it reports
    is "All N files uploaded successfully!" when K is 0, and
    "Uploaded N-K/N files" followed by "K files failed to upload"
    otherwise: the numbers, not the paths of the files that failed. *)
Theorem partial_failures_accounted fs cfg (confirm : string) s :
  reaches_uploads fs cfg confirm s ->
  let out := outcomes fs cfg s in
  let N := length (changed (found fs s)) in
  let K := length (failures out) in
  let res := sync_changes fs cfg confirm s in
  out.*1 = changed (found fs s)
  /\ uploads (events_since s res.2) = changed (found fs s)
  /\ successes out = (N - K)%nat /\ (K <= N)%nat
  /\ (exists q,
        List.last (events_since s res.2) (Say SyncError) = Sent QUIT q
        /\ match q with
           | Done => exists v, res.1 = Val v
           | Failed e => res.1 = Raise e
           end)
  /\ List.filter reporting (events_since s res.2)
     = (if (K =? 0)%nat then [Say (AllUploaded N)]
        else [Say (UploadedOf (N - K) N); Say (FilesFailed K)]).
Proof.
  intros Hreach out N K res.
  destruct (sync_changes_uploading fs cfg confirm s Hreach)
    as [_ [Hup [_ [Hrep [_ [Hfst [q [Hlast Hres]]]]]]]].
  fold out res in Hup, Hrep, Hfst, Hlast, Hres.
  pose proof (successes_failures out) as Hsum. fold K in Hsum.
  assert (length out = N) as Hlen.
  { unfold N. rewrite <- Hfst. by rewrite length_fmap. }
  assert (successes out = (N - K)%nat) as Hsucc by lia.
  split; [done|]. split; [done|]. split; [done|]. split; [lia|].
  split.
  - exists q. split; [done|]. destruct q; [by eexists | done].
  - rewrite Hrep, total_of_length. fold N. rewrite Hsucc.
    unfold report_messages.
    destruct (Nat.eqb_spec K 0) as [HK|HK].
    + rewrite HK, Nat.sub_0_r, Nat.eqb_refl. done.
    + destruct (Nat.eqb_spec (N - K) N) as [Heq|_]; [lia|].
      fold K. destruct (failures out) eqn:Hf; [by subst K|]. done.
Qed.

(** C8, amended.  In a run that gets to the upload loop, [upload_file] is
    called once for each path of [changes['new']], in the order of the
    walk, and then once for each path of [changes['modified']], in the
    order of the walk; in a well-formed tree no path is uploaded twice. *)
Theorem uploads_new_then_modified fs cfg (confirm : string) s :
  reaches_uploads fs cfg confirm s ->
  wf_fs fs = true ->
  let v := found fs s in
  let res := sync_changes fs cfg confirm s in
  uploads (events_since s res.2) = changes_new v ++ changes_modified v
  /\ changes_new v
     = (List.filter (found_new fs (file_hashes (self s))) (visited fs)).*1
  /\ changes_modified v
     = (List.filter (found_modified fs (file_hashes (self s))) (visited fs)).*1
  /\ NoDup (uploads (events_since s res.2)).
Proof.
  intros Hreach Hwf v res. pose proof (wf_distinct_paths fs Hwf) as Hnd.
  destruct (sync_changes_uploading fs cfg confirm s Hreach) as [_ [Hup _]].
  fold res in Hup. rewrite Hup. unfold changed. fold v.
  split; [done|]. unfold v, found.
  split; [by rewrite scan_folder_vars, scan_loop_new|].
  split; [by rewrite scan_folder_vars, scan_loop_modified|].
  by apply scan_changed_NoDup.
Qed.

End Runs.

Section RunsExamples.
#[local] Existing Instance plain_runtime.

Lemma connection_failure_aborts_witness :
  (sync_changes Ex.two_files Ex.site "y" (Ex.offline Ex.stale)).1 = Val None
  /\ self (sync_changes Ex.two_files Ex.site "y" (Ex.offline Ex.stale)).2
     = Ex.stale.
Proof.
  destruct (connection_failure_aborts Ex.two_files Ex.site "y"
              (Ex.offline Ex.stale) eq_refl)
    as [Hres [Hself _]].
  split; [exact Hres | exact Hself].
Defined.

Lemma two_files_uploading (FTP : FtpServer) (w : watcher) (x : Server) :
  changed (found Ex.two_files (start w x)) <> [] ->
  established Ex.site x = true ->
  (enter_base Ex.site (connected Ex.two_files Ex.site (start w x))).1 = Val tt ->
  reaches_uploads Ex.two_files Ex.site "y" (start w x).
Proof. intros H1 H2 H3. split; [done|]. split; [done|]. by split. Qed.

Lemma flaky_uploading :
  reaches_uploads Ex.two_files Ex.site "y" (Ex.flaky ["a.txt"] Ex.stale).
Proof. apply two_files_uploading; by vm_compute. Qed.

Lemma online_uploading :
  reaches_uploads Ex.two_files Ex.site "y" (Ex.online Ex.stale).
Proof. apply two_files_uploading; by vm_compute. Qed.

(** One file is uploaded, the other is refused twice: the run reports one
    file of two uploaded, and one failed. *)
Lemma partial_failures_accounted_witness :
  List.filter reporting
    (events_since (Ex.flaky ["a.txt"] Ex.stale)
       (sync_changes Ex.two_files Ex.site "y" (Ex.flaky ["a.txt"] Ex.stale)).2)
  = [Say (UploadedOf 1 2); Say (FilesFailed 1)].
Proof.
  destruct (partial_failures_accounted Ex.two_files Ex.site "y"
              (Ex.flaky ["a.txt"] Ex.stale) flaky_uploading)
    as [_ [_ [_ [_ [_ Hrep]]]]].
  rewrite Hrep. by vm_compute.
Defined.

Lemma flaky_b_uploading :
  reaches_uploads Ex.two_files Ex.site "y" (Ex.flaky ["b.txt"] Ex.stale).
Proof. apply two_files_uploading; by vm_compute. Qed.

(** C3, as the specification states it, fails: the run does not report
    which files failed.  Two runs over the same two changed files, one
    against a server that refuses [a.txt] and one against a server that
    refuses [b.txt], print the same messages, and [sync_changes] returns
    nothing; so nothing that the run reports gives the list of the failed
    paths. *)
Lemma failed_list_unreported_counterexample :
  let run_a := sync_changes Ex.two_files Ex.site "y"
                 (Ex.flaky ["a.txt"] Ex.stale) in
  let run_b := sync_changes Ex.two_files Ex.site "y"
                 (Ex.flaky ["b.txt"] Ex.stale) in
  failures (outcomes Ex.two_files Ex.site (Ex.flaky ["a.txt"] Ex.stale))
  = ["a.txt"]
  /\ failures (outcomes Ex.two_files Ex.site (Ex.flaky ["b.txt"] Ex.stale))
     = ["b.txt"]
  /\ messages (log run_a.2) = messages (log run_b.2)
  /\ messages (log run_a.2)
     = [FoundChanges 2; UploadedOf 1 2; FilesFailed 1; UpdatingDatabase]
  /\ ~ (exists report : list message -> list string,
          report (messages (log run_a.2)) = ["a.txt"]
          /\ report (messages (log run_b.2)) = ["b.txt"]).
Proof.
  intros run_a run_b.
  assert (messages (log run_a.2) = messages (log run_b.2)) as Hsame
    by by vm_compute.
  split; [by vm_compute|]. split; [by vm_compute|]. split; [exact Hsame|].
  split; [by vm_compute|].
  intros [report [Ha Hb]]. rewrite Hsame in Ha. congruence.
Qed.

(** After that run the refused file is recorded with its new fingerprint,
    in place of the old one. *)
Example commit_records_failed_upload :
  config_file_hashes Ex.stale !! "a.txt" = Some "old"
  /\ config_file_hashes
       (self (sync_changes Ex.two_files Ex.site "y"
                (Ex.flaky ["a.txt"] Ex.stale)).2) !! "a.txt"
     = Some "hello55.0".
Proof. split; by vm_compute. Qed.

(** C8, as the specification states it, fails: the walk visits [a.txt],
    which is modified, before [b.txt], which is new, and the uploads are
    in the other order. *)
Lemma upload_order_counterexample :
  reaches_uploads Ex.two_files Ex.site "y" (Ex.online Ex.stale)
  /\ walk_order Ex.two_files (found Ex.two_files (Ex.online Ex.stale))
     = ["a.txt"; "b.txt"]
  /\ uploads
       (events_since (Ex.online Ex.stale)
          (sync_changes Ex.two_files Ex.site "y" (Ex.online Ex.stale)).2)
     = ["b.txt"; "a.txt"]
  /\ uploads
       (events_since (Ex.online Ex.stale)
          (sync_changes Ex.two_files Ex.site "y" (Ex.online Ex.stale)).2)
     <> walk_order Ex.two_files (found Ex.two_files (Ex.online Ex.stale)).
Proof.
  split; [exact online_uploading|].
  split; [by vm_compute|]. split; [by vm_compute|]. by vm_compute.
Qed.

Lemma uploads_new_then_modified_witness :
  uploads
    (events_since (Ex.online Ex.stale)
       (sync_changes Ex.two_files Ex.site "y" (Ex.online Ex.stale)).2)
  = ["b.txt"] ++ ["a.txt"].
Proof.
  assert (wf_fs Ex.two_files = true) as Hnd by by vm_compute.
  destruct (uploads_new_then_modified Ex.two_files Ex.site "y"
              (Ex.online Ex.stale) online_uploading Hnd) as [Hup _].
  rewrite Hup. by vm_compute.
Defined.

(** The first attempt is refused at its [STOR]; the fallback enters the
    directory again and stores the file under its bare name. *)
Lemma upload_file_fallback_witness :
  exists tr,
    fallback_script "/www" ["sub"] "sub/b.txt" "b.txt" (Some (text "bb")) tr true
    /\ tr = [Sent (CWD "/www") Done; Sent (CWD "sub") Done;
             Sent (STOR "b.txt" (text "bb")) Done].
Proof.
  destruct (upload_file_fallback Ex.posix_folder Ex.site "sub/b.txt" "sub/b.txt"
              (Ex.flaky ["sub/b.txt"] Ex.fresh))
    as [b [s' [Hrun [_ Hfall]]]].
  vm_compute in Hrun. injection Hrun as <- <-.
  vm_compute in Hfall. destruct Hfall as [tr [Hlog [_ [Hscript _]]]].
  exists tr. split; [exact Hscript|].
  by simplify_eq.
Defined.

(** The fallback at work: the server refuses the [STOR] of [sub/b.txt] and
    accepts that of [b.txt] in the directory [sub]. *)
Example fallback_stores_bare_name :
  let res := upload_file Ex.posix_folder Ex.site "sub/b.txt" "sub/b.txt"
               (Ex.flaky ["sub/b.txt"] Ex.fresh) in
  res.1 = Val true
  /\ log res.2
     = [UploadFile "sub/b.txt";
        Sent (CWD "/www") Done; Sent (CWD "sub") Done; Sent (CWD "/www") Done;
        Sent (STOR "sub/b.txt" (text "bb")) (Failed other_error);
        Sent (CWD "/www") Done; Sent (CWD "sub") Done;
        Sent (STOR "b.txt" (text "bb")) Done].
Proof. split; by vm_compute. Qed.

End RunsExamples.

(** * Further properties *)

(** ** Scans that follow one another *)

Section Rescan.
Context `{RT : Runtime}.
Implicit Types (fs : localfs) (w : watcher) (p : string) (f : file).

Lemma filter_none {A} (g : A -> bool) (l : list A) :
  (forall x, x ∈ l -> g x = false) -> List.filter g l = [].
Proof.
  induction l as [|x l IH]; intros H; [done|].
  simpl. rewrite (H x) by by left. apply IH. intros y Hy. apply H. by right.
Qed.

Lemma record_into_keeps fs l (m : gmap string string) p :
  is_Some (m !! p) -> is_Some (fold_left (record_into fs) l m !! p).
Proof.
  revert m. induction l as [|[q g] l IH]; intros m Hm; [done|].
  simpl. apply IH. unfold record_into.
  destruct (recorded fs (q, g)); [|done]. simpl.
  destruct (decide (q = p)) as [->|Hne].
  - rewrite lookup_insert_eq. by eexists.
  - by rewrite lookup_insert_ne.
Qed.

Lemma record_into_lookup_is_Some fs l (m : gmap string string) p f h :
  (p, f) ∈ l -> recorded fs (p, f) = Some h ->
  is_Some (fold_left (record_into fs) l m !! p).
Proof.
  revert m. induction l as [|[q g] l IH]; intros m Hin Hrec.
  - by apply elem_of_nil in Hin.
  - simpl. apply elem_of_cons in Hin as [Heq | Hin]; [|by eapply IH].
    inversion Heq; subst q g. apply record_into_keeps.
    unfold record_into. rewrite Hrec. simpl. rewrite lookup_insert_eq.
    by eexists.
Qed.

(** A watcher whose map holds the current fingerprint of every visited
    file finds no change. *)
Lemma scan_agreeing fs w (save : bool) :
  (forall p f h, (p, f) ∈ visited fs -> recorded fs (p, f) = Some h ->
     file_hashes w !! p = Some h) ->
  changed (scan_folder fs save w).2 = [].
Proof.
  intros Hprior. unfold changed.
  rewrite !scan_folder_vars, scan_loop_new, scan_loop_modified. simpl.
  rewrite !filter_none; [done | |].
  - intros [p f] Hin.
    destruct (found_modified fs (file_hashes w) (p, f)) eqn:Hmod; [|done].
    apply found_modified_recorded in Hmod as [h [old [Hrec [Hold Hne]]]].
    rewrite (Hprior p f h) in Hold by done. congruence.
  - intros [p f] Hin.
    destruct (found_new fs (file_hashes w) (p, f)) eqn:Hnew; [|done].
    apply found_new_recorded in Hnew as [[h Hrec] Hnone].
    rewrite (Hprior p f h) in Hnone by done. done.
Qed.

(** What a saving scan leaves in [self.file_hashes]. *)
Lemma scan_saved_agrees fs w p f h :
  distinct_paths fs -> (p, f) ∈ visited fs -> recorded fs (p, f) = Some h ->
  file_hashes (scan_folder fs true w).1 !! p = Some h.
Proof.
  intros Hnd Hin Hrec. rewrite scan_folder_saved. cbn [file_hashes].
  by rewrite (scan_current_visited fs true w p f).
Qed.

(** X1. After [scan_folder(save_changes=True)] on a well-formed tree, a scan
    of the same tree finds nothing new and nothing modified, whatever was
    tracked before. *)
Theorem rescan_finds_nothing fs w (save : bool) :
  wf_fs fs = true ->
  let w' := (scan_folder fs true w).1 in
  changes_new (scan_folder fs save w').2 = []
  /\ changes_modified (scan_folder fs save w').2 = [].
Proof.
  intros Hwf w'. apply app_eq_nil.
  apply (scan_agreeing fs w' save). intros p f h Hin Hrec.
  by apply (scan_saved_agrees fs w p f h); [apply wf_distinct_paths|..].
Qed.

(** X2. A scan by a watcher that tracks nothing (a new one, or one whose
    tracking was reset) reports no file as modified, and reports as new
    exactly the paths it has a fingerprint for. *)
Theorem fresh_scan_all_new fs w (save : bool) :
  file_hashes w = ∅ ->
  changes_modified (scan_folder fs save w).2 = []
  /\ forall p, p ∈ changes_new (scan_folder fs save w).2
              <-> is_Some (current_files (scan_folder fs save w).2 !! p).
Proof.
  intros Hempty. split.
  - rewrite scan_folder_vars, scan_loop_modified. simpl.
    rewrite filter_none; [done|]. intros [p f] _.
    destruct (found_modified fs (file_hashes w) (p, f)) eqn:Hmod; [|done].
    apply found_modified_recorded in Hmod as [h [old [_ [Hold _]]]].
    by rewrite Hempty, lookup_empty in Hold.
  - intros p. rewrite scan_new_elem. split.
    + intros [f [Hin Hnew]]. apply found_new_recorded in Hnew as [[h Hrec] _].
      rewrite scan_folder_vars, scan_loop_current.
      by eapply record_into_lookup_is_Some.
    + intros [h Hcur]. apply scan_current_Some in Hcur as [f [Hin Hrec]].
      exists f. split; [done|]. apply found_new_recorded.
      split; [by exists h|]. by rewrite Hempty, lookup_empty.
Qed.

End Rescan.

Section RescanExamples.
#[local] Existing Instance plain_runtime.

Lemma rescan_finds_nothing_witness :
  changes_new (scan_folder Ex.posix_folder false
                 (scan_folder Ex.posix_folder true Ex.stale).1).2 = []
  /\ changes_modified (scan_folder Ex.posix_folder false
                         (scan_folder Ex.posix_folder true Ex.stale).1).2 = [].
Proof.
  apply (rescan_finds_nothing Ex.posix_folder Ex.stale false). by vm_compute.
Defined.

Lemma fresh_scan_all_new_witness :
  changes_modified (scan_folder Ex.posix_folder false Ex.fresh).2 = []
  /\ "sub/b.txt" ∈ changes_new (scan_folder Ex.posix_folder false Ex.fresh).2.
Proof.
  destruct (fresh_scan_all_new Ex.posix_folder Ex.fresh false eq_refl)
    as [Hmod Hnew].
  split; [exact Hmod|]. apply Hnew. exists "bb27.0". by vm_compute.
Defined.

End RescanExamples.

(** ** Paths of visited files, resolved *)

Section Resolve.
Context `{RT : Runtime}.
Implicit Types (fs : localfs) (es ch : list entry) (e : entry).
Implicit Types (p n d : string) (f : file).

Lemma find_name es e :
  NoDup (entry_name <$> es) -> e ∈ es ->
  List.find (fun x => String.eqb (entry_name x) (entry_name e)) es = Some e.
Proof.
  induction es as [|a es IH]; intros Hnd He; [by apply elem_of_nil in He|].
  simpl. destruct (String.eqb_spec (entry_name a) (entry_name e)) as [Heq|Hne].
  - f_equal. apply (entry_name_inj_on (a :: es)); [done | by left | done | done].
  - apply IH.
    + rewrite fmap_cons in Hnd. by apply NoDup_cons in Hnd as [_ ?].
    + apply elem_of_cons in He as [->|He]; done.
Qed.

Lemma lookup_descend es ds ch n f :
  descend es ds = Some ch -> NoDup (entry_name <$> ch) -> File n f ∈ ch ->
  lookup_entry es (ds ++ [n]) = Some (File n f).
Proof.
  revert es. induction ds as [|d rest IH]; intros es Hd Hnd Hin.
  - simpl in Hd. simplify_eq. pose proof (find_name ch (File n f) Hnd Hin) as Hf.
    simpl in *. by rewrite Hf.
  - simpl in *.
    destruct (List.find (fun e => String.eqb (entry_name e) d) es)
      as [[|n' sz ch']|]; try done.
    specialize (IH ch' Hd Hnd Hin).
    by destruct (rest ++ [n]) as [|x l] eqn:Happ; [destruct rest|].
Qed.

(** What [os.walk] yields below a directory of a well-formed tree is the
    content of a directory that the names of the root lead to. *)
Lemma walk_entry_descend (prune : string -> bool) (sep : ascii) e :
  forall root r files,
    wf_entry sep e = true ->
    (r, files) ∈ walk_entry prune root e ->
    exists n sz ch ds ch',
      e = Dir n sz ch /\ r = root ++ n :: ds /\ descend ch ds = Some ch'
      /\ files = files_of ch' /\ NoDup (entry_name <$> ch').
Proof.
  induction e as [n f | n sz ch IH] using entry_tree_ind;
    intros root r files Hwf Hin.
  - by apply elem_of_nil in Hin.
  - cbn [walk_entry] in Hin. destruct (prune n); [by apply elem_of_nil in Hin|].
    cbn [wf_entry] in Hwf. apply andb_true_iff in Hwf as [_ Hwf].
    apply andb_true_iff in Hwf as [Hnd Hch].
    apply bool_decide_eq_true in Hnd. rewrite forallb_forall in Hch.
    exists n, sz, ch.
    apply elem_of_cons in Hin as [Heq | Hin].
    + inversion Heq; subst r files. by exists [], ch.
    + apply list_elem_of_bind in Hin as [e [Hin He]].
      rewrite Forall_forall in IH.
      assert (wf_entry sep e = true) as Hwe by by apply Hch, list_elem_of_In.
      destruct (IH e He _ _ _ Hwe Hin)
        as [n' [sz' [ch1 [ds [ch' [-> [-> [Hd [-> Hnd']]]]]]]]].
      exists (n' :: ds), ch'. split; [done|].
      split; [by rewrite <- app_assoc|]. split; [|done].
      pose proof (find_name ch (Dir n' sz' ch1) Hnd He) as Hf.
      simpl in *. by rewrite Hf.
Qed.

Lemma walk_descend (prune : string -> bool) (sep : ascii) es root r files :
  NoDup (entry_name <$> es) ->
  forallb (wf_entry sep) es = true ->
  (r, files) ∈ walk prune root es ->
  exists ds ch',
    r = root ++ ds /\ descend es ds = Some ch'
    /\ files = files_of ch' /\ NoDup (entry_name <$> ch').
Proof.
  intros Hnd Hch Hin. rewrite forallb_forall in Hch. unfold walk in Hin.
  apply elem_of_cons in Hin as [Heq | Hin].
  - inversion Heq; subst r files. exists [], es. by rewrite app_nil_r.
  - apply list_elem_of_bind in Hin as [e [Hin He]].
    assert (wf_entry sep e = true) as Hwe by by apply Hch, list_elem_of_In.
    destruct (walk_entry_descend prune sep e _ _ _ Hwe Hin)
      as [n' [sz' [ch1 [ds [ch' [-> [-> [Hd [-> Hnd']]]]]]]]].
    exists (n' :: ds), ch'. split; [done|]. split; [|done].
    pose proof (find_name es (Dir n' sz' ch1) Hnd He) as Hf.
    simpl in *. by rewrite Hf.
Qed.

(** In a well-formed tree the relative path of a visited file leads back
    to that file. *)
Lemma visited_resolves fs p f :
  wf_fs fs = true -> (p, f) ∈ visited fs ->
  exists n, lookup_entry (fs_root fs) (Py.split (fs_sep fs) p) = Some (File n f).
Proof.
  intros Hwf Hin.
  pose proof (wf_fs_names fs Hwf) as Hnames. rewrite Forall_forall in Hnames.
  unfold wf_fs in Hwf. apply andb_true_iff in Hwf as [Hnd Hch].
  apply bool_decide_eq_true in Hnd.
  unfold visited in Hin.
  apply list_elem_of_bind in Hin as [[root files] [Hin Hw]].
  apply list_elem_of_bind in Hin as [[name g] [Hin Hfile]].
  apply list_elem_of_singleton in Hin. inversion Hin; subst p g.
  destruct (walk_inv _ _ _ _ _ Hw) as [ds0 [Hroot0 [Hds Hfiles]]].
  simpl in Hroot0. subst ds0.
  destruct (walk_descend _ (fs_sep fs) _ _ _ _ Hnd Hch Hw)
    as [ds [ch' [Hroot [Hd [-> Hnd']]]]].
  simpl in Hroot. subst ds. exists name. unfold relpath.
  rewrite split_join_free.
  - apply (lookup_descend _ _ ch'); [done | done | by apply files_of_elem].
  - by destruct root.
  - apply Forall_app. split.
    + eapply Forall_impl; [exact Hds|]. intros d [_ Hdn]. by apply Hnames.
    + constructor; [|done]. apply Hnames.
      rewrite Forall_forall in Hfiles. by apply (Hfiles (name, f)).
Qed.

Lemma visited_getsize fs p f :
  wf_fs fs = true -> (p, f) ∈ visited fs ->
  os_getsize fs p = st_size <$> f_stat f.
Proof.
  intros Hwf Hin. destruct (visited_resolves fs p f Hwf Hin) as [n Hl].
  unfold os_getsize. by rewrite Hl.
Qed.

Lemma visited_open fs p f :
  wf_fs fs = true -> (p, f) ∈ visited fs -> os_open fs p = f_data f.
Proof.
  intros Hwf Hin. destruct (visited_resolves fs p f Hwf Hin) as [n Hl].
  unfold os_open. by rewrite Hl.
Qed.

Lemma scan_file_skipped fs prior (v : scan_vars) p f :
  skipped_files (scan_file fs prior v p f)
  = skipped_files v ++ (if should_ignore (os_getsize fs) p then [p] else []).
Proof.
  unfold scan_file. destruct (should_ignore _ p); simpl; [done|].
  rewrite app_nil_r.
  destruct (get_file_hash f) as [h|]; simpl; [|done].
  destruct (prior !! p) as [old|]; simpl; [|done].
  by destruct (String.eqb old h).
Qed.

Lemma scan_loop_skipped fs prior (l : list (string * file)) (v : scan_vars) :
  skipped_files (scan_loop fs prior l v)
  = skipped_files v
    ++ (List.filter (fun pf => should_ignore (os_getsize fs) pf.1) l).*1.
Proof.
  revert v. induction l as [|[p f] l IH]; intros v.
  - simpl. by rewrite app_nil_r.
  - unfold scan_loop in *. simpl fold_left. rewrite IH, scan_file_skipped.
    rewrite filter_cons_if, fmap_app, <- app_assoc. f_equal. f_equal.
    simpl. by destruct (should_ignore (os_getsize fs) p).
Qed.

(** X3. In a well-formed tree the size that [should_ignore] tests for a
    visited file is that of the file itself: the file is ignored exactly
    when a rule matches a segment of its relative path or its own size is
    above 100 MiB.  A file above 100 MiB gets no fingerprint and is in
    neither list of changes, so it is never uploaded; its path goes to
    [skipped_files]. *)
Theorem large_file_excluded fs (save : bool) (w : watcher) p f :
  wf_fs fs = true -> (p, f) ∈ visited fs ->
  (should_ignore (os_getsize fs) p = true <->
   patterns_hit ignore_patterns (path_parts p) = true \/ oversized f)
  /\ (oversized f ->
      current_files (scan_folder fs save w).2 !! p = None
      /\ (p ∉ changed (scan_folder fs save w).2)
      /\ p ∈ skipped_files (scan_folder fs save w).2).
Proof.
  intros Hwf Hin.
  assert (should_ignore (os_getsize fs) p = true <->
          patterns_hit ignore_patterns (path_parts p) = true \/ oversized f)
    as Hiff.
  { rewrite should_ignore_true, (visited_getsize fs p f) by done.
    apply or_iff_compat_l. unfold oversized. split.
    - intros [size [Hsize Hlt]]. destruct (f_stat f) as [st|]; [|done].
      simpl in Hsize. simplify_eq. by exists st.
    - intros [st [Hst Hlt]]. exists (st_size st). by rewrite Hst. }
  split; [done|]. intros Hbig.
  assert (should_ignore (os_getsize fs) p = true) as Hig
    by (apply Hiff; by right).
  split; [|split].
  - destruct (current_files _ !! p) as [h|] eqn:Hcur; [|done].
    apply scan_current_Some in Hcur as [g [_ Hrec]].
    apply recorded_not_ignored in Hrec as [Hno _]. congruence.
  - unfold changed. intros Hch. apply elem_of_app in Hch as [Hch | Hch].
    + apply scan_new_elem in Hch as [g [_ Hnew]].
      apply found_new_recorded in Hnew as [[h Hrec] _].
      apply recorded_not_ignored in Hrec as [Hno _]. congruence.
    + apply scan_modified_elem in Hch as [g [_ Hmod]].
      apply found_modified_recorded in Hmod as [h [old [Hrec _]]].
      apply recorded_not_ignored in Hrec as [Hno _]. congruence.
  - rewrite scan_folder_vars, scan_loop_skipped. simpl.
    apply (elem_of_filter_fst
             (fun pf => should_ignore (os_getsize fs) pf.1) (visited fs) p).
    by exists f.
Qed.

(** X4. [should_ignore] is given the bare name of a directory, which it
    sizes as a path from the watched folder: when an entry at the top of a
    well-formed tree is above 100 MiB, no directory of that name is walked,
    at any depth. *)
Theorem directory_shadowed_by_large_entry fs e (size : N) root files :
  wf_fs fs = true ->
  e ∈ fs_root fs -> entry_size e = Some size -> (MAX_SIZE < size)%N ->
  (root, files) ∈ walk (should_ignore (os_getsize fs)) [] (fs_root fs) ->
  entry_name e ∉ root.
Proof.
  intros Hwf He Hsize Hlt Hw Hin.
  assert (os_getsize fs (entry_name e) = Some size) as Hget.
  { pose proof (wf_fs_names fs Hwf) as Hnames. rewrite Forall_forall in Hnames.
    unfold wf_fs in Hwf. apply andb_true_iff in Hwf as [Hnd _].
    apply bool_decide_eq_true in Hnd.
    unfold os_getsize. rewrite split_free.
    - simpl. by rewrite (find_name _ e Hnd He).
    - apply Hnames. unfold fs_names. apply list_elem_of_bind. exists e.
      split; [|done]. destruct e; by left. }
  apply walk_inv in Hw as [ds [Hroot [Hds _]]]. simpl in Hroot. subst ds.
  rewrite Forall_forall in Hds. destruct (Hds _ Hin) as [Hno _].
  assert (should_ignore (os_getsize fs) (entry_name e) = true) as Hyes.
  { apply should_ignore_true. right. by exists size. }
  congruence.
Qed.

End Resolve.

Section ResolveExamples.
#[local] Existing Instance plain_runtime.

Lemma large_file_excluded_witness :
  should_ignore (os_getsize Ex2.with_huge) "movie.bin" = true
  /\ current_files (scan_folder Ex2.with_huge false Ex.fresh).2 !! "movie.bin"
     = None
  /\ changed (scan_folder Ex2.with_huge false Ex.fresh).2 = ["a.txt"].
Proof.
  assert (oversized Ex2.huge) as Hbig
    by (eexists; split; [reflexivity | by vm_compute]).
  destruct (large_file_excluded Ex2.with_huge false Ex.fresh "movie.bin"
              Ex2.huge eq_refl)
    as [Hiff Hout].
  { apply list_elem_of_In. vm_compute. auto. }
  destruct (Hout Hbig) as [Hnone _].
  split; [apply Hiff; by right|]. split; [exact Hnone | by vm_compute].
Defined.

Lemma directory_shadowed_by_large_entry_witness :
  ("data" ∉ ["src"])
  /\ (visited Ex2.shadowed).*1 = ["data"; "src/main.py"].
Proof.
  split; [|by vm_compute].
  apply (directory_shadowed_by_large_entry Ex2.shadowed
           (File "data" Ex2.huge) (200 * 1024 * 1024)%N
           ["src"] [("main.py", Ex.hello)]).
  - by vm_compute.
  - by left.
  - reflexivity.
  - by vm_compute.
  - apply list_elem_of_In. vm_compute. auto.
Defined.

End ResolveExamples.

(** ** The FTP session *)

Section Sessions.
Context `{RT : Runtime} `{FTP : FtpServer}.
Implicit Types (cfg : ftp_config) (fs : localfs) (s : state).

Lemma emits_log {A} (P : event -> Prop) (m : M A) s :
  emits P m ->
  exists tr, log (m s).2 = log s ++ tr /\ Forall P tr /\ self (m s).2 = self s.
Proof.
  intros H. destruct (H s) as [Hself [Hg Hev]].
  by exists (events_since s (m s).2).
Qed.

(** *** create_remote_dirs *)




(** *** test_connection and connect_ftp *)

(** X6. [test_connection] never raises and never touches the tracked
    state; it returns [True] exactly when the server accepts [connect],
    [login] and [quit] one after the other, so a server that refuses the
    closing [quit] makes it return [False]; it sends these commands and no
    other. *)
Theorem test_connection_result cfg s :
  let r := test_connection cfg s in
  r.1 = Val (reachable cfg (server s))
  /\ self r.2 = self s
  /\ exists tr, log r.2 = log s ++ tr
       /\ Forall (fun e => probing e = true) tr /\ length tr <= 3.
Proof.
  intros r. subst r. unfold test_connection, reachable, try_except.
  rewrite bind_run, send_run. cbn [fst snd].
  destruct (respond (server s) (CONNECT (host cfg) (port cfg))) as [[|e1] srv1];
    cbn [fst snd]; cycle 1.
  { split; [done|]. split; [done|]. eexists [_]. split; [done|].
    split; [by repeat constructor | simpl; lia]. }
  rewrite bind_run, send_run. cbn [fst snd server log self].
  destruct (respond srv1 (LOGIN (username cfg) (password cfg))) as [[|e2] srv2];
    cbn [fst snd]; cycle 1.
  { split; [done|]. split; [done|]. eexists [_; _].
    split; [by rewrite <- !app_assoc|].
    split; [by repeat constructor | simpl; lia]. }
  rewrite bind_run, send_run. cbn [fst snd server log self].
  destruct (respond srv2 QUIT) as [[|e3] srv3]; cbn [fst snd].
  - split; [done|]. split; [done|]. eexists [_; _; _].
    split; [by rewrite <- !app_assoc|].
    split; [by repeat constructor | simpl; lia].
  - split; [done|]. split; [done|]. eexists [_; _; _].
    split; [by rewrite <- !app_assoc|].
    split; [by repeat constructor | simpl; lia].
Qed.

(** X7. [connect_ftp] never raises.  It returns the connection exactly
    when [connect], [login] and [TYPE I] are accepted, whatever the answer
    to [OPTS UTF8 ON], and then prints nothing; otherwise it returns [None]
    after one message, chosen by the class of the first failure: the
    permission message for [error_perm], the connection message for any
    other exception. *)
Theorem connect_ftp_outcome cfg s :
  let r := connect_ftp cfg s in
  r.1 = Val (established cfg (server s))
  /\ self r.2 = self s
  /\ messages (events_since s r.2)
     = match handshake_failure cfg (server s) with
       | Some e => [failure_message e]
       | None => []
       end
  /\ (established cfg (server s) = true
      <-> handshake_failure cfg (server s) = None).
Proof.
  intros r. subst r.
  unfold connect_ftp, established, handshake_failure, try_except.
  rewrite bind_run, send_run. cbn [fst snd].
  destruct (respond (server s) (CONNECT (host cfg) (port cfg))) as [[|e1] srv1];
    cbn [fst snd]; cycle 1.
  { destruct e1; rewrite bind_run; unfold tell, ret, record;
      cbn [fst snd self server log];
      (split; [done|]); (split; [done|]); (split; [|done]);
      by erewrite events_since_app by (rewrite <- ?app_assoc; reflexivity). }
  rewrite bind_run, send_run. cbn [fst snd server log self].
  destruct (respond srv1 (LOGIN (username cfg) (password cfg))) as [[|e2] srv2];
    cbn [fst snd]; cycle 1.
  { destruct e2; rewrite bind_run; unfold tell, ret, record;
      cbn [fst snd self server log];
      (split; [done|]); (split; [done|]); (split; [|done]);
      by erewrite events_since_app by (rewrite <- ?app_assoc; reflexivity). }
  rewrite bind_run, send_run. cbn [fst snd server log self].
  destruct (respond srv2 TYPE_I) as [[|e3] srv3]; cbn [fst snd]; cycle 1.
  { destruct e3; rewrite bind_run; unfold tell, ret, record;
      cbn [fst snd self server log];
      (split; [done|]); (split; [done|]); (split; [|done]);
      by erewrite events_since_app by (rewrite <- ?app_assoc; reflexivity). }
  rewrite bind_run, send_run. cbn [fst snd server log self].
  destruct (respond srv3 OPTS_UTF8_ON) as [[|e4] srv4]; cbn [fst snd];
    unfold ret; cbn [fst snd self server log];
    (split; [done|]); (split; [done|]); (split; [|done]);
    by erewrite events_since_app by (rewrite <- ?app_assoc; reflexivity).
Qed.

(** *** The run of sync_changes *)

(** X8. Without changes, or with any answer to the prompt other than [y]
    or [Y] ([yes] included), [sync_changes] opens no connection: it sends
    no command, leaves the tracked state as it is and returns after the
    message that nothing is to do, or that the sync is cancelled. *)
Theorem no_traffic_unless_confirmed fs cfg (confirm : string) s :
  changed (found fs s) = [] \/ Py.lower confirm <> "y" ->
  let res := sync_changes fs cfg confirm s in
  res.1 = Val None
  /\ self res.2 = self s
  /\ server res.2 = server s
  /\ events_since s res.2
     = match changed (found fs s) with
       | [] => [Say UpToDate]
       | _ :: _ => [Say (FoundChanges (total_of (found fs s)));
                    Say SyncCancelled]
       end.
Proof.
  intros Hcase res. subst res. rewrite sync_changes_run. cbn zeta.
  fold (found fs s). fold (changed (found fs s)). fold (total_of (found fs s)).
  destruct (changed (found fs s)) as [|a l] eqn:Hch.
  - cbn [fst snd]. by rewrite events_since_record.
  - destruct Hcase as [? | Hno]; [done|].
    destruct (String.eqb_spec (Py.lower confirm) "y") as [?|_]; [done|].
    cbn [fst snd]. split; [done|]. split; [done|]. split; [done|].
    apply events_since_app. simpl. by rewrite <- app_assoc.
Qed.

Lemma store_emits (Q : event -> Prop) fs (file name : string) :
  Q (OpenFailed file) ->
  (forall d r, os_open fs file = Some d -> Q (Sent (STOR name d) r)) ->
  emits Q (store fs file name).
Proof.
  intros Ho Hs. unfold store. destruct (os_open fs file) as [d|] eqn:Hopen.
  - apply emits_send. intros r. by apply Hs.
  - apply emits_bind; [by apply emits_tell | intros _; apply emits_raise].
Qed.

(** The events of the upload of one file. *)
Lemma upload_file_emits (Q : event -> Prop) fs cfg (file remote : string) :
  Q (UploadFile remote) ->
  (forall e, navigating e = true -> Q e) ->
  Q (OpenFailed file) ->
  (forall name d r,
     os_open fs file = Some d ->
     name = Py.replace_backslash remote
     \/ name = bare_name (Py.replace_backslash remote) ->
     Q (Sent (STOR name d) r)) ->
  emits Q (upload_file fs cfg file remote).
Proof.
  intros Hu Hn Ho Hs. unfold upload_file.
  apply emits_bind; [by apply emits_tell | intros _].
  apply emits_try_except; [|intros _; apply emits_try_except].
  - unfold upload_primary.
    apply emits_bind;
      [apply (emits_weaken (fun e => navigating e = true));
         [exact Hn | apply create_remote_dirs_emits] | intros _].
    apply emits_bind;
      [rewrite cwd_base_send; apply emits_send; intros r; by apply Hn
      | intros _].
    apply emits_bind; [|intros _; apply emits_mret].
    apply store_emits; [done|]. intros d r Hd. apply Hs; [done | by left].
  - intros s. rewrite upload_fallback_attempt. revert s.
    apply emits_bind;
      [apply (emits_weaken (fun e => navigating e = true));
         [exact Hn | apply fallback_emits] | intros _].
    apply emits_bind; [|intros _; apply emits_mret].
    apply store_emits; [done|]. intros d r Hd. apply Hs; [done | by right].
  - intros _. apply emits_ret.
Qed.

Lemma upload_loop_emits (Q : event -> Prop) fs cfg
    (l : list (string * change_type)) (n : nat) (failed : list string) :
  (forall file, file ∈ l.*1 -> emits Q (upload_file fs cfg file file)) ->
  emits Q (upload_loop fs cfg l n failed).
Proof.
  revert n failed. induction l as [|[file ct] l IH]; intros n failed H.
  - apply emits_ret.
  - cbn [upload_loop]. apply emits_bind; [apply H; by left|].
    intros [|]; apply IH; intros f Hf; apply H; by right.
Qed.

(** The trace of a session: what comes before the final [QUIT] is made of
    the events of the handshake, of the navigation, of the uploads of the
    changed files, and of messages. *)
Lemma sync_session_events (Q : event -> Prop) fs cfg (v : scan_vars) s1 :
  (forall e, connecting e = true -> Q e) ->
  (forall e, navigating e = true -> Q e) ->
  (forall m, Q (Say m)) ->
  (forall file, file ∈ changed v -> emits Q (upload_file fs cfg file file)) ->
  let res := sync_session fs cfg v s1 in
  if established cfg (server s1)
  then exists tr q,
         log res.2 = log s1 ++ tr ++ [Sent QUIT q] /\ Forall Q tr
         /\ match q with
            | Done => exists o, res.1 = Val o
            | Failed e => res.1 = Raise e
            end
  else res.1 = Val None
       /\ exists tr, log res.2 = log s1 ++ tr /\ Forall Q tr.
Proof.
  intros Hc Hn Hm Hu res. subst res. unfold sync_session.
  pose proof (connect_ftp_result cfg s1) as Hres.
  destruct (emits_log _ _ s1 (connect_ftp_emits cfg)) as [tr2 [Hlog2 [Hev2 _]]].
  destruct (connect_ftp cfg s1) as [r2 s2]. cbn [fst snd] in *. subst r2.
  assert (Forall Q tr2) as HQ2 by (eapply Forall_impl; [exact Hev2 | exact Hc]).
  destruct (established cfg (server s1)); [|split; [done | by exists tr2]].
  destruct (emits_log _ _ s2 (enter_base_emits cfg)) as [tr3 [Hlog3 [Hev3 _]]].
  assert (Forall Q tr3) as HQ3 by (eapply Forall_impl; [exact Hev3 | exact Hn]).
  destruct (enter_base cfg s2) as [[[]|e] s3]; cbn [fst snd] in *.
  - assert (emits Q (upload_loop fs cfg (all_files v) 0 [])) as Hloop.
    { apply upload_loop_emits. intros file Hf. apply Hu.
      by rewrite <- all_files_fst. }
    destruct (emits_log _ _ s3 Hloop) as [tr4 [Hlog4 [HQ4 _]]].
    rewrite upload_loop_run in *. cbn [fst snd] in *.
    rewrite quit_after_run. cbn [fst snd log].
    match goal with |- context [concluded fs ?t ?n ?f ?s4] =>
      set (total := t); set (succ := n); set (failed := f)
    end.
    match goal with |- context [(respond ?srv QUIT).1] =>
      destruct (respond srv QUIT) as [q srvq]
    end.
    cbn [fst snd].
    exists (tr2 ++ tr3 ++ tr4 ++ report_messages total succ failed
              ++ (if (0 <? succ)%nat then [Say UpdatingDatabase] else [])), q.
    split.
    { unfold concluded. cbn [log]. rewrite Hlog4, Hlog3, Hlog2.
      by rewrite <- !app_assoc. }
    split.
    { rewrite !Forall_app. split; [done|]. split; [done|]. split; [done|].
      split.
      - unfold report_messages. destruct (succ =? total)%nat;
          [by repeat constructor|].
        destruct failed; by repeat constructor.
      - destruct (0 <? succ)%nat; by repeat constructor. }
    destruct q; [by eexists | done].
  - rewrite quit_after_run. cbn [fst snd log].
    match goal with |- context [(respond ?srv QUIT).1] =>
      destruct (respond srv QUIT) as [q srvq]
    end.
    cbn [fst snd].
    exists (tr2 ++ tr3 ++ [Say SyncError]), q. split.
    { cbn [record log]. rewrite Hlog3, Hlog2. by rewrite <- !app_assoc. }
    split.
    { rewrite !Forall_app. split; [done|]. split; [done|].
      by repeat constructor. }
    destruct q; [by eexists | done].
Qed.

(** The same for a run of [sync_changes]. *)
Lemma sync_changes_events (Q : event -> Prop) fs cfg (confirm : string) s :
  (forall e, connecting e = true -> Q e) ->
  (forall e, navigating e = true -> Q e) ->
  (forall m, Q (Say m)) ->
  (forall file, file ∈ changed (found fs s) ->
     emits Q (upload_file fs cfg file file)) ->
  let res := sync_changes fs cfg confirm s in
  if bool_decide (changed (found fs s) <> []) && String.eqb (Py.lower confirm) "y"
     && established cfg (server s)
  then exists tr q,
         events_since s res.2 = tr ++ [Sent QUIT q] /\ Forall Q tr
         /\ match q with
            | Done => exists o, res.1 = Val o
            | Failed e => res.1 = Raise e
            end
  else res.1 = Val None /\ Forall Q (events_since s res.2).
Proof.
  intros Hc Hn Hm Hu res. subst res. rewrite sync_changes_run. cbn zeta.
  fold (found fs s). fold (changed (found fs s)). fold (total_of (found fs s)).
  destruct (changed (found fs s)) as [|a l] eqn:Hch.
  { cbn [fst snd]. rewrite events_since_record.
    rewrite bool_decide_eq_false_2 by (by intros H; apply H).
    cbn [andb]. split; [done|]. by repeat constructor. }
  rewrite bool_decide_eq_true_2 by done. cbn [andb].
  destruct (String.eqb (Py.lower confirm) "y"); cbn [andb]; cycle 1.
  { cbn [fst snd]. split; [done|].
    erewrite events_since_app
      by (cbn [record log]; rewrite <- ?app_assoc; reflexivity).
    by repeat constructor. }
  fold (announced fs s).
  assert (forall file, file ∈ changed (found fs s) ->
            emits Q (upload_file fs cfg file file)) as Hu'
    by (rewrite Hch; exact Hu).
  pose proof (sync_session_events Q fs cfg (found fs s) (announced fs s)
                Hc Hn Hm Hu') as Hs.
  cbn zeta in Hs. change (server (announced fs s)) with (server s) in Hs.
  destruct (established cfg (server s)).
  - destruct Hs as [tr [q [Hlog [HQ Hres]]]].
    exists (Say (FoundChanges (total_of (found fs s))) :: tr), q.
    split; [|split; [by constructor | done]].
    apply events_since_app. rewrite Hlog. cbn [announced record log].
    by rewrite <- !app_assoc.
  - destruct Hs as [Hres [tr [Hlog HQ]]]. split; [done|].
    rewrite (events_since_app s _ (Say (FoundChanges (total_of (found fs s))) :: tr)).
    + by constructor.
    + rewrite Hlog. cbn [announced record log]. by rewrite <- !app_assoc.
Qed.

Lemma not_quit_filter (tr : list event) :
  Forall (fun e => is_quit e = false) tr -> List.filter is_quit tr = [].
Proof.
  intros H. apply filter_none. intros e He.
  rewrite Forall_forall in H. by apply H.
Qed.

Lemma upload_file_no_quit fs cfg (file : string) :
  emits (fun e => is_quit e = false) (upload_file fs cfg file file).
Proof.
  apply upload_file_emits; try done. intros e He. by destruct e as [[] ?| | |].
Qed.

(** X9. The connection that [sync_changes] opens is closed once, as the
    last thing it does, however the run goes (also when the remote
    directory cannot be entered or uploads fail); the run raises exactly
    when that [quit] is refused.  When no session is established no [QUIT]
    is sent and the run returns. *)
Theorem session_closed_once fs cfg (confirm : string) s :
  let res := sync_changes fs cfg confirm s in
  let tr := events_since s res.2 in
  (changed (found fs s) <> [] -> Py.lower confirm = "y" ->
   established cfg (server s) = true ->
   exists tr0 q,
     tr = tr0 ++ [Sent QUIT q] /\ List.filter is_quit tr0 = []
     /\ match q with
        | Done => exists o, res.1 = Val o
        | Failed e => res.1 = Raise e
        end)
  /\ (changed (found fs s) = [] \/ Py.lower confirm <> "y"
      \/ established cfg (server s) = false ->
      res.1 = Val None /\ List.filter is_quit tr = []).
Proof.
  intros res tr. subst res tr.
  pose proof (sync_changes_events (fun e => is_quit e = false) fs cfg confirm s)
    as H.
  cbn zeta in H.
  specialize (H ltac:(by intros [[] ?| | |[]]) ltac:(by intros [[] ?| | |])
                ltac:(done) ltac:(intros; apply upload_file_no_quit)).
  split.
  - intros Hch Hyes Hest.
    rewrite bool_decide_eq_true_2, Hest in H by done.
    apply String.eqb_eq in Hyes. rewrite Hyes in H. cbn [andb] in H.
    destruct H as [tr0 [q [Htr [HQ Hres]]]]. exists tr0, q.
    split; [done|]. split; [by apply not_quit_filter | done].
  - intros Hcase.
    assert (bool_decide (changed (found fs s) <> [])
            && String.eqb (Py.lower confirm) "y"
            && established cfg (server s) = false) as Hb.
    { destruct Hcase as [Hch | [Hno | Hest]].
      - rewrite bool_decide_eq_false_2; [done|]. intros Hne. by apply Hne.
      - apply String.eqb_neq in Hno. rewrite Hno. by rewrite andb_false_r.
      - rewrite Hest. by rewrite andb_false_r. }
    rewrite Hb in H. destruct H as [Hres HQ].
    split; [done | by apply not_quit_filter].
Qed.

Lemma changed_recorded fs (save : bool) (w : watcher) (p : string) :
  p ∈ changed (scan_folder fs save w).2 ->
  exists f h, (p, f) ∈ visited fs /\ recorded fs (p, f) = Some h.
Proof.
  unfold changed. intros Hin. apply elem_of_app in Hin as [Hin | Hin].
  - apply scan_new_elem in Hin as [f [Hin Hnew]].
    apply found_new_recorded in Hnew as [[h Hrec] _]. by exists f, h.
  - apply scan_modified_elem in Hin as [f [Hin Hmod]].
    apply found_modified_recorded in Hmod as [h [old [Hrec _]]]. by exists f, h.
Qed.

(** X10. Whatever the server answers, every [STOR] of a run of
    [sync_changes] carries the content of a file that the scan of that run
    reported as new or modified, under its relative path with slashes or
    under its bare name: no ignored file and no unchanged file is sent.  In
    a well-formed tree the content is that of the visited file itself. *)
Theorem only_changed_files_stored fs cfg (confirm : string) s
    (name : string) (data : list Byte.byte) (r : reply) :
  Sent (STOR name data) r ∈ events_since s (sync_changes fs cfg confirm s).2 ->
  exists p,
    p ∈ changed (found fs s)
    /\ should_ignore (os_getsize fs) p = false
    /\ os_open fs p = Some data
    /\ (name = Py.replace_backslash p
        \/ name = bare_name (Py.replace_backslash p))
    /\ (wf_fs fs = true ->
        exists f, (p, f) ∈ visited fs /\ f_data f = Some data).
Proof.
  intros Hin.
  set (Q := fun e : event =>
              is_stor e = true ->
              exists p, p ∈ changed (found fs s) /\ carries fs p e).
  assert (Forall Q (events_since s (sync_changes fs cfg confirm s).2)) as HQ.
  { pose proof (sync_changes_events Q fs cfg confirm s) as H. cbn zeta in H.
    assert (forall e, connecting e = true -> Q e) as H1
      by by intros [[] ?| | |[]].
    assert (forall e, navigating e = true -> Q e) as H2
      by by intros [[] ?| | |].
    assert (forall m, Q (Say m)) as H3 by done.
    assert (forall file, file ∈ changed (found fs s) ->
              emits Q (upload_file fs cfg file file)) as H4.
    { intros file Hfile. apply upload_file_emits; [done | exact H2 | done |].
      intros n d r' Hopen Hname _. by exists file. }
    specialize (H H1 H2 H3 H4).
    destruct (_ && _ && _).
    - destruct H as [tr [q [-> [HQ _]]]]. apply Forall_app. split; [done|].
      by repeat constructor.
    - by destruct H. }
  rewrite Forall_forall in HQ. destruct (HQ _ Hin eq_refl) as [p [Hp Hc]].
  cbn [carries] in Hc. destruct Hc as [Hopen Hname].
  exists p. split; [done|].
  destruct (changed_recorded fs false (self s) p Hp) as [f [h [Hvis Hrec]]].
  apply recorded_not_ignored in Hrec as [Hno _].
  split; [done|]. split; [done|]. split; [done|].
  intros Hwf. exists f. split; [done|].
  by rewrite <- (visited_open fs p f Hwf Hvis).
Qed.

(** X11. After a run of [sync_changes] on a well-formed tree in which the
    server accepted a [STOR], a next run on the same tree finds everything
    up to date, also when uploads of the first run failed: it sends nothing
    and a failed file is not tried again. *)
Theorem next_run_up_to_date fs cfg (confirm : string) s
    (cfg' : ftp_config) (confirm' : string) :
  wf_fs fs = true ->
  let res := sync_changes fs cfg confirm s in
  existsb stored (events_since s res.2) = true ->
  sync_changes fs cfg' confirm' res.2
  = (Val None, record (Say UpToDate) res.2).
Proof.
  intros Hwf res Hst.
  assert (self res.2 = (scan_folder fs true (self s)).1) as Hself.
  { destruct (sync_changes_cases fs cfg confirm s) as [Hreach | Hidle].
    - destruct (sync_changes_uploading fs cfg confirm s Hreach)
        as [_ [_ [Hst' [_ [Hself _]]]]].
      fold res in Hst', Hself. rewrite Hst in Hst'. by rewrite <- Hst' in Hself.
    - destruct (sync_changes_idle fs cfg confirm s Hidle) as [_ [_ Hq]].
      fold res in Hq. apply quiet_facts in Hq as [_ [Hno _]]. congruence. }
  rewrite sync_changes_run. cbn zeta.
  fold (changed (scan_folder fs false (self res.2)).2).
  rewrite Hself, scan_agreeing; [done|]. intros p f h Hin Hrec.
  by apply (scan_saved_agrees fs (self s) p f h); [apply wf_distinct_paths|..].
Qed.

Lemma enter_base_missing cfg s (e1 e2 : exn) (srv1 srv2 : Server) :
  remote_path cfg <> EmptyString ->
  respond (server s) (CWD (remote_path cfg)) = (Failed e1, srv1) ->
  respond srv1 (CWD (remote_path cfg)) = (Failed e2, srv2) ->
  enter_base cfg s
  = (Raise e2,
     {| self := self s; server := srv2;
        log := log s ++ [Sent (CWD (remote_path cfg)) (Failed e1);
                         Sent (CWD (remote_path cfg)) (Failed e2)] |}).
Proof.
  intros Hne H1 H2. unfold enter_base, create_remote_dirs.
  rewrite cwd_base_send. unfold base_dir.
  apply String.eqb_neq in Hne. rewrite Hne. cbn [negb].
  unfold try_except. rewrite send_run, H1. cbn [fst snd].
  rewrite !bind_run, send_run. cbn [fst snd server log self]. rewrite H2.
  cbn [fst snd]. by rewrite <- app_assoc.
Qed.

(** X12. When the configured remote directory is missing (the server
    refuses the [cwd] to it, twice), a confirmed run creates nothing: after
    the two refused [cwd] it prints the sync error and quits, without an
    [MKD], an upload or a change of the tracked state. *)
Theorem missing_base_aborts fs cfg (confirm : string) s
    (e1 e2 : exn) (srv1 srv2 : Server) :
  changed (found fs s) <> [] -> Py.lower confirm = "y" ->
  established cfg (server s) = true ->
  remote_path cfg <> EmptyString ->
  respond (server (connected fs cfg s)) (CWD (remote_path cfg))
  = (Failed e1, srv1) ->
  respond srv1 (CWD (remote_path cfg)) = (Failed e2, srv2) ->
  let res := sync_changes fs cfg confirm s in
  self res.2 = self s
  /\ events_since (connected fs cfg s) res.2
     = [Sent (CWD (remote_path cfg)) (Failed e1);
        Sent (CWD (remote_path cfg)) (Failed e2);
        Say SyncError;
        Sent QUIT (respond srv2 QUIT).1]
  /\ res.1 = match (respond srv2 QUIT).1 with
             | Done => Val None
             | Failed e => Raise e
             end.
Proof.
  intros Hch Hyes Hest Hne H1 H2 res. subst res.
  rewrite sync_changes_run. cbn zeta.
  fold (found fs s). fold (changed (found fs s)). fold (total_of (found fs s)).
  destruct (changed (found fs s)) as [|a l] eqn:Hchanged; [done|].
  apply String.eqb_eq in Hyes. rewrite Hyes.
  unfold sync_session. fold (total_of (found fs s)). fold (announced fs s).
  pose proof (connect_ftp_result cfg (announced fs s)) as Hres.
  change (server (announced fs s)) with (server s) in Hres.
  rewrite Hest in Hres.
  destruct (connect_ftp_emits cfg (announced fs s)) as [Hself2 _].
  unfold connected in *.
  destruct (connect_ftp cfg (announced fs s)) as [r2 s2].
  cbn [fst snd] in *. subst r2.
  rewrite (enter_base_missing cfg s2 e1 e2 srv1 srv2) by done.
  rewrite quit_after_run. cbn [fst snd self server log record].
  split; [done|]. split; [|done].
  apply events_since_app. cbn [log]. by rewrite <- !app_assoc.
Qed.

(** *** A server that accepts everything *)

Section Obliging.
Variable good : Server -> Prop.
Hypothesis Hgood : obliging good.

Lemma smooth_ret {A} (a : A) : smooth good (ret a) a [].
Proof. intros s Hs. by rewrite app_nil_r. Qed.

Lemma smooth_send (c : cmd) : smooth good (send c) tt [accepted c].
Proof.
  intros s Hs. rewrite send_run. cbn [fst snd server log].
  destruct (Hgood (server s) c Hs) as [-> Hnext]. done.
Qed.

Lemma smooth_tell (e : event) : smooth good (tell e) tt [e].
Proof. by intros s Hs. Qed.

Lemma smooth_bind {A B} (m : M A) (k : A -> M B) (a : A) (b : B) tr1 tr2 :
  smooth good m a tr1 -> smooth good (k a) b tr2 ->
  smooth good (m ≫= k) b (tr1 ++ tr2).
Proof.
  intros Hm Hk s Hs. rewrite bind_run. destruct (Hm s Hs) as [Hr [Hg Hlog]].
  destruct (m s) as [r s1]. cbn [fst snd] in *. subst r.
  destruct (Hk s1 Hg) as [Hr' [Hg' Hlog']].
  split; [done|]. split; [done|]. by rewrite Hlog', Hlog, <- app_assoc.
Qed.

Lemma smooth_try {A} (m : M A) (h : exn -> M A) (a : A) tr :
  smooth good m a tr -> smooth good (try_except m h) a tr.
Proof.
  intros Hm s Hs. unfold try_except. destruct (Hm s Hs) as [Hr [Hg Hlog]].
  destruct (m s) as [r s1]. cbn [fst snd] in *. by subst r.
Qed.

Lemma smooth_for_each {A} (l : list A) (body : A -> M unit)
    (trace : A -> list event) :
  (forall x, smooth good (body x) tt (trace x)) ->
  smooth good (for_each l body) tt (l ≫= trace).
Proof.
  intros Hb. induction l as [|x l IH]; [apply smooth_ret|].
  cbn [for_each]. rewrite bind_cons. by eapply smooth_bind.
Qed.

Lemma smooth_connect_ftp cfg :
  smooth good (connect_ftp cfg) true
    [accepted (CONNECT (host cfg) (port cfg));
     accepted (LOGIN (username cfg) (password cfg));
     accepted TYPE_I; accepted OPTS_UTF8_ON].
Proof.
  unfold connect_ftp. apply smooth_try.
  eapply (smooth_bind _ _ _ _ [_] [_; _; _]); [apply smooth_send|].
  eapply (smooth_bind _ _ _ _ [_] [_; _]); [apply smooth_send|].
  eapply (smooth_bind _ _ _ _ [_] [_]); [apply smooth_send|].
  eapply (smooth_bind _ _ _ _ [_] []);
    [apply smooth_try, smooth_send | apply smooth_ret].
Qed.

Lemma smooth_create_remote_dirs cfg (remote : string) :
  smooth good (create_remote_dirs cfg remote) tt
    (accepted (CWD (base_dir cfg))
       :: ((fun d => accepted (CWD d)) <$> remote_dirs remote)).
Proof.
  unfold create_remote_dirs.
  replace (match path_dirs remote with
           | [] => path_dirs remote
           | _ :: _ => removelast (path_dirs remote)
           end) with (remote_dirs remote)
    by (unfold remote_dirs; by destruct (path_dirs remote)).
  rewrite cwd_base_send.
  eapply (smooth_bind _ _ _ _ [_]); [apply smooth_send|].
  replace ((fun d => accepted (CWD d)) <$> remote_dirs remote)
    with (remote_dirs remote ≫= (fun d => [accepted (CWD d)])).
  - apply smooth_for_each. intros d. apply smooth_try, smooth_send.
  - induction (remote_dirs remote) as [|d ds IH]; [done|].
    by rewrite bind_cons, fmap_cons, IH.
Qed.

Lemma smooth_enter_base cfg : exists tr, smooth good (enter_base cfg) tt tr.
Proof.
  unfold enter_base. destruct (negb _); [|eexists; apply smooth_ret].
  eexists. apply smooth_try, smooth_send.
Qed.

Lemma smooth_upload_file fs cfg (file remote : string) (d : list Byte.byte) :
  os_open fs file = Some d ->
  smooth good (upload_file fs cfg file remote) true
    (UploadFile remote
       :: accepted (CWD (base_dir cfg))
       :: ((fun d => accepted (CWD d))
             <$> remote_dirs (Py.replace_backslash remote))
       ++ [accepted (CWD (base_dir cfg));
           accepted (STOR (Py.replace_backslash remote) d)]).
Proof.
  intros Hopen. unfold upload_file.
  eapply (smooth_bind _ _ _ _ [_]); [apply smooth_tell|].
  apply smooth_try. unfold upload_primary.
  eapply (smooth_bind _ _ _ _ (_ :: _) [_; _]);
    [apply smooth_create_remote_dirs|].
  eapply (smooth_bind _ _ _ _ [_] [_]);
    [rewrite cwd_base_send; apply smooth_send|].
  eapply (smooth_bind _ _ _ _ [_] []); [|apply smooth_ret].
  unfold store. rewrite Hopen. apply smooth_send.
Qed.

(** X13. Against a server that accepts every command, the upload of a
    file that can be opened takes the first way and succeeds: [cwd] to the
    base directory, [cwd] into each directory of the remote path, [cwd]
    back to the base directory, and the [STOR] of the whole remote path
    from there; no [MKD] is sent. *)
Theorem upload_file_on_obliging_server fs cfg (file remote : string)
    (d : list Byte.byte) s :
  good (server s) -> os_open fs file = Some d ->
  let r := upload_file fs cfg file remote s in
  r.1 = Val true
  /\ good (server r.2)
  /\ events_since s r.2
     = UploadFile remote
         :: accepted (CWD (base_dir cfg))
         :: ((fun d => accepted (CWD d))
               <$> remote_dirs (Py.replace_backslash remote))
         ++ [accepted (CWD (base_dir cfg));
             accepted (STOR (Py.replace_backslash remote) d)].
Proof.
  intros Hs Hopen r. subst r.
  destruct (smooth_upload_file fs cfg file remote d Hopen s Hs)
    as [Hr [Hg Hlog]].
  split; [done|]. split; [done|]. by apply events_since_app.
Qed.

Lemma smooth_upload_outcomes fs cfg (files : list string) s :
  Forall (fun file => is_Some (os_open fs file)) files ->
  good (server s) ->
  (upload_outcomes fs cfg files s).1 = (fun file => (file, true)) <$> files
  /\ good (server (upload_outcomes fs cfg files s).2).
Proof.
  intros Hall. revert s. induction Hall as [|file files [d Hd] _ IH]; intros s Hs.
  - done.
  - cbn [upload_outcomes].
    destruct (smooth_upload_file fs cfg file file d Hd s Hs) as [Hr [Hg _]].
    destruct (upload_file fs cfg file file s) as [r s1]. cbn [fst snd] in *.
    subst r. destruct (IH s1 Hg) as [Hout Hg'].
    destruct (upload_outcomes fs cfg files s1) as [out s2]. cbn [fst snd] in *.
    by rewrite Hout.
Qed.

Lemma all_true_successes (files : list string) :
  successes ((fun file => (file, true)) <$> files) = length files
  /\ failures ((fun file => (file, true)) <$> files) = [].
Proof.
  unfold successes, failures. induction files as [|f l [IH1 IH2]]; [done|].
  rewrite fmap_cons. cbn [List.filter snd negb length].
  split; [by f_equal | done].
Qed.

(** X14. Against a server that accepts every command, a confirmed run on a
    well-formed tree with changes uploads every changed file: it returns
    with [success] equal to the number of changes and no failed file,
    reports that all files were uploaded, and records the fingerprints of
    the tree as the tracked state. *)
Theorem obliging_server_uploads_all fs cfg (confirm : string) s :
  good (server s) -> wf_fs fs = true ->
  changed (found fs s) <> [] -> Py.lower confirm = "y" ->
  let res := sync_changes fs cfg confirm s in
  res.1 = Val (Some (total_of (found fs s), []))
  /\ self res.2 = (scan_folder fs true (self s)).1
  /\ uploads (events_since s res.2) = changed (found fs s)
  /\ List.filter reporting (events_since s res.2)
     = [Say (AllUploaded (total_of (found fs s)))].
Proof.
  intros Hs Hwf Hch Hyes res.
  assert (Forall (fun file => is_Some (os_open fs file)) (changed (found fs s)))
    as Hopen.
  { apply Forall_forall. intros p Hp.
    destruct (changed_recorded fs false (self s) p Hp) as [f [h [Hvis Hrec]]].
    apply recorded_not_ignored in Hrec as [_ Hhash].
    rewrite (visited_open fs p f Hwf Hvis).
    unfold get_file_hash in Hhash. destruct (f_stat f); [|done].
    simpl in Hhash. by destruct (f_data f). }
  assert (good (server (announced fs s))) as Hs1 by done.
  destruct (smooth_connect_ftp cfg _ Hs1) as [Hr2 [Hg2 _]].
  fold (connected fs cfg s) in Hg2.
  destruct (smooth_enter_base cfg) as [tr3 Henter].
  destruct (Henter _ Hg2) as [Hr3 [Hg3 _]].
  fold (entered fs cfg s) in Hg3.
  destruct (smooth_upload_outcomes fs cfg _ _ Hopen Hg3) as [Hout Hg4].
  destruct (all_true_successes (changed (found fs s))) as [Hsucc Hfail].
  assert (established cfg (server s) = true) as Hest.
  { pose proof (connect_ftp_result cfg (announced fs s)) as Hres.
    rewrite Hr2 in Hres. by inversion Hres. }
  assert (reaches_uploads fs cfg confirm s) as Hreach by done.
  assert (0 < length (changed (found fs s))) as Hpos
    by (destruct (changed (found fs s)); [done | simpl; lia]).
  destruct (sync_changes_uploading fs cfg confirm s Hreach)
    as [_ [Hup [_ [Hrep [Hself _]]]]].
  fold res in Hup, Hrep, Hself. unfold outcomes in *.
  rewrite Hout, Hsucc, Hfail in *. rewrite <- total_of_length in *.
  split; [|split; [|split; [done|]]].
  - subst res. rewrite sync_changes_run. cbn zeta.
    fold (found fs s). fold (changed (found fs s)). fold (total_of (found fs s)).
    destruct (changed (found fs s)) as [|a l] eqn:Hchanged; [done|].
    apply String.eqb_eq in Hyes. rewrite Hyes.
    unfold sync_session. fold (total_of (found fs s)). fold (announced fs s).
    unfold entered, connected in *.
    destruct (connect_ftp cfg (announced fs s)) as [r2 s2].
    cbn [fst snd] in *. subst r2.
    destruct (enter_base cfg s2) as [r3 s3]. cbn [fst snd] in *. subst r3.
    rewrite upload_loop_run, all_files_fst, Hchanged, quit_after_run.
    cbn [fst snd concluded server].
    destruct (Hgood _ QUIT Hg4) as [-> _].
    by rewrite Hout, Hsucc, Hfail.
  - rewrite Hself. by destruct (0 <? total_of (found fs s))%nat eqn:E;
      [|apply Nat.ltb_ge in E; lia].
  - rewrite Hrep. unfold report_messages. by rewrite Nat.eqb_refl.
Qed.

End Obliging.

End Sessions.

Section SessionsExamples.
#[local] Existing Instance plain_runtime.

(** A server that refuses [MKD] and the [cwd] into [sub]: the directory is
    passed over and [create_remote_dirs] returns. *)
Example create_remote_dirs_passes_over :
  (create_remote_dirs Ex.site "sub/b.txt" (Ex2.read_only Ex.fresh)).1 = Val tt
  /\ log (create_remote_dirs Ex.site "sub/b.txt" (Ex2.read_only Ex.fresh)).2
     = [Sent (CWD "/www") Done;
        Sent (CWD "sub") (Failed other_error);
        Sent (MKD "sub") (Failed other_error)].
Proof. split; by vm_compute. Qed.

(** A refused login: [test_connection] returns [False], and [connect_ftp]
    returns [None] after the permission message. *)
Example refused_login :
  (test_connection Ex.site (start (FTP := Ex2.denying_login) Ex.fresh tt)).1
  = Val false
  /\ (connect_ftp Ex.site (start (FTP := Ex2.denying_login) Ex.fresh tt)).1
     = Val false
  /\ messages
       (log (connect_ftp Ex.site
               (start (FTP := Ex2.denying_login) Ex.fresh tt)).2)
     = [FtpPermissionError].
Proof. repeat split; by vm_compute. Qed.

Lemma no_traffic_unless_confirmed_witness :
  (sync_changes Ex.two_files Ex.site "yes" (Ex.online Ex.stale)).1 = Val None
  /\ events_since (Ex.online Ex.stale)
       (sync_changes Ex.two_files Ex.site "yes" (Ex.online Ex.stale)).2
     = [Say (FoundChanges 2); Say SyncCancelled].
Proof.
  destruct (no_traffic_unless_confirmed Ex.two_files Ex.site "yes"
              (Ex.online Ex.stale))
    as [Hres [_ [_ Hev]]]; [right; by vm_compute|].
  split; [exact Hres|]. rewrite Hev. by vm_compute.
Defined.

Lemma session_closed_once_witness :
  exists tr0 q,
    events_since (Ex2.no_base Ex.stale)
      (sync_changes Ex.two_files Ex.site "y" (Ex2.no_base Ex.stale)).2
    = tr0 ++ [Sent QUIT q]
    /\ List.filter is_quit tr0 = [].
Proof.
  destruct (session_closed_once Ex.two_files Ex.site "y" (Ex2.no_base Ex.stale))
    as [Hclosed _].
  destruct Hclosed as [tr0 [q [Htr [Hno _]]]]; [by vm_compute ..|].
  by exists tr0, q.
Defined.

Lemma only_changed_files_stored_witness :
  exists p,
    p ∈ changed (found Ex.two_files (Ex.online Ex.stale))
    /\ os_open Ex.two_files p = Some (text "bb").
Proof.
  destruct (only_changed_files_stored Ex.two_files Ex.site "y"
              (Ex.online Ex.stale) "b.txt" (text "bb") Done)
    as [p [Hp [_ [Hopen _]]]].
  - apply list_elem_of_In. vm_compute.
    repeat (first [left; reflexivity | right]).
  - by exists p.
Defined.

Lemma next_run_up_to_date_witness :
  (sync_changes Ex.two_files Ex.site "y"
     (sync_changes Ex.two_files Ex.site "y"
        (Ex.flaky ["a.txt"] Ex.stale)).2).1
  = Val None.
Proof.
  rewrite (next_run_up_to_date Ex.two_files Ex.site "y"
             (Ex.flaky ["a.txt"] Ex.stale) Ex.site "y");
    [done | by vm_compute | by vm_compute].
Defined.

Lemma missing_base_aborts_witness :
  (sync_changes Ex.two_files Ex.site "y" (Ex2.no_base Ex.stale)).1 = Val None
  /\ self (sync_changes Ex.two_files Ex.site "y" (Ex2.no_base Ex.stale)).2
     = Ex.stale.
Proof.
  destruct (missing_base_aborts Ex.two_files Ex.site "y" (Ex2.no_base Ex.stale)
              other_error other_error tt tt)
    as [Hself [_ Hres]]; [by vm_compute ..|].
  split; [exact Hres | exact Hself].
Defined.

Lemma accepting_obliging : obliging (FTP := accepting) (fun _ => True).
Proof. by intros srv c _. Qed.

Lemma upload_file_on_obliging_server_witness :
  (upload_file Ex.posix_folder Ex.site "sub/b.txt" "sub/b.txt"
     (Ex.online Ex.fresh)).1 = Val true
  /\ events_since (Ex.online Ex.fresh)
       (upload_file Ex.posix_folder Ex.site "sub/b.txt" "sub/b.txt"
          (Ex.online Ex.fresh)).2
     = [UploadFile "sub/b.txt"; Sent (CWD "/www") Done; Sent (CWD "sub") Done;
        Sent (CWD "/www") Done; Sent (STOR "sub/b.txt" (text "bb")) Done].
Proof.
  destruct (upload_file_on_obliging_server (FTP := accepting) (fun _ => True)
              accepting_obliging Ex.posix_folder Ex.site "sub/b.txt"
              "sub/b.txt" (text "bb") (Ex.online Ex.fresh) I eq_refl)
    as [Hres [_ Hev]].
  split; [exact Hres|]. rewrite Hev. by vm_compute.
Defined.

Lemma obliging_server_uploads_all_witness :
  (sync_changes Ex.two_files Ex.site "y" (Ex.online Ex.stale)).1
  = Val (Some (2%nat, [])).
Proof.
  destruct (obliging_server_uploads_all (FTP := accepting) (fun _ => True)
              accepting_obliging Ex.two_files Ex.site "y" (Ex.online Ex.stale))
    as [Hres _]; [by vm_compute ..|].
  rewrite Hres. by vm_compute.
Defined.

End SessionsExamples.

(** ** Remote paths *)

Section RemotePaths.
Implicit Types (l root : list string) (n name : string).

Lemma replace_backslash_free n :
  Py.contains n "\" = false -> Py.replace_backslash n = n.
Proof.
  induction n as [|x n IH]; [done|].
  rewrite contains_char_String, replace_backslash_String. intros H.
  apply orb_false_iff in H as [Hx Hn]. rewrite (IH Hn).
  destruct (Ascii.eqb_spec x "\"%char) as [->|Hne]; [|done].
  by destruct (ascii_dec "\" "\").
Qed.

Lemma filter_all {A} (g : A -> bool) (l : list A) :
  Forall (fun x => g x = true) l -> List.filter g l = l.
Proof. induction 1 as [|x l Hx _ IH]; [done|]. simpl. by rewrite Hx, IH. Qed.

(** X15. The remote path of a file is its relative path with slashes, and
    the directories that [upload_file] enters or makes for it are the local
    directories on the way to it, when the separator is the slash or the
    backslash and no name on the path is empty or holds either of them. *)
Theorem remote_path_of_relpath (sep : ascii) root name :
  sep = "/"%char \/ sep = "\"%char ->
  Forall (fun n => n <> EmptyString /\ Py.contains n "/" = false
                   /\ Py.contains n "\" = false) (root ++ [name]) ->
  let remote := Py.replace_backslash (relpath sep root name) in
  remote = Py.join "/" (root ++ [name])
  /\ remote_dirs remote = root
  /\ bare_name remote = name.
Proof.
  intros Hsep Hall remote.
  assert (remote = Py.join "/" (root ++ [name])) as Hremote.
  { subst remote. unfold relpath. rewrite replace_backslash_join by done.
    f_equal. induction Hall as [|n l [_ [_ Hn]] _ IH]; [done|].
    by rewrite fmap_cons, IH, replace_backslash_free. }
  assert (path_dirs remote = root ++ [name]) as Hdirs.
  { rewrite Hremote. unfold path_dirs. rewrite split_join_free.
    - apply filter_all. eapply Forall_impl; [exact Hall|].
      intros n [Hne _]. apply negb_true_iff. by apply String.eqb_neq.
    - by destruct root.
    - eapply Forall_impl; [exact Hall|]. by intros n [_ [? _]]. }
  split; [done|]. unfold remote_dirs, bare_name. rewrite Hdirs.
  split; [apply removelast_last | apply last_last].
Qed.

End RemotePaths.

Section RemotePathsExamples.

Lemma remote_path_of_relpath_witness :
  Py.replace_backslash (relpath "\" ["site"; "css"] "main.css")
  = "site/css/main.css"
  /\ remote_dirs (Py.replace_backslash (relpath "\" ["site"; "css"] "main.css"))
     = ["site"; "css"].
Proof.
  destruct (remote_path_of_relpath "\" ["site"; "css"] "main.css")
    as [Hremote [Hdirs _]].
  - by right.
  - repeat constructor; by vm_compute.
  - split; [exact Hremote | exact Hdirs].
Defined.

(** Where the separator is the slash, a backslash in a file name is turned
    into a slash too, and the part before it is taken for a directory. *)
Example backslash_in_name :
  Py.replace_backslash (relpath "/" [] "a\b") = "a/b"
  /\ remote_dirs (Py.replace_backslash (relpath "/" [] "a\b")) = ["a"].
Proof. split; reflexivity. Qed.

End RemotePathsExamples.
